(** * Periodic heat-diffusion field of the soil-temperature scripts

    The two animation scripts [soil_temperature_depth.py] and
    [Soil temperature profile.py] compute the same array: the analytic
    solution of 1-D heat conduction under a sinusoidal surface forcing,
    sampled on a (depth x time) mesh.  This development embeds that
    computation and settles the properties the specification lists for it.

    Numbers.  The scripts compute in binary64.  Here a float is an exact
    real number or [NaN]; rounding, overflow and signed zeros are not
    modelled.  Two failures of the expression are: Python raises
    [ZeroDivisionError] when the divisor [k * P] is zero, and [np.sqrt] of
    a negative number is [nan], which every later operation propagates.
    Where a property is about the range of binary64 (a cell that is an
    infinity, or [nan] out of an infinity), the generator is taken once
    more in [Binary64], where a result past the largest number is an
    infinity.

    Inputs.  The scripts take no arguments: they bind the names
    [time_points], [depth_points], [surface_temp_amplitude],
    [surface_temp_mean], [k] and [P] and then evaluate the formula.  The
    generator is the formula as a function of those six names; the literals
    [8] and [12] of the formula stay literals.  [Depth] and [Profile] are
    the two scripts with the values they bind. *)

From Stdlib Require Import String Ascii.
From Stdlib Require Import Reals Lra Lia List Sorted ZArith QArith Qround.
From Stdlib Require Import Zfloor Rpower.
Import ListNotations.
Open Scope R_scope.

(** ** The fragment of Python and NumPy the scripts use *)

(** An idealised binary64: a real number, or not a number.  It has no
    largest number and no infinity; [Binary64] below has both. *)
Inductive float64 : Type :=
| Fin (x : R)
| NaN.

(** What a run can raise.  [ZeroDivisionError] is Python's; the other two
    are the error classes the specification names. *)
Inductive error : Type :=
| ZeroDivisionError
| InvalidDomainError
| InvalidParameterError.

Definition result (A : Type) : Type := (error + A)%type.

Definition ret {A : Type} (a : A) : result A := inr a.

Definition bind {A B : Type} (m : result A) (f : A -> result B) : result B :=
  match m with
  | inl e => inl e
  | inr a => f a
  end.

Notation "x <- m ;; f" := (bind m (fun x => f))
  (at level 61, m at next level, right associativity).

Definition ndarray : Type := list (list float64).

Definition lift1 (f : R -> R) (a : float64) : float64 :=
  match a with
  | Fin x => Fin (f x)
  | NaN => NaN
  end.

Definition lift2 (f : R -> R -> R) (a b : float64) : float64 :=
  match a, b with
  | Fin x, Fin y => Fin (f x y)
  | _, _ => NaN
  end.

Definition fneg : float64 -> float64 := lift1 Ropp.
Definition fadd : float64 -> float64 -> float64 := lift2 Rplus.
Definition fsub : float64 -> float64 -> float64 := lift2 Rminus.
Definition fmul : float64 -> float64 -> float64 := lift2 Rmult.
Definition fdiv : float64 -> float64 -> float64 := lift2 Rdiv.
Definition np_exp : float64 -> float64 := lift1 exp.
Definition np_sin : float64 -> float64 := lift1 sin.

(** [np.sqrt] of a Python float: [nan] below zero. *)
Definition np_sqrt (x : R) : float64 :=
  if Rlt_dec x 0 then NaN else Fin (sqrt x).

(** Python's [/] on two Python floats. *)
Definition py_truediv (a b : R) : result R :=
  if Req_dec_T b 0 then inl ZeroDivisionError else inr (a / b).

(** Elementwise operations; the second array of [amap2] has the shape of
    the first in every use below. *)
Definition amap (f : float64 -> float64) (a : ndarray) : ndarray :=
  map (map f) a.

Fixpoint map2 {A B C : Type} (f : A -> B -> C) (l : list A) (m : list B)
  : list C :=
  match l, m with
  | x :: l', y :: m' => f x y :: map2 f l' m'
  | _, _ => []
  end.

Definition amap2 (f : float64 -> float64 -> float64) (a b : ndarray)
  : ndarray :=
  map2 (map2 f) a b.

(** [np.arange(start, stop, step)]: [ceil((stop - start) / step)] values
    [start + i * step]. *)
Definition arange (start stop step : Q) : list R :=
  map (fun i : nat => Q2R (start + inject_Z (Z.of_nat i) * step))
      (seq 0 (Z.to_nat (Qceiling ((stop - start) / step)))).

(** [np.linspace(start, stop, num)] with the end point included. *)
Definition linspace (start stop : R) (num : nat) : list R :=
  let div := (num - 1)%nat in
  let delta := stop - start in
  map (fun i : nat =>
         if (S i =? num)%nat then
           if (1 <? num)%nat then stop else start + INR i * delta
         else start + INR i * (delta / INR div))
      (seq 0 num).

(** [np.meshgrid(x, y)]: both grids have one row per [y] and one column
    per [x]. *)
Definition meshgrid (x y : list R) : ndarray * ndarray :=
  (map (fun _ => map Fin x) y, map (fun yi => map (fun _ => Fin yi) x) y).

Definition cell (a : ndarray) (i j : nat) : option float64 :=
  match nth_error a i with
  | Some row => nth_error row j
  | None => None
  end.

(** [np.max] and [np.min] of a row of finite values, and the peak-to-trough
    swing of a row. *)
Fixpoint row_max (x : R) (l : list R) : R :=
  match l with
  | [] => x
  | y :: l' => Rmax x (row_max y l')
  end.

Fixpoint row_min (x : R) (l : list R) : R :=
  match l with
  | [] => x
  | y :: l' => Rmin x (row_min y l')
  end.

Definition swing (l : list R) : R :=
  match l with
  | [] => 0
  | x :: l' => row_max x l' - row_min x l'
  end.

(** ** The generator *)

Section Generator.

Variables time_points depth_points : list R.
Variables surface_temp_amplitude surface_temp_mean k P : R.

Definition time_grid : ndarray := fst (meshgrid time_points depth_points).
Definition depth_grid : ndarray := snd (meshgrid time_points depth_points).

Definition z : ndarray := amap fneg depth_grid.

Definition decay_factor : result ndarray :=
    q <- py_truediv PI (k * P) ;;
    ret (amap (fun zz => np_exp (fmul (fneg zz) (np_sqrt q))) z).

Definition phase_lag : result ndarray :=
    q <- py_truediv PI (k * P) ;;
    ret (amap (fun zz => fmul (fneg zz) (np_sqrt q)) z).

Definition surface_temperature : ndarray :=
    amap (fun t =>
            fadd (Fin surface_temp_mean)
                 (fmul (Fin surface_temp_amplitude)
                       (np_sin (fdiv (fmul (Fin PI) (fsub t (Fin 8)))
                                     (Fin 12)))))
         time_grid.

Definition soil_temperature : result ndarray :=
    d <- decay_factor ;;
    p <- phase_lag ;;
    ret (amap (fadd (Fin surface_temp_mean))
           (amap2 fmul
              (amap (fmul (Fin surface_temp_amplitude)) d)
              (amap np_sin
                 (amap2 fadd
                    (amap (fun t =>
                             fdiv (fmul (Fin PI) (fsub t (Fin 8))) (Fin 12))
                          time_grid)
                    p)))).

  (** The value the array expressions give one cell, as a real function of
      the cell's depth and time. *)
Definition decay_factor_at (zz : R) : R :=
    exp (- zz * sqrt (PI / (k * P))).

Definition phase_lag_at (zz : R) : R :=
    - zz * sqrt (PI / (k * P)).

Definition surface_temperature_at (time : R) : R :=
    surface_temp_mean
    + surface_temp_amplitude * sin (PI * (time - 8) / 12).

Definition soil_temperature_at (depth time : R) : R :=
    surface_temp_mean
    + surface_temp_amplitude * decay_factor_at (- depth)
      * sin (PI * (time - 8) / 12 + phase_lag_at (- depth)).

End Generator.

(** ** The two scripts *)

(** [soil_temperature_depth.py] *)
Module Depth.
Definition time_points : list R := arange 0 72 0.25.
Definition depth_points : list R := linspace 0 (-50) 51.
Definition surface_temp_amplitude : R := 10.
Definition surface_temp_mean : R := 25.
Definition k : R := 0.005 * 3600.
Definition P : R := 24.
Definition soil_temperature : result ndarray :=
    soil_temperature time_points depth_points
      surface_temp_amplitude surface_temp_mean k P.
End Depth.

(** [Soil temperature profile.py] *)
Module Profile.
Definition time_points : list R := arange 0 24 0.25.
Definition depth_points : list R := linspace 0 (-50) 50.
Definition surface_temp_amplitude : R := 10.
Definition surface_temp_mean : R := 25.
Definition surface_temperature : ndarray :=
    surface_temperature time_points depth_points
      surface_temp_amplitude surface_temp_mean.
Definition k : R := 0.005 * 3600.
Definition P : R := 24.
Definition soil_temperature : result ndarray :=
    soil_temperature time_points depth_points
      surface_temp_amplitude surface_temp_mean k P.
End Profile.

(** ** The specification's contract *)

(** [Spec] holds what is written after the specification's words rather
    than after the scripts: the parameter record, the closed form and the
    invariants on the inputs. *)
Module Spec.

Record ThermalParameters : Type := mkParams {
  meanTemperature : R;
  amplitude : R;
  diffusivity : R;
  period : R;
  phaseOffset : R
}.

(** The closed form; [zz] is the depth magnitude. *)
Definition decay (p : ThermalParameters) (zz : R) : R :=
  exp (- zz * sqrt (PI / (diffusivity p * period p))).

Definition phaseLag (p : ThermalParameters) (zz : R) : R :=
  - zz * sqrt (PI / (diffusivity p * period p)).

Definition temperature (p : ThermalParameters) (zz t : R) : R :=
  meanTemperature p
  + amplitude p * decay p zz
    * sin ((PI * (t - phaseOffset p) / (period p / 2)) + phaseLag p zz).

Definition forcing (p : ThermalParameters) (t : R) : R :=
  meanTemperature p
  + amplitude p * sin (PI * (t - phaseOffset p) / (period p / 2)).

(** The invariants on the three inputs. *)
Definition valid_params (p : ThermalParameters) : Prop :=
  0 <= amplitude p /\ 0 < diffusivity p /\ 0 < period p.

Definition valid_time_domain (l : list R) : Prop :=
  l <> [] /\ StronglySorted Rlt l.

Definition valid_depth_domain (l : list R) : Prop :=
  nth_error l 0 = Some 0 /\ StronglySorted Rge l.

End Spec.

Import Spec.

(** [generateField] is the scripts' computation with the record's fields
    bound to the names the scripts use.  The scripts have no name for the
    phase offset. *)
Definition generateField (timeDomain depthDomain : list R)
  (params : ThermalParameters) : result ndarray :=
  soil_temperature timeDomain depthDomain
    (amplitude params) (meanTemperature params)
    (diffusivity params) (period params).

(** The parameters both scripts bind. *)
Definition script_params : ThermalParameters :=
  mkParams 25 10 18 24 8.

(** The value of the generated field at depth magnitude [zz] and time
    [t], for any real time. *)
Definition field_value (p : ThermalParameters) (zz t : R) : R :=
  soil_temperature_at (amplitude p) (meanTemperature p)
    (diffusivity p) (period p) (- zz) t.

(** The values of a row, when none of them is [NaN]. *)
Fixpoint finite (row : list float64) : option (list R) :=
  match row with
  | [] => Some []
  | Fin x :: row' => option_map (cons x) (finite row')
  | NaN :: _ => None
  end.

(** Peak-to-trough swing of row [i] of a field: over the sampled times. *)
Definition row_swing (a : ndarray) (i : nat) : option R :=
  match nth_error a i with
  | Some row => option_map swing (finite row)
  | None => None
  end.

(** [t] is a time at which the temperature at depth magnitude [zz] is
    largest, over all real times. *)
Definition time_of_maximum (p : ThermalParameters) (zz t : R) : Prop :=
  forall t' : R, field_value p zz t' <= field_value p zz t.

Definition time_of_minimum (p : ThermalParameters) (zz t : R) : Prop :=
  forall t' : R, field_value p zz t <= field_value p zz t'.

(** [s] is the peak-to-trough swing at depth magnitude [zz] over all real
    times. *)
Definition swing_over_time (p : ThermalParameters) (zz s : R) : Prop :=
  exists tmax tmin : R,
    time_of_maximum p zz tmax /\ time_of_minimum p zz tmin
    /\ s = field_value p zz tmax - field_value p zz tmin.

(** The hour at which the argument of the sine of the formula is a quarter
    turn: [PI * (t - 8) / 12 + phase_lag = PI / 2]. *)
Definition peak_time (k P zz : R) : R :=
  14 + 12 * (zz * sqrt (PI / (k * P))) / PI.

(** What the generator returns when nothing is checked: the three cases of
    the sign of [k * P]. *)
Definition unchecked_outcome (tp dp : list R) (p : ThermalParameters)
  : result ndarray :=
  if Req_dec_T (diffusivity p * period p) 0 then inl ZeroDivisionError
  else if Rlt_dec (diffusivity p * period p) 0
       then inr (map (fun _ => map (fun _ => NaN) tp) dp)
       else inr (map (fun d =>
                        map (fun t => Fin (field_value p (- d) t)) tp) dp).

(** ** More of Python and NumPy: indices, slices, [argmin], clock text *)

(** What the rest of the scripts can raise. *)
Inductive exception : Type :=
| IndexError
| ValueError.

Definition outcome (A : Type) : Type := (exception + A)%type.

(** [a[i]]: a negative index counts from the end. *)
Definition py_index {A : Type} (a : list A) (i : Z) : outcome A :=
  let n := Z.of_nat (length a) in
  let j := if (i <? 0)%Z then (i + n)%Z else i in
  if ((0 <=? j)%Z && (j <? n)%Z)%bool then
    match nth_error a (Z.to_nat j) with
    | Some x => inr x
    | None => inl IndexError
    end
  else inl IndexError.

(** [a[:stop]]: a negative stop counts from the end, and the slice is cut
    to the array. *)
Definition py_slice_to {A : Type} (a : list A) (stop : Z) : list A :=
  let n := Z.of_nat (length a) in
  let s := if (stop <? 0)%Z then Z.max 0 (stop + n) else stop in
  firstn (Z.to_nat s) a.

(** [a.argmin()]: the first index of the smallest value. *)
Fixpoint argmin_from (best : R) (besti i : nat) (l : list R) : nat :=
  match l with
  | [] => besti
  | x :: l' =>
      if Rlt_dec x best then argmin_from x i (S i) l'
      else argmin_from best besti (S i) l'
  end.

Definition np_argmin (a : list R) : outcome nat :=
  match a with
  | [] => inl ValueError
  | x :: l => inr (argmin_from x 0 1 l)
  end.

(** [int(x)] of a float: truncation towards zero. *)
Definition py_int (x : R) : Z :=
  if Rle_dec 0 x then Zfloor x else Zceil x.

(** The time of day of [datetime(2023, 1, 1, 0, 0) + timedelta(minutes=m)]
    as (hour, minute); the date, and with it [OverflowError] for a date
    outside the years 1 to 9999, is left out. *)
Definition clock (m : Z) : Z * Z :=
  (((m mod 1440) / 60)%Z, ((m mod 1440) mod 60)%Z).

Definition digit (d : Z) : ascii := ascii_of_nat (48 + Z.to_nat d).

Definition two_digits (n : Z) : string :=
  String (digit (n / 10)) (String (digit (n mod 10)) EmptyString).

(** [strftime('%H:%M')] *)
Definition strftime_HM (hm : Z * Z) : string :=
  (two_digits (fst hm) ++ ":" ++ two_digits (snd hm))%string.

(** The clock text both animations show for the time [t] in hours.  The
    product [t * 60] is taken exactly; binary64 gives the same integer
    where the product is exact, as on the quarter-hour grid of the scripts,
    and the properties of the text below are stated on that grid. *)
Definition time_str (t : R) : string :=
  strftime_HM (clock (py_int (t * 60))).

(** [np.min] and [np.max] of a two-dimensional array of finite values. *)
Definition np_min (a : list (list R)) : outcome R :=
  match concat a with
  | [] => inl ValueError
  | x :: l => inr (row_min x l)
  end.

Definition np_max (a : list (list R)) : outcome R :=
  match concat a with
  | [] => inl ValueError
  | x :: l => inr (row_max x l)
  end.

(** ** The animation of [soil_temperature_depth.py] *)

Module DepthAnimation.

Definition depths_to_plot : list R := [-5; -10; -20; -50].

(** [np.abs(depth_points - d).argmin()] *)
Definition depth_index (depth_points : list R) (d : R) : outcome nat :=
  np_argmin (map (fun x => Rabs (x - d)) depth_points).

(** The artists [update] writes: the data of the curves, the two ends of
    the vertical marker and the text. *)
Record artists : Type := mkArtists {
  lines : list (list R * list float64);
  time_marker : list R;
  time_text : string
}.

(** The figure before the first frame: four empty curves, the marker at 0,
    no text. *)
Definition initial : artists :=
  mkArtists [([], []); ([], []); ([], []); ([], [])] [0; 0] EmptyString.

(** [zip(lines, data_series)] pairs the curves with the series as far as
    both go; a curve without a series keeps its data. *)
Fixpoint set_lines (time_points : list R) (frame : Z)
  (ls : list (list R * list float64)) (data_series : list (list float64))
  : list (list R * list float64) :=
  match ls, data_series with
  | _ :: ls', data :: ds' =>
      (py_slice_to time_points (frame + 1), py_slice_to data (frame + 1))
      :: set_lines time_points frame ls' ds'
  | _, _ => ls
  end.

Definition update (time_points : list R) (data_series : list (list float64))
  (st : artists) (frame : Z) : outcome artists :=
  match py_index time_points frame with
  | inl e => inl e
  | inr current_time_point =>
      inr (mkArtists
             (set_lines time_points frame (lines st) data_series)
             [current_time_point; current_time_point]
             ("当前时间: " ++ time_str current_time_point)%string)
  end.

End DepthAnimation.

(** The limits [soil_temperature_depth.py] gives the temperature axis:
    [ax.set_ylim(np.min(soil_temperature) - 1, np.max(soil_temperature) + 1)],
    for an array without [NaN]. *)
Definition ylim (soil_temperature : list (list R)) : outcome (R * R) :=
  match np_min soil_temperature, np_max soil_temperature with
  | inr lo, inr hi => inr (lo - 1, hi + 1)
  | inl e, _ => inl e
  | _, inl e => inl e
  end.

(** ** The animation of [Soil temperature profile.py] *)

Module ProfileAnimation.

(** The curve (temperatures against depths) and the text box. *)
Record artists : Type := mkArtists {
  line_xdata : list float64;
  line_ydata : list R;
  time_text : string
}.

(** [a[:, j]].  An array without rows carries no number of columns here,
    so it yields the empty column for every [j]. *)
Fixpoint np_column (a : ndarray) (j : Z) : outcome (list float64) :=
  match a with
  | [] => inr []
  | row :: a' =>
      match py_index row j with
      | inl e => inl e
      | inr x =>
          match np_column a' j with
          | inl e => inl e
          | inr col => inr (x :: col)
          end
      end
  end.

(** [line, = ax.plot(soil_temperature[:, 0], depth_points)] and the empty
    text box. *)
Definition initial (depth_points : list R) (soil_temperature : ndarray)
  : outcome artists :=
  match np_column soil_temperature 0 with
  | inl e => inl e
  | inr col => inr (mkArtists col depth_points EmptyString)
  end.

(** An exception ends the run: the half-written artists are not
    returned. *)
Definition update (time_points : list R) (soil_temperature : ndarray)
  (st : artists) (frame : Z) : outcome artists :=
  match np_column soil_temperature frame with
  | inl e => inl e
  | inr col =>
      match py_index time_points frame with
      | inl e => inl e
      | inr t =>
          inr (mkArtists col (line_ydata st) ("时间: " ++ time_str t)%string)
      end
  end.

End ProfileAnimation.

(** ** More of NumPy: comparisons, masks, powers *)

Definition Rltb (x y : R) : bool := if Rlt_dec x y then true else false.
Definition Rleb (x y : R) : bool := if Rle_dec x y then true else false.

(** [np.sum] of a mask: how many entries are true. *)
Definition np_sum (mask : list bool) : nat :=
  length (filter (fun b => b) mask).

(** [a[mask]] *)
Fixpoint compress {A : Type} (mask : list bool) (a : list A) : list A :=
  match mask, a with
  | b :: mask', x :: a' =>
      if b then x :: compress mask' a' else compress mask' a'
  | _, _ => []
  end.

(** [y[mask] = v] for a scalar [v]. *)
Definition mask_set (y : list float64) (mask : list bool) (v : float64)
  : list float64 :=
  map2 (fun yi (b : bool) => if b then v else yi) y mask.

(** [y[mask] = vals] for an array [vals] with one value per true entry. *)
Fixpoint mask_assign (y : list float64) (mask : list bool)
  (vals : list float64) : list float64 :=
  match y, mask with
  | yi :: y', b :: mask' =>
      if b then
        match vals with
        | v :: vals' => v :: mask_assign y' mask' vals'
        | [] => yi :: mask_assign y' mask' []
        end
      else yi :: mask_assign y' mask' vals
  | _, _ => y
  end.

(** [x ** e] for a float exponent: [nan] for a negative base.  A zero base
    with a negative exponent is infinite in NumPy, which is outside these
    floats; no script raises zero to a negative power. *)
Definition np_power (x : float64) (e : R) : float64 :=
  match x with
  | NaN => NaN
  | Fin b =>
      if Rlt_dec b 0 then NaN
      else if Req_dec_T b 0 then
             if Rlt_dec 0 e then Fin 0
             else if Req_dec_T e 0 then Fin 1 else NaN
           else Fin (Rpower b e)
  end.

Definition np_tanh : float64 -> float64 := lift1 tanh.

(** ** [TDR waveform.py] *)

Module TDR.

Definition cable_length : R := 35.0.
Definition sensor_body_length : R := 10.0.
Definition probe_apparent_length : R := 70.0.
Definition plot_start_position : R := 30.0.
Definition cable_apparent_length : R :=
  plot_start_position + cable_length + sensor_body_length.
Definition total_apparent_length : R :=
  cable_apparent_length + probe_apparent_length.
Definition plot_end_distance : R := 200.0.
Definition num_frames : Z := 250.

(** In [normalized_x] the divisor [(x2 - 2) - (x1 + 2)] is positive
    whenever the branch runs ([between_divisor_positive] below), so the
    division never meets a zero. *)
Definition create_realistic_waveform (x_data : list R) (x1 x2 : R)
  : list float64 :=
  let xs := map Fin x_data in
  let y := map (fun _ => Fin 0) xs in
  let mask_cable := map (fun x => Rltb x (x1 - 5)) x_data in
  let y := mask_set y mask_cable (Fin 0.0) in
  let peak1_amplitude := 0.12 in
  let peak1_std_dev := 1.5 in
  let y :=
    map2 fadd y
      (map (fun x =>
              fmul (Fin peak1_amplitude)
                (np_exp
                   (fmul (Fin (- 0.5))
                      (let q := fdiv (fsub x (Fin x1)) (Fin peak1_std_dev) in
                       fmul q q))))
           xs) in
  let mask_between :=
    map (fun x => (Rltb (x1 + 2) x && Rltb x (x2 - 2))%bool) x_data in
  let y :=
    if (0 <? np_sum mask_between)%nat then
      let x_between := compress mask_between xs in
      let normalized_x :=
        map (fun x =>
               fdiv (fsub x (Fin (x1 + 2))) (Fin ((x2 - 2) - (x1 + 2))))
            x_between in
      let start_val := 0.05 in
      let end_val := - 0.05 in
      let decay_factor := 0.8 in
      mask_assign y mask_between
        (map (fun n =>
                fadd (Fin start_val)
                  (fmul (Fin (end_val - start_val)) (np_power n decay_factor)))
             normalized_x)
    else y in
  let reflection_mask :=
    map (fun x => (Rleb (x2 - 2) x && Rleb x (x2 + 5))%bool) x_data in
  let y :=
    if (0 <? np_sum reflection_mask)%nat then
      let x_reflection := compress reflection_mask xs in
      let transition_factor :=
        map (fun x => fdiv (fsub x (Fin x2)) (Fin 2.0)) x_reflection in
      let reflection_amplitude := 0.25 in
      mask_assign y reflection_mask
        (map2 fadd (compress reflection_mask y)
           (map (fun tf =>
                   fdiv
                     (fmul (Fin reflection_amplitude)
                        (fadd (np_tanh (fmul tf (Fin 3))) (Fin 1)))
                     (Fin 2))
                transition_factor))
    else y in
  let mask_after := map (fun x => Rltb (x2 + 5) x) x_data in
  let y :=
    if (0 <? np_sum mask_after)%nat then
      let stable_level := 0.2 in
      mask_set y mask_after (Fin stable_level)
    else y in
  y.

Definition x_waveform : list R := linspace 0 plot_end_distance 800.

Definition y_waveform : list float64 :=
  create_realistic_waveform x_waveform
    cable_apparent_length total_apparent_length.

(** What the frames change: the drawn part of the waveform, the place of
    the signal arrow, and which annotations are visible. *)
Record artists : Type := mkArtists {
  waveform_line : list R * list float64;
  signal_arrow : R;
  an_x1 : bool;
  an_x2 : bool;
  an_La : bool;
  an_La_text : bool;
  an_x1_text : bool;
  an_x2_text : bool
}.

Definition initial : artists :=
  mkArtists ([], []) 0 false false false false false false.

Definition current_dist (frame : Z) : R :=
  plot_start_position
  + (IZR frame / IZR num_frames) * (plot_end_distance - plot_start_position).

Definition update (st : artists) (frame : Z) : artists :=
  let mask := map (fun x => Rleb x (current_dist frame)) x_waveform in
  let st :=
    mkArtists (compress mask x_waveform, compress mask y_waveform)
      (current_dist frame)
      (an_x1 st) (an_x2 st) (an_La st) (an_La_text st)
      (an_x1_text st) (an_x2_text st) in
  let st :=
    if Rlt_dec (cable_apparent_length + 2) (current_dist frame) then
      mkArtists (waveform_line st) (signal_arrow st)
        true (an_x2 st) (an_La st) (an_La_text st) true (an_x2_text st)
    else st in
  let st :=
    if Rlt_dec (total_apparent_length + 2) (current_dist frame) then
      mkArtists (waveform_line st) (signal_arrow st)
        (an_x1 st) true true true (an_x1_text st) true
    else st in
  st.

(** The value of one sample of the waveform at the place [x], read off the
    four steps in their order. *)
Definition gauss (x1 x : R) : R :=
  0.12 * exp (- 0.5 * ((x - x1) / 1.5 * ((x - x1) / 1.5))).

Definition ramp (x1 x2 x : R) : R :=
  0.05 + (- 0.05 - 0.05)
         * Rpower ((x - (x1 + 2)) / ((x2 - 2) - (x1 + 2))) 0.8.

Definition step (x2 x : R) : R :=
  0.25 * (tanh ((x - x2) / 2.0 * 3) + 1) / 2.

Definition waveform_at (x1 x2 x : R) : R :=
  let v := 0 + gauss x1 x in
  let v := if (Rltb (x1 + 2) x && Rltb x (x2 - 2))%bool
           then ramp x1 x2 x else v in
  let v := if (Rleb (x2 - 2) x && Rleb x (x2 + 5))%bool
           then v + step x2 x else v in
  if Rltb (x2 + 5) x then 0.2 else v.

End TDR.

(** ** More of NumPy: division, smallest and largest value of an array *)

(** [a / b] on arrays: [0 / 0] is [nan].  A non-zero value over zero is
    infinite in NumPy, which is outside these floats and stands as [NaN]
    here; the theorems below divide by a non-zero number, or zero by
    zero. *)
Definition np_divide (a b : float64) : float64 :=
  match a, b with
  | Fin x, Fin y => if Req_dec_T y 0 then NaN else Fin (x / y)
  | _, _ => NaN
  end.

(** [np.min] and [np.max] of a one-dimensional array: [nan] when it holds
    one, [ValueError] when it is empty. *)
Definition np_amin (a : list float64) : outcome float64 :=
  match a with
  | [] => inl ValueError
  | _ :: _ =>
      match finite a with
      | Some (x :: l) => inr (Fin (row_min x l))
      | _ => inr NaN
      end
  end.

Definition np_amax (a : list float64) : outcome float64 :=
  match a with
  | [] => inl ValueError
  | _ :: _ =>
      match finite a with
      | Some (x :: l) => inr (Fin (row_max x l))
      | _ => inr NaN
      end
  end.

(** ** [soil thermal properties.py] *)

Module Thermal.

Section Model.

Variables phi C_s C_w lambda_dry lambda_sat : R.
Variable theta : list R.

Definition C : list float64 :=
  map (fun t => fadd (Fin ((1 - phi) * C_s)) (fmul t (Fin C_w)))
      (map Fin theta).

Definition Se : list float64 :=
  map (fun t => np_divide t (Fin phi)) (map Fin theta).

Definition lambda_val : list float64 :=
  map (fun s =>
         fadd (Fin lambda_dry)
           (np_divide
              (fmul (Fin (lambda_sat - lambda_dry))
                 (fsub (Fin 1)
                    (np_power
                       (fadd (Fin 1)
                          (np_power (np_divide s (Fin 0.14))
                             (1 / (1 - 0.29))))
                       (- 0.29))))
              (Fin (1 - Rpower (1 + Rpower (1 / 0.14) (1 / (1 - 0.29)))
                               (- 0.29)))))
      Se.

Definition kappa : list float64 :=
  map2 (fun l c => fmul (np_divide l c) (Fin 1e6)) lambda_val C.

End Model.

(** [(v - np.min(v)) / (np.max(v) - np.min(v))], the expression the script
    applies to [C], [lambda_val] and [kappa]. *)
Definition normalized (v : list float64) : outcome (list float64) :=
  match np_amin v with
  | inl e => inl e
  | inr lo =>
      match np_amax v with
      | inl e => inl e
      | inr hi => inr (map (fun x => np_divide (fsub x lo) (fsub hi lo)) v)
      end
  end.

(** The value of one entry of [lambda_val] at the water content [t]. *)
Definition shape (s : R) : R :=
  1 - Rpower (1 + (if Req_dec_T s 0 then 0
                   else Rpower (s / 0.14) (1 / (1 - 0.29))))
             (- 0.29).

Definition lambda_at (phi lambda_dry lambda_sat t : R) : R :=
  lambda_dry + (lambda_sat - lambda_dry) * shape (t / phi) / shape 1.

End Thermal.

(** The numbers the script binds. *)
Module ThermalScript.
Definition phi : R := 0.45.
Definition C_s : R := 2.0e6.
Definition C_w : R := 4.18e6.
Definition lambda_dry : R := 0.3.
Definition lambda_sat : R := 2.2.
Definition theta : list R := linspace 0 phi 200.
Definition C : list float64 := Thermal.C phi C_s C_w theta.
Definition Se : list float64 := Thermal.Se phi theta.
Definition lambda_val : list float64 :=
  Thermal.lambda_val phi lambda_dry lambda_sat theta.
Definition kappa : list float64 :=
  Thermal.kappa phi C_s C_w lambda_dry lambda_sat theta.
Definition C_norm : outcome (list float64) := Thermal.normalized C.
Definition lambda_norm : outcome (list float64) :=
  Thermal.normalized lambda_val.
Definition kappa_norm : outcome (list float64) := Thermal.normalized kappa.
End ThermalScript.

(** ** Binary64 with its range *)

(** The generator once more, now with the range of binary64.  A result
    whose magnitude reaches [overflow_threshold] is an infinity, and the
    infinities follow IEEE 754: [inf - inf], [0 * inf] and [sin inf] are
    [nan], [exp (-inf)] is 0.  Inside the range a result is still the
    exact real number: rounding and signed zeros are not modelled, and
    neither is underflow (binary64 gives 0 for a result below [2^-1075] in
    magnitude; here a non-zero result stays non-zero).  The inputs are
    binary64 numbers, so they enter as [Finite] values. *)
Module Binary64.

Inductive binary64 : Type :=
| Finite (x : R)
| Infinity (negative : bool)
| Nan.

(** Half an ulp above the largest binary64 number [2^1024 - 2^971]: the
    smallest magnitude that rounds to an infinity. *)
Definition overflow_threshold : R := 2 ^ 1024 - 2 ^ 970.

Definition in_range (x : R) : Prop :=
  - overflow_threshold < x < overflow_threshold.

Definition round (x : R) : binary64 :=
  if Rle_dec overflow_threshold x then Infinity false
  else if Rle_dec x (- overflow_threshold) then Infinity true
  else Finite x.

Definition negative (x : R) : bool :=
  if Rlt_dec x 0 then true else false.

Definition neg (a : binary64) : binary64 :=
  match a with
  | Finite x => Finite (- x)
  | Infinity s => Infinity (negb s)
  | Nan => Nan
  end.

Definition add (a b : binary64) : binary64 :=
  match a, b with
  | Finite x, Finite y => round (x + y)
  | Finite _, Infinity s => Infinity s
  | Infinity s, Finite _ => Infinity s
  | Infinity s, Infinity s' => if Bool.eqb s s' then Infinity s else Nan
  | _, _ => Nan
  end.

Definition sub (a b : binary64) : binary64 := add a (neg b).

Definition mul (a b : binary64) : binary64 :=
  match a, b with
  | Finite x, Finite y => round (x * y)
  | Finite x, Infinity s =>
      if Req_dec_T x 0 then Nan else Infinity (xorb (negative x) s)
  | Infinity s, Finite y =>
      if Req_dec_T y 0 then Nan else Infinity (xorb s (negative y))
  | Infinity s, Infinity s' => Infinity (xorb s s')
  | _, _ => Nan
  end.

(** NumPy's [/]: a division by zero is an infinity, or [nan] for [0 / 0]. *)
Definition div (a b : binary64) : binary64 :=
  match a, b with
  | Finite x, Finite y =>
      if Req_dec_T y 0 then
        if Req_dec_T x 0 then Nan else Infinity (negative x)
      else round (x / y)
  | Finite _, Infinity _ => Finite 0
  | Infinity s, Finite y => Infinity (xorb s (negative y))
  | _, _ => Nan
  end.

Definition np_exp (a : binary64) : binary64 :=
  match a with
  | Finite x => round (exp x)
  | Infinity false => Infinity false
  | Infinity true => Finite 0
  | Nan => Nan
  end.

Definition np_sin (a : binary64) : binary64 :=
  match a with
  | Finite x => Finite (sin x)
  | _ => Nan
  end.

Definition np_sqrt (a : binary64) : binary64 :=
  match a with
  | Finite x => if Rlt_dec x 0 then Nan else Finite (sqrt x)
  | Infinity false => Infinity false
  | _ => Nan
  end.

(** Python's [/] on two Python floats: only a zero divisor raises. *)
Definition py_truediv (a b : binary64) : result binary64 :=
  match b with
  | Finite y =>
      if Req_dec_T y 0 then inl ZeroDivisionError else inr (div a b)
  | _ => inr (div a b)
  end.

Definition ndarray : Type := list (list binary64).

Definition amap (f : binary64 -> binary64) (a : ndarray) : ndarray :=
  map (map f) a.

Definition amap2 (f : binary64 -> binary64 -> binary64) (a b : ndarray)
  : ndarray :=
  map2 (map2 f) a b.

Definition meshgrid (x y : list R) : ndarray * ndarray :=
  (map (fun _ => map Finite x) y,
   map (fun yi => map (fun _ => Finite yi) x) y).

Definition cell (a : ndarray) (i j : nat) : option binary64 :=
  match nth_error a i with
  | Some row => nth_error row j
  | None => None
  end.

Section Generator.

Variables time_points depth_points : list R.
Variables surface_temp_amplitude surface_temp_mean k P : R.

Definition time_grid : ndarray := fst (meshgrid time_points depth_points).
Definition depth_grid : ndarray := snd (meshgrid time_points depth_points).

Definition z : ndarray := amap neg depth_grid.

Definition decay_factor : result ndarray :=
    q <- py_truediv (Finite PI) (mul (Finite k) (Finite P)) ;;
    ret (amap (fun zz => np_exp (mul (neg zz) (np_sqrt q))) z).

Definition phase_lag : result ndarray :=
    q <- py_truediv (Finite PI) (mul (Finite k) (Finite P)) ;;
    ret (amap (fun zz => mul (neg zz) (np_sqrt q)) z).

Definition soil_temperature : result ndarray :=
    d <- decay_factor ;;
    p <- phase_lag ;;
    ret (amap (add (Finite surface_temp_mean))
           (amap2 mul
              (amap (mul (Finite surface_temp_amplitude)) d)
              (amap np_sin
                 (amap2 add
                    (amap (fun t =>
                             div (mul (Finite PI) (sub t (Finite 8)))
                                 (Finite 12))
                          time_grid)
                    p)))).

End Generator.

Definition generateField (timeDomain depthDomain : list R)
  (params : ThermalParameters) : result ndarray :=
  soil_temperature timeDomain depthDomain
    (amplitude params) (meanTemperature params)
    (diffusivity params) (period params).

(** No step of the formula reaches the overflow threshold: the product
    [k * P], the quotient [pi / (k * P)], the two ends of the interval of
    the temperatures, the lag of every depth, and the angle of every depth
    and time. *)
Definition no_overflow (tp dp : list R) (p : ThermalParameters) : Prop :=
  in_range (diffusivity p * period p)
  /\ in_range (PI / (diffusivity p * period p))
  /\ in_range (meanTemperature p - amplitude p)
  /\ in_range (meanTemperature p + amplitude p)
  /\ Forall (fun d =>
               in_range (d * sqrt (PI / (diffusivity p * period p)))) dp
  /\ Forall (fun t =>
               in_range (PI * (t - 8))
               /\ Forall (fun d =>
                            in_range
                              (PI * (t - 8) / 12
                               + d * sqrt (PI / (diffusivity p * period p))))
                         dp) tp.

End Binary64.

(** ** Arrays *)

Lemma map2_map (A B C D : Type) (f : B -> C -> D) (g : A -> B) (h : A -> C)
  (l : list A) :
  map2 f (map g l) (map h l) = map (fun x => f (g x) (h x)) l.
Proof.
  induction l as [|x l IH]; simpl; [reflexivity|].
  now rewrite IH.
Qed.

Lemma cell_map_map (A B : Type) (f : A -> B -> float64) (dp : list A)
  (tp : list B) (i j : nat) (d : A) (t : B) :
  nth_error dp i = Some d ->
  nth_error tp j = Some t ->
  cell (map (fun d' => map (f d') tp) dp) i j = Some (f d t).
Proof.
  intros Hd Ht. unfold cell.
  rewrite nth_error_map, Hd. simpl.
  rewrite nth_error_map, Ht. reflexivity.
Qed.

Lemma finite_map_Fin (A : Type) (f : A -> R) (l : list A) :
  finite (map (fun t => Fin (f t)) l) = Some (map f l).
Proof.
  induction l as [|x l IH]; simpl; [reflexivity|].
  now rewrite IH.
Qed.

Lemma arange_nth (start stop step : Q) (i : nat) :
  (i < Z.to_nat (Qceiling ((stop - start) / step)))%nat ->
  nth_error (arange start stop step) i
  = Some (Q2R (start + inject_Z (Z.of_nat i) * step)).
Proof.
  intros Hi. unfold arange. rewrite nth_error_map.
  rewrite (nth_error_nth' (seq 0 _) 0%nat)
    by (rewrite length_seq; exact Hi).
  rewrite seq_nth by exact Hi. reflexivity.
Qed.

Lemma linspace_down (stop : R) (num : nat) :
  stop <= 0 -> Forall (fun d => d <= 0) (linspace 0 stop num).
Proof.
  intros Hs. apply Forall_forall. intros x Hx.
  unfold linspace in Hx. apply in_map_iff in Hx.
  destruct Hx as (i & <- & Hi). apply in_seq in Hi.
  pose proof (pos_INR i) as Hpos.
  destruct (Nat.eqb_spec (S i) num) as [E|N].
  - destruct (1 <? num)%nat; [exact Hs | nra].
  - assert (Hd : 0 < INR (num - 1)) by (apply lt_0_INR; lia).
    assert (Hq : (stop - 0) / INR (num - 1) <= 0).
    { unfold Rdiv. apply Rinv_0_lt_compat in Hd. nra. }
    nra.
Qed.

Lemma quarter_hour (i : nat) :
  Q2R (0 + inject_Z (Z.of_nat i) * 0.25) = INR i / 4.
Proof.
  unfold Q2R. simpl.
  rewrite !mult_IZR, <- INR_IZR_INZ. lra.
Qed.

Lemma quarter_hours_nth (i : nat) :
  (i < 96)%nat ->
  nth_error (arange 0 24 0.25) i = Some (INR i / 4).
Proof.
  intros Hi. rewrite arange_nth by exact Hi. now rewrite quarter_hour.
Qed.

Lemma quarter_hours_14 : nth_error (arange 0 24 0.25) 56 = Some 14.
Proof.
  rewrite quarter_hours_nth by lia. f_equal.
  replace (INR 56) with 56 by (rewrite INR_IZR_INZ; reflexivity). lra.
Qed.

Lemma quarter_hours_2 : nth_error (arange 0 24 0.25) 8 = Some 2.
Proof.
  rewrite quarter_hours_nth by lia. f_equal.
  replace (INR 8) with 8 by (rewrite INR_IZR_INZ; reflexivity). lra.
Qed.

(** ** Rows: largest and smallest value, swing *)

Lemma row_max_first (x : R) (l : list R) : x <= row_max x l.
Proof. destruct l; simpl; [apply Rle_refl | apply Rmax_l]. Qed.

Lemma row_min_first (x : R) (l : list R) : row_min x l <= x.
Proof. destruct l; simpl; [apply Rle_refl | apply Rmin_l]. Qed.

Lemma row_max_In (l : list R) :
  forall x y : R, In y l -> y <= row_max x l.
Proof.
  induction l as [|h l IH]; intros x y Hy; [contradiction|].
  simpl. destruct Hy as [->|Hy].
  - eapply Rle_trans; [apply row_max_first | apply Rmax_r].
  - eapply Rle_trans; [apply (IH h y Hy) | apply Rmax_r].
Qed.

Lemma row_min_In (l : list R) :
  forall x y : R, In y l -> row_min x l <= y.
Proof.
  induction l as [|h l IH]; intros x y Hy; [contradiction|].
  simpl. destruct Hy as [->|Hy].
  - eapply Rle_trans; [apply Rmin_r | apply row_min_first].
  - eapply Rle_trans; [apply Rmin_r | apply (IH h y Hy)].
Qed.

Lemma row_max_le (hi : R) (l : list R) :
  forall x : R, x <= hi -> Forall (fun y => y <= hi) l -> row_max x l <= hi.
Proof.
  induction l as [|h l IH]; intros x Hx Hl; simpl; [exact Hx|].
  inversion Hl; subst. apply Rmax_lub; [exact Hx | now apply IH].
Qed.

Lemma row_min_ge (lo : R) (l : list R) :
  forall x : R, lo <= x -> Forall (fun y => lo <= y) l -> lo <= row_min x l.
Proof.
  induction l as [|h l IH]; intros x Hx Hl; simpl; [exact Hx|].
  inversion Hl; subst. apply Rmin_glb; [exact Hx | now apply IH].
Qed.

Lemma swing_between (lo hi : R) (l : list R) :
  lo <= hi ->
  Forall (fun y => lo <= y <= hi) l ->
  swing l <= hi - lo.
Proof.
  intros Hlh Hl. destruct l as [|x l]; simpl; [lra|].
  inversion Hl as [|? ? [Hx1 Hx2] Hl']; subst.
  assert (row_max x l <= hi).
  { apply row_max_le; [exact Hx2|].
    eapply Forall_impl; [|exact Hl']. simpl. intros ? [_ ?]. assumption. }
  assert (lo <= row_min x l).
  { apply row_min_ge; [exact Hx1|].
    eapply Forall_impl; [|exact Hl']. simpl. intros ? [? _]. assumption. }
  lra.
Qed.

Lemma swing_spread (l : list R) (x y : R) :
  In x l -> In y l -> x - y <= swing l.
Proof.
  intros Hx Hy. destruct l as [|h l]; [contradiction|]. simpl.
  assert (x <= row_max h l).
  { destruct Hx as [->|Hx]; [apply row_max_first | now apply row_max_In]. }
  assert (row_min h l <= y).
  { destruct Hy as [->|Hy]; [apply row_min_first | now apply row_min_In]. }
  lra.
Qed.

(** ** The cells of the generated field *)

Lemma positive_quotient (k P : R) : 0 < k * P -> 0 < PI / (k * P).
Proof.
  intros H. apply Rdiv_lt_0_compat; [apply PI_RGT_0 | exact H].
Qed.

Lemma soil_temperature_cells (tp dp : list R) (a m k P : R) :
  0 < k * P ->
  soil_temperature tp dp a m k P
  = inr (map (fun d => map (fun t => Fin (soil_temperature_at a m k P d t)) tp)
             dp).
Proof.
  intros H.
  unfold soil_temperature, decay_factor, phase_lag, py_truediv.
  destruct (Req_dec_T (k * P) 0) as [E|_]; [lra|].
  simpl. unfold ret. f_equal.
  unfold np_sqrt.
  destruct (Rlt_dec (PI / (k * P)) 0) as [N|_];
    [pose proof (positive_quotient k P H); lra|].
  unfold z, time_grid, depth_grid, meshgrid, amap, amap2. simpl.
  rewrite !map_map.
  rewrite map2_map, map_map, map2_map, map_map.
  apply map_ext. intros d.
  rewrite !map_map.
  rewrite map2_map, map_map, map2_map, map_map.
  apply map_ext. intros t. reflexivity.
Qed.

Lemma phase_lag_cells (tp dp : list R) (k P : R) :
  0 < k * P ->
  phase_lag tp dp k P
  = inr (map (fun d => map (fun _ : R => Fin (phase_lag_at k P (- d))) tp)
             dp).
Proof.
  intros H. unfold phase_lag, py_truediv.
  destruct (Req_dec_T (k * P) 0) as [E|_]; [lra|].
  simpl. unfold ret. f_equal.
  unfold np_sqrt.
  destruct (Rlt_dec (PI / (k * P)) 0) as [N|_];
    [pose proof (positive_quotient k P H); lra|].
  unfold z, depth_grid, meshgrid, amap. simpl.
  rewrite !map_map. apply map_ext. intros d.
  rewrite !map_map. apply map_ext. intros t. reflexivity.
Qed.

Lemma soil_temperature_nan (tp dp : list R) (a m k P : R) :
  k * P < 0 ->
  soil_temperature tp dp a m k P
  = inr (map (fun _ => map (fun _ => NaN) tp) dp).
Proof.
  intros H.
  unfold soil_temperature, decay_factor, phase_lag, py_truediv.
  destruct (Req_dec_T (k * P) 0) as [E|_]; [lra|].
  simpl. unfold ret. f_equal.
  unfold np_sqrt.
  destruct (Rlt_dec (PI / (k * P)) 0) as [_|N].
  - unfold z, time_grid, depth_grid, meshgrid, amap, amap2. simpl.
    rewrite !map_map.
    rewrite map2_map, map_map, map2_map, map_map.
    apply map_ext. intros d.
    rewrite !map_map.
    rewrite map2_map, map_map, map2_map, map_map.
    apply map_ext. intros t. reflexivity.
  - exfalso. apply N.
    pose proof PI_RGT_0 as Hpi.
    assert (Hi : / (k * P) < 0) by (apply Rinv_lt_0_compat; exact H).
    unfold Rdiv. nra.
Qed.

Lemma soil_temperature_zero_division (tp dp : list R) (a m k P : R) :
  k * P = 0 ->
  soil_temperature tp dp a m k P = inl ZeroDivisionError.
Proof.
  intros H.
  unfold soil_temperature, decay_factor, phase_lag, py_truediv.
  destruct (Req_dec_T (k * P) 0) as [_|N]; [reflexivity | contradiction].
Qed.

Lemma surface_temperature_cells (tp dp : list R) (a m : R) :
  surface_temperature tp dp a m
  = map (fun _ => map (fun t => Fin (surface_temperature_at a m t)) tp) dp.
Proof.
  unfold surface_temperature, time_grid, meshgrid, amap. simpl.
  rewrite map_map. apply map_ext. intros _.
  rewrite map_map. reflexivity.
Qed.

Lemma generateField_cells (tp dp : list R) (p : ThermalParameters) :
  0 < diffusivity p * period p ->
  generateField tp dp p
  = inr (map (fun d =>
                map (fun t =>
                       Fin (soil_temperature_at (amplitude p)
                              (meanTemperature p) (diffusivity p) (period p)
                              d t)) tp) dp).
Proof.
  intros H. unfold generateField. now apply soil_temperature_cells.
Qed.

Lemma row_swing_cells (f : R -> R -> R) (tp dp : list R) (i : nat) (d : R) :
  nth_error dp i = Some d ->
  row_swing (map (fun d' => map (fun t => Fin (f d' t)) tp) dp) i
  = Some (swing (map (f d) tp)).
Proof.
  intros Hd. unfold row_swing.
  rewrite nth_error_map, Hd. simpl.
  now rewrite finite_map_Fin.
Qed.

(** ** Angles *)

Lemma sin_full_turn (x : R) : sin (x + 2 * PI) = sin x.
Proof.
  replace (x + 2 * PI) with (x + PI + PI) by ring.
  rewrite !neg_sin. ring.
Qed.

Lemma sin_quarter_turn : sin (PI * (14 - 8) / 12) = 1.
Proof.
  replace (PI * (14 - 8) / 12) with (PI / 2) by lra.
  apply sin_PI2.
Qed.

Lemma sin_minus_quarter_turn : sin (PI * (2 - 8) / 12) = -1.
Proof.
  replace (PI * (2 - 8) / 12) with (- (PI / 2)) by lra.
  rewrite sin_neg, sin_PI2. reflexivity.
Qed.

Lemma sin_three_quarter_turn : sin (PI * (26 - 8) / 12) = -1.
Proof.
  replace (PI * (26 - 8) / 12) with (3 * (PI / 2)) by lra.
  apply sin_3PI2.
Qed.

Lemma sin_five_quarter_turn : sin (PI * (38 - 8) / 12) = 1.
Proof.
  replace (PI * (38 - 8) / 12) with (PI / 2 + 2 * PI) by lra.
  rewrite sin_full_turn. apply sin_PI2.
Qed.

Lemma sin_turns_nat (x : R) (n : nat) : sin (x + 2 * PI * INR n) = sin x.
Proof.
  replace (x + 2 * PI * INR n) with (x + 2 * INR n * PI) by ring.
  apply sin_period.
Qed.

Lemma sin_turns (x : R) (n : Z) : sin (x + 2 * PI * IZR n) = sin x.
Proof.
  destruct (Z_le_gt_dec 0 n) as [Hn|Hn].
  - rewrite <- (Z2Nat.id n Hn), <- INR_IZR_INZ. apply sin_turns_nat.
  - rewrite <- (sin_turns_nat (x + 2 * PI * IZR n) (Z.to_nat (- n))).
    rewrite INR_IZR_INZ, Z2Nat.id by lia.
    rewrite opp_IZR. f_equal. ring.
Qed.

Lemma sin_is_1 (x : R) :
  sin x = 1 -> exists n : Z, x = PI / 2 + 2 * PI * IZR n.
Proof.
  intros Hs.
  assert (Hc : cos x = 0).
  { pose proof (sin2_cos2 x) as H. rewrite Hs in H.
    unfold Rsqr in H. nra. }
  destruct (cos_eq_0_0 x Hc) as [j Hj].
  destruct (Z.Even_or_Odd j) as [[n Hn]|[n Hn]].
  - exists n. rewrite Hj, Hn, mult_IZR. lra.
  - exfalso.
    assert (E : x = 3 * (PI / 2) + 2 * PI * IZR n).
    { rewrite Hj, Hn, plus_IZR, mult_IZR. lra. }
    rewrite E, sin_turns, sin_3PI2 in Hs. lra.
Qed.

Lemma PI_above_3 : 3 < PI.
Proof. pose proof PI2_3_2. lra. Qed.

(** ** The formula at one cell *)

Section Formula.

Variables a m k P : R.

Lemma decay_factor_at_0 : decay_factor_at k P 0 = 1.
Proof.
  unfold decay_factor_at.
  replace (- 0 * sqrt (PI / (k * P))) with 0 by ring.
  apply exp_0.
Qed.

Lemma phase_lag_at_0 : phase_lag_at k P 0 = 0.
Proof. unfold phase_lag_at. ring. Qed.

Lemma soil_temperature_at_surface (t : R) :
  soil_temperature_at a m k P 0 t = surface_temperature_at a m t.
Proof.
  unfold soil_temperature_at, surface_temperature_at.
  replace (- 0) with 0 by ring.
  rewrite decay_factor_at_0, phase_lag_at_0.
  replace (PI * (t - 8) / 12 + 0) with (PI * (t - 8) / 12) by ring.
  ring.
Qed.

Lemma decay_factor_at_pos (zz : R) : 0 < decay_factor_at k P zz.
Proof. apply exp_pos. Qed.

Lemma decay_factor_at_le_1 (zz : R) : 0 <= zz -> decay_factor_at k P zz <= 1.
Proof.
  intros Hz. unfold decay_factor_at.
  rewrite <- exp_0.
  pose proof (sqrt_pos (PI / (k * P))) as Hs.
  destruct (Req_dec (- zz * sqrt (PI / (k * P))) 0) as [E|N].
  - rewrite E. apply Rle_refl.
  - left. apply exp_increasing. nra.
Qed.

End Formula.

Lemma soil_temperature_at_bounds (a m k P d t : R) :
  0 <= a ->
  d <= 0 ->
  m - a <= soil_temperature_at a m k P d t <= m + a.
Proof.
  intros Ha Hd. unfold soil_temperature_at.
  pose proof (decay_factor_at_pos k P (- d)) as H0.
  pose proof (decay_factor_at_le_1 k P (- d)) as H1.
  assert (Hz : 0 <= - d) by lra. specialize (H1 Hz).
  pose proof (SIN_bound (PI * (t - 8) / 12 + phase_lag_at k P (- d))) as Hs.
  set (s := sin _) in *. set (e := decay_factor_at k P (- d)) in *.
  assert (0 <= a * e <= a) by nra.
  nra.
Qed.

(** The temperature at a depth stays within the damped amplitude. *)
Lemma soil_temperature_at_envelope (a m k P d t : R) :
  0 <= a ->
  m - a * decay_factor_at k P (- d)
  <= soil_temperature_at a m k P d t
  <= m + a * decay_factor_at k P (- d).
Proof.
  intros Ha. unfold soil_temperature_at.
  pose proof (decay_factor_at_pos k P (- d)) as H0.
  pose proof (SIN_bound (PI * (t - 8) / 12 + phase_lag_at k P (- d))) as Hs.
  set (s := sin _) in *. set (e := decay_factor_at k P (- d)) in *.
  assert (0 <= a * e) by nra.
  nra.
Qed.

Lemma row_swing_envelope (a m k P d : R) (tp : list R) :
  0 <= a ->
  swing (map (soil_temperature_at a m k P d) tp)
  <= 2 * a * decay_factor_at k P (- d).
Proof.
  intros Ha.
  pose proof (decay_factor_at_pos k P (- d)) as H0.
  replace (2 * a * decay_factor_at k P (- d))
    with ((m + a * decay_factor_at k P (- d))
          - (m - a * decay_factor_at k P (- d))) by ring.
  apply swing_between; [nra|].
  apply Forall_forall. intros y Hy.
  apply in_map_iff in Hy. destruct Hy as (t & <- & _).
  now apply soil_temperature_at_envelope.
Qed.

Lemma soil_temperature_at_day (a m k P d t : R) :
  soil_temperature_at a m k P d (t + 24) = soil_temperature_at a m k P d t.
Proof.
  unfold soil_temperature_at.
  replace (PI * (t + 24 - 8) / 12 + phase_lag_at k P (- d))
    with (PI * (t - 8) / 12 + phase_lag_at k P (- d) + 2 * PI) by lra.
  now rewrite sin_full_turn.
Qed.

Lemma soil_temperature_at_half_day (a m k P d t : R) :
  soil_temperature_at a m k P d (t + 12) + soil_temperature_at a m k P d t
  = 2 * m.
Proof.
  unfold soil_temperature_at.
  replace (PI * (t + 12 - 8) / 12 + phase_lag_at k P (- d))
    with (PI * (t - 8) / 12 + phase_lag_at k P (- d) + PI) by lra.
  rewrite neg_sin. ring.
Qed.

Lemma forcing_literals (p : ThermalParameters) (t : R) :
  period p = 24 ->
  phaseOffset p = 8 ->
  forcing p t
  = surface_temperature_at (amplitude p) (meanTemperature p) t.
Proof.
  intros HP Ho. unfold forcing, surface_temperature_at.
  rewrite HP, Ho. replace (24 / 2) with 12 by lra. reflexivity.
Qed.

(** ** Damping and lag as functions of depth *)

Section Depth_dependence.

Variables a m k P : R.
Hypothesis positive_product : 0 < k * P.

Lemma damping_rate_pos : 0 < sqrt (PI / (k * P)).
Proof. apply sqrt_lt_R0. now apply positive_quotient. Qed.

Lemma decay_factor_at_decreasing (z1 z2 : R) :
  z1 < z2 -> decay_factor_at k P z2 < decay_factor_at k P z1.
Proof.
  intros Hz. unfold decay_factor_at. apply exp_increasing.
  pose proof damping_rate_pos. nra.
Qed.

Lemma phase_lag_at_decreasing (z1 z2 : R) :
  z1 < z2 -> phase_lag_at k P z2 < phase_lag_at k P z1.
Proof.
  intros Hz. unfold phase_lag_at. pose proof damping_rate_pos. nra.
Qed.

Lemma phase_lag_at_nonpos (zz : R) : 0 <= zz -> phase_lag_at k P zz <= 0.
Proof.
  intros Hz. unfold phase_lag_at. pose proof damping_rate_pos. nra.
Qed.

Lemma peak_time_increasing (z1 z2 : R) :
  z1 < z2 -> peak_time k P z1 < peak_time k P z2.
Proof.
  intros Hz. unfold peak_time.
  pose proof damping_rate_pos as Hs. pose proof PI_RGT_0 as Hpi.
  assert (H : z1 * sqrt (PI / (k * P)) < z2 * sqrt (PI / (k * P))) by nra.
  assert (Hi : 0 < / PI) by (apply Rinv_0_lt_compat; lra).
  unfold Rdiv. nra.
Qed.

End Depth_dependence.

Lemma peak_time_0 (k P : R) : peak_time k P 0 = 14.
Proof. unfold peak_time. unfold Rdiv. ring. Qed.

Lemma peak_time_delay (k P zz : R) :
  peak_time k P zz - peak_time k P 0
  = 12 * (- phase_lag_at k P zz) / PI.
Proof.
  unfold peak_time, phase_lag_at. pose proof PI_neq0. field. assumption.
Qed.

Lemma peak_time_angle (k P zz : R) :
  PI * (peak_time k P zz - 8) / 12 + phase_lag_at k P zz = PI / 2.
Proof.
  unfold peak_time, phase_lag_at. pose proof PI_neq0. field. assumption.
Qed.

Lemma field_value_eq (p : ThermalParameters) (zz t : R) :
  field_value p zz t
  = meanTemperature p
    + amplitude p * decay_factor_at (diffusivity p) (period p) zz
      * sin (PI * (t - 8) / 12 + phase_lag_at (diffusivity p) (period p) zz).
Proof.
  unfold field_value, soil_temperature_at.
  now rewrite Ropp_involutive.
Qed.

Lemma field_value_peak (p : ThermalParameters) (zz : R) :
  field_value p zz (peak_time (diffusivity p) (period p) zz)
  = meanTemperature p
    + amplitude p * decay_factor_at (diffusivity p) (period p) zz.
Proof.
  rewrite field_value_eq, peak_time_angle, sin_PI2. ring.
Qed.

Lemma field_value_trough (p : ThermalParameters) (zz : R) :
  field_value p zz (peak_time (diffusivity p) (period p) zz + 12)
  = meanTemperature p
    - amplitude p * decay_factor_at (diffusivity p) (period p) zz.
Proof.
  pose proof (soil_temperature_at_half_day (amplitude p) (meanTemperature p)
                (diffusivity p) (period p) (- zz)
                (peak_time (diffusivity p) (period p) zz)) as H.
  fold (field_value p zz (peak_time (diffusivity p) (period p) zz + 12)) in H.
  fold (field_value p zz (peak_time (diffusivity p) (period p) zz)) in H.
  rewrite field_value_peak in H. lra.
Qed.

Lemma field_value_envelope (p : ThermalParameters) (zz t : R) :
  0 <= amplitude p ->
  meanTemperature p
  - amplitude p * decay_factor_at (diffusivity p) (period p) zz
  <= field_value p zz t
  <= meanTemperature p
     + amplitude p * decay_factor_at (diffusivity p) (period p) zz.
Proof.
  intros Ha.
  pose proof (soil_temperature_at_envelope (amplitude p) (meanTemperature p)
                (diffusivity p) (period p) (- zz) t Ha) as H.
  rewrite Ropp_involutive in H. exact H.
Qed.

Lemma field_value_day_turns (p : ThermalParameters) (zz t : R) (n : Z) :
  field_value p zz (t + 24 * IZR n) = field_value p zz t.
Proof.
  rewrite !field_value_eq.
  replace (PI * (t + 24 * IZR n - 8) / 12
           + phase_lag_at (diffusivity p) (period p) zz)
    with (PI * (t - 8) / 12 + phase_lag_at (diffusivity p) (period p) zz
          + 2 * PI * IZR n) by lra.
  now rewrite sin_turns.
Qed.

Lemma peak_time_is_maximum (p : ThermalParameters) (zz : R) :
  0 <= amplitude p ->
  time_of_maximum p zz (peak_time (diffusivity p) (period p) zz).
Proof.
  intros Ha t. rewrite field_value_peak.
  now apply field_value_envelope.
Qed.

Lemma trough_time_is_minimum (p : ThermalParameters) (zz : R) :
  0 <= amplitude p ->
  time_of_minimum p zz (peak_time (diffusivity p) (period p) zz + 12).
Proof.
  intros Ha t. rewrite field_value_trough.
  now apply field_value_envelope.
Qed.

Lemma maximum_times (p : ThermalParameters) (zz t : R) :
  0 < amplitude p ->
  time_of_maximum p zz t ->
  exists n : Z, t = peak_time (diffusivity p) (period p) zz + 24 * IZR n.
Proof.
  intros Ha Hmax.
  pose proof (Hmax (peak_time (diffusivity p) (period p) zz)) as H.
  rewrite field_value_peak, field_value_eq in H.
  pose proof (decay_factor_at_pos (diffusivity p) (period p) zz) as Hd.
  pose proof (SIN_bound (PI * (t - 8) / 12
                         + phase_lag_at (diffusivity p) (period p) zz))
    as Hs.
  assert (Hs1 : sin (PI * (t - 8) / 12
                     + phase_lag_at (diffusivity p) (period p) zz) = 1).
  { set (s := sin _) in *.
    set (e := decay_factor_at (diffusivity p) (period p) zz) in *.
    assert (0 < amplitude p * e) by nra. nra. }
  destruct (sin_is_1 _ Hs1) as [n Hn].
  exists n.
  pose proof (peak_time_angle (diffusivity p) (period p) zz) as Hp.
  pose proof PI_RGT_0 as Hpi.
  assert (E : PI * (t - (peak_time (diffusivity p) (period p) zz
                         + 24 * IZR n)) = 0) by lra.
  apply Rmult_integral in E. destruct E as [E|E]; lra.
Qed.

Lemma swing_over_time_envelope (p : ThermalParameters) (zz : R) :
  0 <= amplitude p ->
  swing_over_time p zz
    (2 * amplitude p * decay_factor_at (diffusivity p) (period p) zz).
Proof.
  intros Ha.
  exists (peak_time (diffusivity p) (period p) zz),
         (peak_time (diffusivity p) (period p) zz + 12).
  split; [now apply peak_time_is_maximum|].
  split; [now apply trough_time_is_minimum|].
  rewrite field_value_peak, field_value_trough. ring.
Qed.

Lemma swing_over_time_unique (p : ThermalParameters) (zz s : R) :
  0 <= amplitude p ->
  swing_over_time p zz s ->
  s = 2 * amplitude p * decay_factor_at (diffusivity p) (period p) zz.
Proof.
  intros Ha (tmax & tmin & Hmax & Hmin & ->).
  pose proof (Hmax (peak_time (diffusivity p) (period p) zz)) as H1.
  pose proof (Hmin (peak_time (diffusivity p) (period p) zz + 12)) as H2.
  rewrite field_value_peak in H1. rewrite field_value_trough in H2.
  pose proof (field_value_envelope p zz tmax Ha).
  pose proof (field_value_envelope p zz tmin Ha).
  lra.
Qed.

(** ** The scripts' numbers *)

Lemma damping_rate_lower : 1 / 12 <= sqrt (PI / (18 * 24)).
Proof.
  assert (E : sqrt ((1 / 12) * (1 / 12)) = 1 / 12)
    by (apply sqrt_square; lra).
  rewrite <- E at 1. apply sqrt_le_1_alt.
  pose proof PI_above_3. lra.
Qed.

Lemma damping_rate_upper : sqrt (PI / (18 * 24)) < 3 / 10.
Proof.
  assert (E : sqrt ((3 / 10) * (3 / 10)) = 3 / 10)
    by (apply sqrt_square; lra).
  rewrite <- E. apply sqrt_lt_1_alt.
  pose proof PI_RGT_0. pose proof PI_4. lra.
Qed.

Lemma exp_25_6 : 10 < exp (25 / 6).
Proof.
  replace (25 / 6) with (25 / 18 + (25 / 18 + 25 / 18)) by lra.
  rewrite !exp_plus.
  assert (H : 1 + 25 / 18 < exp (25 / 18)) by (apply exp_ineq1; lra).
  set (e := exp (25 / 18)) in *.
  assert (H2 : (43 / 18) * (43 / 18) < e * e) by nra.
  nra.
Qed.

Lemma decay_factor_at_50 : decay_factor_at 18 24 50 < 1 / 10.
Proof.
  unfold decay_factor_at.
  pose proof damping_rate_lower as Hs.
  apply Rle_lt_trans with (exp (- (25 / 6))).
  - destruct (Req_dec (- (50) * sqrt (PI / (18 * 24))) (- (25 / 6)))
      as [E|N].
    + rewrite E. apply Rle_refl.
    + left. apply exp_increasing. lra.
  - rewrite exp_Ropp.
    pose proof exp_25_6 as H.
    assert (Hi : / exp (25 / 6) < / 10)
      by (apply Rinv_lt_contravar; lra).
    lra.
Qed.

Lemma script_diffusivity : Depth.k = 18 /\ Profile.k = 18.
Proof. unfold Depth.k, Profile.k. split; lra. Qed.

(** Both scripts run the generator at [script_params]. *)
Lemma Depth_soil_temperature :
  Depth.soil_temperature
  = generateField Depth.time_points Depth.depth_points script_params.
Proof.
  unfold Depth.soil_temperature, generateField. simpl.
  unfold Depth.surface_temp_amplitude, Depth.surface_temp_mean, Depth.P.
  now rewrite (proj1 script_diffusivity).
Qed.

Lemma Profile_soil_temperature :
  Profile.soil_temperature
  = generateField Profile.time_points Profile.depth_points script_params.
Proof.
  unfold Profile.soil_temperature, generateField. simpl.
  unfold Profile.surface_temp_amplitude, Profile.surface_temp_mean, Profile.P.
  now rewrite (proj2 script_diffusivity).
Qed.

Lemma Depth_shape :
  length Depth.time_points = 288%nat /\ length Depth.depth_points = 51%nat.
Proof.
  unfold Depth.time_points, Depth.depth_points, arange, linspace.
  rewrite !length_map, !length_seq. split; reflexivity.
Qed.

Lemma Profile_shape :
  length Profile.time_points = 96%nat
  /\ length Profile.depth_points = 50%nat.
Proof.
  unfold Profile.time_points, Profile.depth_points, arange, linspace.
  rewrite !length_map, !length_seq. split; reflexivity.
Qed.

Lemma Depth_time_points_nth (i : nat) :
  (i < 288)%nat ->
  nth_error Depth.time_points i = Some (INR i / 4).
Proof.
  intros Hi. unfold Depth.time_points.
  rewrite arange_nth by exact Hi. now rewrite quarter_hour.
Qed.

Lemma Depth_hour_14 : nth_error Depth.time_points 56 = Some 14.
Proof.
  rewrite Depth_time_points_nth by lia. f_equal.
  replace (INR 56) with 56 by (rewrite INR_IZR_INZ; reflexivity). lra.
Qed.

Lemma Depth_hour_26 : nth_error Depth.time_points 104 = Some 26.
Proof.
  rewrite Depth_time_points_nth by lia. f_equal.
  replace (INR 104) with 104 by (rewrite INR_IZR_INZ; reflexivity). lra.
Qed.

Lemma Depth_hour_38 : nth_error Depth.time_points 152 = Some 38.
Proof.
  rewrite Depth_time_points_nth by lia. f_equal.
  replace (INR 152) with 152 by (rewrite INR_IZR_INZ; reflexivity). lra.
Qed.

Lemma Profile_surface_first : nth_error Profile.depth_points 0 = Some 0.
Proof.
  unfold Profile.depth_points, linspace. simpl. f_equal.
  unfold Rdiv. ring.
Qed.

Lemma Depth_depth_points_nonpositive :
  Forall (fun d => d <= 0) Depth.depth_points.
Proof. apply linspace_down. lra. Qed.

(** ** C1: the field is the closed form *)

(** C1 (as amended).  The scripts write the forcing term with the literals
    [8] and [12]: for every time domain, depth domain, mean temperature,
    amplitude and positive diffusivity, and with period 24 and phase offset
    8, the generated field holds at every cell (depth [d], time [t]) the
    specification's closed form [temperature] at depth magnitude [- d] and
    time [t]. *)
Theorem generated_field_is_closed_form (tp dp : list R)
  (p : ThermalParameters) :
  0 < diffusivity p ->
  period p = 24 ->
  phaseOffset p = 8 ->
  generateField tp dp p
  = inr (map (fun d => map (fun t => Fin (temperature p (- d) t)) tp) dp).
Proof.
  intros Hk HP Ho.
  rewrite generateField_cells by (rewrite HP; lra).
  f_equal. apply map_ext. intros d. apply map_ext. intros t. f_equal.
  unfold temperature, soil_temperature_at, decay, phaseLag,
    decay_factor_at, phase_lag_at.
  rewrite HP, Ho.
  replace (24 / 2) with 12 by lra.
  reflexivity.
Qed.

Lemma generated_field_is_closed_form_witness :
  0 < diffusivity script_params
  /\ period script_params = 24
  /\ phaseOffset script_params = 8
  /\ Depth.soil_temperature
     = inr (map (fun d =>
                   map (fun t => Fin (temperature script_params (- d) t))
                       Depth.time_points)
                Depth.depth_points).
Proof.
  split; [simpl; lra|].
  split; [reflexivity|].
  split; [reflexivity|].
  rewrite Depth_soil_temperature.
  apply (generated_field_is_closed_form Depth.time_points Depth.depth_points
           script_params); simpl; [lra | reflexivity | reflexivity].
Defined.

(** C1 as stated fails: the scripts have no phase-offset input, so with
    phase offset 2 the field still peaks at hour 14, where the closed form
    of the claim gives the mean.  The same happens with [P] bound to 12 and
    phase offset 8, since the forcing term divides by the literal [12]. *)
Lemma closed_form_counterexample :
  generateField [14] [0] (mkParams 25 10 18 24 2) = inr [[Fin 35]]
  /\ temperature (mkParams 25 10 18 24 2) (- 0) 14 = 25
  /\ generateField [14] [0] (mkParams 25 10 18 24 2)
     <> inr (map (fun d =>
                    map (fun t =>
                           Fin (temperature (mkParams 25 10 18 24 2) (- d) t))
                        [14])
                 [0])
  /\ generateField [14] [0] (mkParams 25 10 18 12 8) = inr [[Fin 35]]
  /\ temperature (mkParams 25 10 18 12 8) (- 0) 14 = 25.
Proof.
  assert (F' : generateField [14] [0] (mkParams 25 10 18 12 8)
               = inr [[Fin 35]]).
  { rewrite generateField_cells by (simpl; lra). simpl.
    rewrite soil_temperature_at_surface. unfold surface_temperature_at.
    rewrite sin_quarter_turn. do 4 f_equal. lra. }
  assert (T' : temperature (mkParams 25 10 18 12 8) (- 0) 14 = 25).
  { unfold temperature, decay, phaseLag. simpl.
    replace (PI * (14 - 8) / (12 / 2) + - - 0 * sqrt (PI / (18 * 12)))
      with PI by lra.
    rewrite sin_PI. lra. }
  assert (F : generateField [14] [0] (mkParams 25 10 18 24 2)
              = inr [[Fin 35]]).
  { rewrite generateField_cells by (simpl; lra). simpl.
    rewrite soil_temperature_at_surface. unfold surface_temperature_at.
    rewrite sin_quarter_turn. do 4 f_equal. lra. }
  assert (T : temperature (mkParams 25 10 18 24 2) (- 0) 14 = 25).
  { unfold temperature, decay, phaseLag. simpl.
    replace (PI * (14 - 2) / (24 / 2) + - - 0 * sqrt (PI / (18 * 24)))
      with PI by lra.
    rewrite sin_PI. lra. }
  split; [exact F|]. split; [exact T|].
  split; [|split; [exact F' | exact T']].
  rewrite F. simpl. rewrite T. intros E.
  assert (E' : 35 = 25) by congruence. lra.
Qed.

(** ** C2: no input is checked *)

(** C2 (as amended).  The generator checks nothing.  For every time domain,
    depth domain and parameter record, valid or not, its outcome depends
    only on the sign of [diffusivity * period]: when that product is
    positive it returns the whole field of the formula, computed from the
    inputs as they are (a negative amplitude, an empty or unordered domain
    or a depth domain that does not start at 0 included); when it is zero
    Python's [ZeroDivisionError] is raised; when it is negative every cell
    is [NaN].  [InvalidDomainError] and [InvalidParameterError] are never
    raised. *)
Theorem generator_checks_nothing (tp dp : list R) (p : ThermalParameters) :
  generateField tp dp p = unchecked_outcome tp dp p
  /\ generateField tp dp p <> inl InvalidDomainError
  /\ generateField tp dp p <> inl InvalidParameterError.
Proof.
  assert (E : generateField tp dp p = unchecked_outcome tp dp p).
  { unfold unchecked_outcome.
    destruct (Req_dec_T (diffusivity p * period p) 0) as [Z|NZ].
    - now apply soil_temperature_zero_division.
    - destruct (Rlt_dec (diffusivity p * period p) 0) as [N|NN].
      + now apply soil_temperature_nan.
      + rewrite generateField_cells by lra.
        f_equal. apply map_ext. intros d. apply map_ext. intros t.
        unfold field_value. now rewrite Ropp_involutive. }
  split; [exact E|].
  rewrite E. unfold unchecked_outcome.
  destruct (Req_dec_T (diffusivity p * period p) 0);
    [split; discriminate|].
  destruct (Rlt_dec (diffusivity p * period p) 0); split; discriminate.
Qed.

(** C2 as stated fails: a negative amplitude, an empty time domain and a
    depth domain that starts below the surface all violate the invariants,
    and the generator returns a field for each. *)
Lemma validation_counterexample :
  ~ valid_params (mkParams 25 (-10) 18 24 8)
  /\ generateField [14] [0] (mkParams 25 (-10) 18 24 8) = inr [[Fin 15]]
  /\ ~ valid_time_domain []
  /\ generateField [] [0] script_params = inr [[]]
  /\ ~ valid_depth_domain [-5]
  /\ exists v, generateField [14] [-5] script_params = inr [[Fin v]].
Proof.
  split; [unfold valid_params; simpl; lra|].
  split.
  { rewrite generateField_cells by (simpl; lra). simpl.
    rewrite soil_temperature_at_surface. unfold surface_temperature_at.
    rewrite sin_quarter_turn. do 4 f_equal. lra. }
  split; [intros [H _]; now apply H|].
  split; [rewrite generateField_cells by (simpl; lra); reflexivity|].
  split.
  { intros [H _]. simpl in H. injection H as H. lra. }
  eexists. rewrite generateField_cells by (simpl; lra). reflexivity.
Qed.

(** ** C3: the surface row *)

Lemma surface_row_cells (tp dp : list R) (p : ThermalParameters) (i : nat) :
  0 < diffusivity p * period p ->
  nth_error dp i = Some 0 ->
  exists field,
    generateField tp dp p = inr field
    /\ nth_error field i
       = Some (map (fun t =>
                      Fin (surface_temperature_at (amplitude p)
                             (meanTemperature p) t)) tp)
    /\ nth_error field i
       = nth_error
           (surface_temperature tp dp (amplitude p) (meanTemperature p)) i.
Proof.
  intros H Hd. eexists. split; [now apply generateField_cells|].
  assert (E : nth_error
                (map (fun d =>
                        map (fun t =>
                               Fin (soil_temperature_at (amplitude p)
                                      (meanTemperature p) (diffusivity p)
                                      (period p) d t)) tp) dp) i
              = Some (map (fun t =>
                             Fin (surface_temperature_at (amplitude p)
                                    (meanTemperature p) t)) tp)).
  { rewrite nth_error_map, Hd. simpl. f_equal.
    apply map_ext. intros t. now rewrite soil_temperature_at_surface. }
  split; [exact E|].
  rewrite E, surface_temperature_cells, nth_error_map, Hd. reflexivity.
Qed.

(** C3 (as amended).  For every valid input with period 24 and phase offset
    8 (the values the literals [12] and [8] of the scripts stand for), every
    row of the field whose depth is 0 holds at each time [t] the forcing
    sinusoid [meanTemperature + amplitude * sin (PI * (t - 8) / 12)], and is
    the row of the script's own [surface_temperature] array; the depth
    domain [[0]] gives a field of that single row.  The surface row is
    computed by the general formula: no definition above inspects the
    depth. *)
Theorem surface_row_is_forcing (tp dp : list R) (p : ThermalParameters)
  (i : nat) :
  valid_params p ->
  period p = 24 ->
  phaseOffset p = 8 ->
  nth_error dp i = Some 0 ->
  (exists field,
      generateField tp dp p = inr field
      /\ nth_error field i = Some (map (fun t => Fin (forcing p t)) tp)
      /\ nth_error field i
         = nth_error
             (surface_temperature tp dp (amplitude p) (meanTemperature p))
             i)
  /\ generateField tp [0] p = inr [map (fun t => Fin (forcing p t)) tp].
Proof.
  intros (_ & Hk & HP') HP Ho Hd.
  assert (H : 0 < diffusivity p * period p) by nra.
  split.
  - destruct (surface_row_cells tp dp p i H Hd) as (field & E & Hrow & Hs).
    exists field. split; [exact E|]. split; [|exact Hs].
    rewrite Hrow. f_equal.
    apply map_ext. intros t. now rewrite forcing_literals.
  - rewrite generateField_cells by exact H. simpl. do 2 f_equal.
    apply map_ext. intros t.
    rewrite soil_temperature_at_surface. now rewrite forcing_literals.
Qed.

Lemma surface_row_is_forcing_witness :
  valid_params script_params
  /\ period script_params = 24
  /\ phaseOffset script_params = 8
  /\ nth_error Profile.depth_points 0 = Some 0
  /\ exists field,
      Profile.soil_temperature = inr field
      /\ nth_error field 0
         = Some (map (fun t => Fin (forcing script_params t))
                     Profile.time_points)
      /\ nth_error field 0 = nth_error Profile.surface_temperature 0.
Proof.
  assert (V : valid_params script_params)
    by (unfold valid_params; simpl; lra).
  split; [exact V|].
  split; [reflexivity|]. split; [reflexivity|].
  split; [exact Profile_surface_first|].
  rewrite Profile_soil_temperature.
  exact (proj1 (surface_row_is_forcing Profile.time_points
                  Profile.depth_points script_params 0 V eq_refl eq_refl
                  Profile_surface_first)).
Defined.

(** C3 as stated fails: with phase offset 2 the forcing sinusoid of the
    claim is at the mean at hour 14, while the surface row of the field is
    at its peak; likewise with [P] bound to 12 and phase offset 8. *)
Lemma surface_row_counterexample :
  valid_time_domain [14]
  /\ valid_depth_domain [0]
  /\ valid_params (mkParams 25 10 18 24 2)
  /\ generateField [14] [0] (mkParams 25 10 18 24 2) = inr [[Fin 35]]
  /\ forcing (mkParams 25 10 18 24 2) 14 = 25
  /\ generateField [14] [0] (mkParams 25 10 18 24 2)
     <> inr [map (fun t => Fin (forcing (mkParams 25 10 18 24 2) t)) [14]]
  /\ valid_params (mkParams 25 10 18 12 8)
  /\ generateField [14] [0] (mkParams 25 10 18 12 8) = inr [[Fin 35]]
  /\ forcing (mkParams 25 10 18 12 8) 14 = 25.
Proof.
  assert (F' : generateField [14] [0] (mkParams 25 10 18 12 8)
               = inr [[Fin 35]]).
  { rewrite generateField_cells by (simpl; lra). simpl.
    rewrite soil_temperature_at_surface. unfold surface_temperature_at.
    rewrite sin_quarter_turn. do 4 f_equal. lra. }
  assert (T' : forcing (mkParams 25 10 18 12 8) 14 = 25).
  { unfold forcing. simpl.
    replace (PI * (14 - 8) / (12 / 2)) with PI by lra.
    rewrite sin_PI. lra. }
  assert (F : generateField [14] [0] (mkParams 25 10 18 24 2)
              = inr [[Fin 35]]).
  { rewrite generateField_cells by (simpl; lra). simpl.
    rewrite soil_temperature_at_surface. unfold surface_temperature_at.
    rewrite sin_quarter_turn. do 4 f_equal. lra. }
  assert (T : forcing (mkParams 25 10 18 24 2) 14 = 25).
  { unfold forcing. simpl.
    replace (PI * (14 - 2) / (24 / 2)) with PI by lra.
    rewrite sin_PI. lra. }
  split; [split; [discriminate | repeat constructor]|].
  split; [split; [reflexivity | repeat constructor]|].
  split; [unfold valid_params; simpl; lra|].
  split; [exact F|]. split; [exact T|].
  split;
    [|split; [unfold valid_params; simpl; lra | split; [exact F' | exact T']]].
  rewrite F. simpl. rewrite T. intros E.
  assert (E' : 35 = 25) by congruence. lra.
Qed.

(** ** C4: every cell is a number between the two extremes *)

(** In exact arithmetic: for every valid input whose depths are at or below
    the surface, the generator returns a field with one row per depth and
    one cell per time; every cell is a real number (not [NaN], and no
    exception is raised) and lies in
    [[meanTemperature - amplitude, meanTemperature + amplitude]]. *)
Lemma field_cells_bounded (tp dp : list R) (p : ThermalParameters) :
  valid_params p ->
  Forall (fun d => d <= 0) dp ->
  exists field,
    generateField tp dp p = inr field
    /\ length field = length dp
    /\ forall i j : nat,
        (i < length dp)%nat ->
        (j < length tp)%nat ->
        exists v,
          cell field i j = Some (Fin v)
          /\ meanTemperature p - amplitude p <= v
             <= meanTemperature p + amplitude p.
Proof.
  intros (Ha & Hk & HP) Hd.
  eexists. split; [apply generateField_cells; nra|].
  split; [now rewrite length_map|].
  intros i j Hi Hj.
  destruct (nth_error dp i) as [d|] eqn:Ed;
    [|apply nth_error_None in Ed; lia].
  destruct (nth_error tp j) as [t|] eqn:Et;
    [|apply nth_error_None in Et; lia].
  eexists. split.
  - apply (cell_map_map _ _
             (fun d t => Fin (soil_temperature_at _ _ _ _ d t))
             dp tp i j d t Ed Et).
  - apply soil_temperature_at_bounds; [exact Ha|].
    rewrite Forall_forall in Hd. apply Hd.
    now apply nth_error_In with i.
Qed.

(** *** The range of binary64 *)

Lemma overflow_threshold_bounds :
  1e308 < Binary64.overflow_threshold < 2e308.
Proof. unfold Binary64.overflow_threshold. split; lra. Qed.

Lemma round_in_range (x : R) :
  Binary64.in_range x -> Binary64.round x = Binary64.Finite x.
Proof.
  intros [Hl Hu]. unfold Binary64.round.
  destruct (Rle_dec Binary64.overflow_threshold x) as [H|_]; [lra|].
  destruct (Rle_dec x (- Binary64.overflow_threshold)) as [H|_]; [lra|].
  reflexivity.
Qed.

Lemma round_overflow (x : R) :
  Binary64.overflow_threshold <= x ->
  Binary64.round x = Binary64.Infinity false.
Proof.
  intros H. unfold Binary64.round.
  destruct (Rle_dec Binary64.overflow_threshold x) as [_|N];
    [reflexivity | contradiction].
Qed.

Lemma in_range_between (lo hi x : R) :
  Binary64.in_range lo -> Binary64.in_range hi -> lo <= x <= hi ->
  Binary64.in_range x.
Proof. unfold Binary64.in_range. intros [? _] [_ ?] [? ?]. split; lra. Qed.

Lemma in_range_small (x : R) : -1 <= x <= 1 -> Binary64.in_range x.
Proof.
  intros H. pose proof overflow_threshold_bounds.
  unfold Binary64.in_range. lra.
Qed.

Lemma add_in_range (x y : R) :
  Binary64.in_range (x + y) ->
  Binary64.add (Binary64.Finite x) (Binary64.Finite y)
  = Binary64.Finite (x + y).
Proof. apply round_in_range. Qed.

Lemma sub_in_range (x y : R) :
  Binary64.in_range (x - y) ->
  Binary64.sub (Binary64.Finite x) (Binary64.Finite y)
  = Binary64.Finite (x - y).
Proof. apply round_in_range. Qed.

Lemma mul_in_range (x y : R) :
  Binary64.in_range (x * y) ->
  Binary64.mul (Binary64.Finite x) (Binary64.Finite y)
  = Binary64.Finite (x * y).
Proof. apply round_in_range. Qed.

Lemma div_in_range (x y : R) :
  y <> 0 ->
  Binary64.in_range (x / y) ->
  Binary64.div (Binary64.Finite x) (Binary64.Finite y)
  = Binary64.Finite (x / y).
Proof.
  intros Hy H. unfold Binary64.div.
  destruct (Req_dec_T y 0) as [E|_]; [contradiction|].
  now apply round_in_range.
Qed.

Lemma exp_in_range (x : R) :
  Binary64.in_range (exp x) ->
  Binary64.np_exp (Binary64.Finite x) = Binary64.Finite (exp x).
Proof. apply round_in_range. Qed.

Lemma sqrt_in_range (x : R) :
  0 <= x ->
  Binary64.np_sqrt (Binary64.Finite x) = Binary64.Finite (sqrt x).
Proof.
  intros H. unfold Binary64.np_sqrt.
  destruct (Rlt_dec x 0) as [N|_]; [lra | reflexivity].
Qed.

(** The square root of the scripts: [np.sqrt(np.pi / (k * P))]. *)
Lemma damping_rate_in_range (k P : R) :
  0 < k * P ->
  Binary64.in_range (k * P) ->
  Binary64.in_range (PI / (k * P)) ->
  Binary64.py_truediv (Binary64.Finite PI)
    (Binary64.mul (Binary64.Finite k) (Binary64.Finite P))
  = inr (Binary64.Finite (PI / (k * P))).
Proof.
  intros Hpos HkP Hq.
  rewrite mul_in_range by exact HkP.
  unfold Binary64.py_truediv.
  destruct (Req_dec_T (k * P) 0) as [E|N]; [lra|].
  now rewrite div_in_range.
Qed.

(** One cell: when no step overflows, the operations of binary64 give the
    number of the formula. *)
Lemma cell_in_range (a m k P d t : R) :
  0 <= a ->
  d <= 0 ->
  Binary64.in_range (m - a) ->
  Binary64.in_range (m + a) ->
  Binary64.in_range (d * sqrt (PI / (k * P))) ->
  Binary64.in_range (PI * (t - 8)) ->
  Binary64.in_range (PI * (t - 8) / 12 + d * sqrt (PI / (k * P))) ->
  Binary64.add (Binary64.Finite m)
    (Binary64.mul
       (Binary64.mul (Binary64.Finite a)
          (Binary64.np_exp
             (Binary64.mul (Binary64.neg (Binary64.neg (Binary64.Finite d)))
                (Binary64.Finite (sqrt (PI / (k * P)))))))
       (Binary64.np_sin
          (Binary64.add
             (Binary64.div
                (Binary64.mul (Binary64.Finite PI)
                   (Binary64.sub (Binary64.Finite t) (Binary64.Finite 8)))
                (Binary64.Finite 12))
             (Binary64.mul (Binary64.neg (Binary64.neg (Binary64.Finite d)))
                (Binary64.Finite (sqrt (PI / (k * P))))))))
  = Binary64.Finite (soil_temperature_at a m k P d t).
Proof.
  intros Ha Hd Hlo Hhi Hlag Hpt Hangle.
  pose proof PI_RGT_0 as Hpi. pose proof PI_4 as Hpi4.
  pose proof Hlo as [Hlo1 Hlo2]. pose proof Hhi as [Hhi1 Hhi2].
  assert (Hpi1 : 1 < PI) by (pose proof PI_above_3; lra).
  cbn [Binary64.neg].
  assert (Hlag' : Binary64.in_range (- - d * sqrt (PI / (k * P))))
    by (rewrite Ropp_involutive; exact Hlag).
  rewrite !(mul_in_range (- - d)) by exact Hlag'.
  pose proof (decay_factor_at_pos k P (- d)) as He0.
  assert (He1 : decay_factor_at k P (- d) <= 1)
    by (apply decay_factor_at_le_1; lra).
  unfold decay_factor_at in He0, He1.
  rewrite exp_in_range by (apply in_range_small; lra).
  set (e := exp (- - d * sqrt (PI / (k * P)))) in *.
  assert (Hae : 0 <= a * e <= a) by nra.
  rewrite mul_in_range
    by (unfold Binary64.in_range; split; lra).
  rewrite sub_in_range
    by (destruct Hpt as [H1 H2]; unfold Binary64.in_range; split; nra).
  rewrite mul_in_range by exact Hpt.
  rewrite div_in_range
    by (try lra; destruct Hpt as [H1 H2];
        unfold Binary64.in_range; split; lra).
  assert (Hangle' : Binary64.in_range
                      (PI * (t - 8) / 12 + - - d * sqrt (PI / (k * P))))
    by (rewrite Ropp_involutive; exact Hangle).
  rewrite add_in_range by exact Hangle'.
  cbn [Binary64.np_sin].
  pose proof (SIN_bound (PI * (t - 8) / 12 + - - d * sqrt (PI / (k * P))))
    as Hs.
  set (s := sin _) in *.
  assert (Haes : - a <= a * e * s <= a) by nra.
  rewrite mul_in_range
    by (unfold Binary64.in_range; split; lra).
  rewrite add_in_range
    by (unfold Binary64.in_range; split; lra).
  reflexivity.
Qed.

(** Where no step overflows, the run in binary64 returns the numbers of
    the exact run. *)
Lemma generateField_in_range (tp dp : list R) (p : ThermalParameters) :
  valid_params p ->
  Forall (fun d => d <= 0) dp ->
  Binary64.no_overflow tp dp p ->
  Binary64.generateField tp dp p
  = inr (map (fun d =>
                map (fun t =>
                       Binary64.Finite
                         (soil_temperature_at (amplitude p)
                            (meanTemperature p) (diffusivity p) (period p)
                            d t)) tp) dp).
Proof.
  intros (Ha & Hk & HP) Hd (HkP & Hq & Hlo & Hhi & Hlag & Hang).
  assert (Hpos : 0 < diffusivity p * period p) by nra.
  pose proof (positive_quotient _ _ Hpos) as Hq0.
  rewrite Forall_forall in Hd, Hlag, Hang.
  unfold Binary64.generateField, Binary64.soil_temperature,
    Binary64.decay_factor, Binary64.phase_lag.
  rewrite damping_rate_in_range by assumption.
  unfold ret. cbn [bind]. rewrite sqrt_in_range by lra.
  f_equal.
  unfold Binary64.z, Binary64.time_grid, Binary64.depth_grid,
    Binary64.meshgrid, Binary64.amap, Binary64.amap2.
  cbn [fst snd].
  rewrite !map_map.
  rewrite map2_map, map_map, map2_map, map_map.
  apply map_ext_in. intros d Hdin.
  rewrite !map_map.
  rewrite map2_map, map_map, map2_map, map_map.
  apply map_ext_in. intros t Htin.
  destruct (Hang t Htin) as [Hpt Hta].
  rewrite Forall_forall in Hta.
  apply cell_in_range; auto.
Qed.

Lemma binary64_cell_map_map (A B : Type) (f : A -> B -> Binary64.binary64)
  (dp : list A) (tp : list B) (i j : nat) (d : A) (t : B) :
  nth_error dp i = Some d ->
  nth_error tp j = Some t ->
  Binary64.cell (map (fun d' => map (f d') tp) dp) i j = Some (f d t).
Proof.
  intros Hd Ht. unfold Binary64.cell.
  rewrite nth_error_map, Hd. simpl.
  rewrite nth_error_map, Ht. reflexivity.
Qed.

Lemma linspace_between (stop : R) (num : nat) :
  stop <= 0 -> Forall (fun d => stop <= d <= 0) (linspace 0 stop num).
Proof.
  intros Hs. apply Forall_forall. intros x Hx.
  unfold linspace in Hx. apply in_map_iff in Hx.
  destruct Hx as (i & <- & Hi). apply in_seq in Hi.
  pose proof (pos_INR i) as Hpos.
  destruct (Nat.eqb_spec (S i) num) as [E|N].
  - destruct (Nat.ltb_spec 1 num) as [L|L]; [lra|].
    assert (i = 0)%nat as -> by lia. simpl. lra.
  - assert (Hd : 0 < INR (num - 1)) by (apply lt_0_INR; lia).
    assert (Hi' : INR i <= INR (num - 1)) by (apply le_INR; lia).
    assert (Hq : (stop - 0) / INR (num - 1) * INR (num - 1) = stop)
      by (field; lra).
    set (q := (stop - 0) / INR (num - 1)) in *.
    assert (Hq0 : q <= 0) by nra.
    split; nra.
Qed.

Lemma Depth_time_points_between :
  Forall (fun t => 0 <= t <= 72) Depth.time_points.
Proof.
  apply Forall_forall. intros t Hin.
  apply In_nth_error in Hin. destruct Hin as [i Hi].
  assert (Hlt : (i < 288)%nat).
  { rewrite <- (proj1 Depth_shape). apply nth_error_Some. congruence. }
  rewrite Depth_time_points_nth in Hi by exact Hlt.
  injection Hi as <-.
  pose proof (pos_INR i) as H0.
  assert (H1 : INR i <= INR 288) by (apply le_INR; lia).
  replace (INR 288) with 288 in H1 by (rewrite INR_IZR_INZ; reflexivity).
  lra.
Qed.

Lemma script_quotient_bounds : 0 < PI / (18 * 24) < 1.
Proof.
  pose proof PI_RGT_0 as Hpi. pose proof PI_4 as Hpi4.
  split; [apply Rdiv_lt_0_compat; lra|].
  apply Rmult_lt_reg_r with (18 * 24); [lra|].
  unfold Rdiv. rewrite Rmult_assoc, Rinv_l by lra. lra.
Qed.

Lemma Depth_no_overflow :
  Binary64.no_overflow Depth.time_points Depth.depth_points script_params.
Proof.
  pose proof overflow_threshold_bounds as Ht.
  pose proof PI_RGT_0 as Hpi. pose proof PI_4 as Hpi4.
  pose proof damping_rate_lower as Hr1. pose proof damping_rate_upper as Hr2.
  assert (Hd : Forall (fun d => -50 <= d <= 0) Depth.depth_points)
    by (apply linspace_between; lra).
  rewrite Forall_forall in Hd.
  pose proof Depth_time_points_between as Htp.
  rewrite Forall_forall in Htp.
  unfold Binary64.no_overflow, Binary64.in_range. simpl.
  split; [lra|].
  split; [pose proof script_quotient_bounds; lra|].
  split; [lra|]. split; [lra|].
  split.
  { apply Forall_forall. intros d Hin. specialize (Hd d Hin).
    set (r := sqrt (PI / (18 * 24))) in *. split; nra. }
  apply Forall_forall. intros t Hin. specialize (Htp t Hin).
  split; [split; nra|].
  apply Forall_forall. intros d Hdin. specialize (Hd d Hdin).
  set (r := sqrt (PI / (18 * 24))) in *.
  assert (-15 <= d * r <= 0) by nra.
  assert (-4 <= PI * (t - 8) / 12 <= 32) by (split; nra).
  split; lra.
Qed.

(** C4 (as amended).  Binary64 has a largest number, and the formula can
    pass it.  For every valid input whose depths are at or below the
    surface and for which no step of the formula reaches the overflow
    threshold of binary64 (the product [k * P], the quotient
    [pi / (k * P)], the lag of every depth, the angle of every depth and
    time, and the two ends [meanTemperature - amplitude] and
    [meanTemperature + amplitude]), the generator returns a field with one
    row per depth and one cell per time; every cell is a finite number
    (not [nan], not an infinity, and no exception is raised), the number
    the exact run gives that cell, and lies in
    [[meanTemperature - amplitude, meanTemperature + amplitude]]. *)
Theorem field_cells_finite (tp dp : list R) (p : ThermalParameters) :
  valid_params p ->
  Forall (fun d => d <= 0) dp ->
  Binary64.no_overflow tp dp p ->
  exists (field : Binary64.ndarray) (exact : ndarray),
    Binary64.generateField tp dp p = inr field
    /\ generateField tp dp p = inr exact
    /\ length field = length dp
    /\ forall i j : nat,
        (i < length dp)%nat ->
        (j < length tp)%nat ->
        exists v,
          Binary64.cell field i j = Some (Binary64.Finite v)
          /\ cell exact i j = Some (Fin v)
          /\ Binary64.in_range v
          /\ meanTemperature p - amplitude p <= v
             <= meanTemperature p + amplitude p.
Proof.
  intros V Hd Hno.
  pose proof V as (Ha & Hk & HP).
  pose proof Hno as (_ & _ & Hlo & Hhi & _).
  eexists. eexists.
  split; [now apply generateField_in_range|].
  split; [apply generateField_cells; nra|].
  split; [now rewrite length_map|].
  intros i j Hi Hj.
  destruct (nth_error dp i) as [d|] eqn:Ed;
    [|apply nth_error_None in Ed; lia].
  destruct (nth_error tp j) as [t|] eqn:Et;
    [|apply nth_error_None in Et; lia].
  assert (Hb : meanTemperature p - amplitude p
               <= soil_temperature_at (amplitude p) (meanTemperature p)
                    (diffusivity p) (period p) d t
               <= meanTemperature p + amplitude p).
  { apply soil_temperature_at_bounds; [exact Ha|].
    rewrite Forall_forall in Hd. apply Hd.
    now apply nth_error_In with i. }
  eexists. split.
  - apply (binary64_cell_map_map _ _
             (fun d t => Binary64.Finite (soil_temperature_at _ _ _ _ d t))
             dp tp i j d t Ed Et).
  - split.
    + apply (cell_map_map _ _
               (fun d t => Fin (soil_temperature_at _ _ _ _ d t))
               dp tp i j d t Ed Et).
    + split; [|exact Hb].
      now apply (in_range_between _ _ _ Hlo Hhi).
Qed.

Lemma field_cells_finite_witness :
  valid_params script_params
  /\ Forall (fun d => d <= 0) Depth.depth_points
  /\ Binary64.no_overflow Depth.time_points Depth.depth_points script_params
  /\ exists field : Binary64.ndarray,
      Binary64.generateField Depth.time_points Depth.depth_points
        script_params = inr field
      /\ length field = length Depth.depth_points
      /\ forall i j : nat,
          (i < length Depth.depth_points)%nat ->
          (j < length Depth.time_points)%nat ->
          exists v,
            Binary64.cell field i j = Some (Binary64.Finite v)
            /\ 25 - 10 <= v <= 25 + 10.
Proof.
  assert (V : valid_params script_params)
    by (unfold valid_params; simpl; lra).
  split; [exact V|]. split; [exact Depth_depth_points_nonpositive|].
  split; [exact Depth_no_overflow|].
  destruct (field_cells_finite Depth.time_points Depth.depth_points
              script_params V Depth_depth_points_nonpositive
              Depth_no_overflow)
    as (field & exact & Ef & _ & Hl & Hc).
  exists field. split; [exact Ef|]. split; [exact Hl|].
  intros i j Hi Hj.
  destruct (Hc i j Hi Hj) as (v & Cv & _ & _ & Hb).
  exists v. split; [exact Cv | exact Hb].
Defined.

(** C4 as stated fails.  With mean temperature and amplitude both 1e308
    (finite numbers of binary64, and a valid input) the surface cell at
    hour 14 is [1e308 + 1e308], which is past the largest number: the cell
    is an infinity.  With diffusivity 1e-320 (positive, and a valid input)
    the quotient [pi / (k * P)] is an infinity and the surface cell, which
    multiplies it by the depth 0, is [nan]. *)
Lemma overflow_counterexample :
  valid_params (mkParams 1e308 1e308 18 24 8)
  /\ Binary64.in_range 1e308
  /\ valid_time_domain [14]
  /\ valid_depth_domain [0]
  /\ Binary64.generateField [14] [0] (mkParams 1e308 1e308 18 24 8)
     = inr [[Binary64.Infinity false]]
  /\ valid_params (mkParams 25 10 1e-320 24 8)
  /\ Binary64.in_range 1e-320
  /\ Binary64.generateField [14] [0] (mkParams 25 10 1e-320 24 8)
     = inr [[Binary64.Nan]].
Proof.
  pose proof overflow_threshold_bounds as Ht.
  pose proof PI_RGT_0 as Hpi. pose proof PI_4 as Hpi4.
  pose proof PI_above_3 as Hpi3.
  split; [unfold valid_params; simpl; lra|].
  split; [unfold Binary64.in_range; lra|].
  split; [split; [discriminate | repeat constructor]|].
  split; [split; [reflexivity | repeat constructor]|].
  split.
  { unfold Binary64.generateField, Binary64.soil_temperature,
      Binary64.decay_factor, Binary64.phase_lag.
    cbn [amplitude meanTemperature diffusivity period].
    rewrite damping_rate_in_range
      by (pose proof script_quotient_bounds;
          unfold Binary64.in_range; lra).
    unfold ret. cbn [bind].
    rewrite sqrt_in_range by (pose proof script_quotient_bounds; lra).
    unfold Binary64.z, Binary64.time_grid, Binary64.depth_grid,
      Binary64.meshgrid, Binary64.amap, Binary64.amap2.
    cbn [fst snd map map2 Binary64.neg].
    set (r := sqrt (PI / (18 * 24))).
    assert (E0 : - - 0 * r = 0) by ring.
    rewrite !(mul_in_range (- - 0))
      by (rewrite E0; apply in_range_small; lra).
    rewrite E0.
    rewrite exp_in_range by (rewrite exp_0; apply in_range_small; lra).
    rewrite exp_0.
    rewrite mul_in_range by (unfold Binary64.in_range; lra).
    rewrite sub_in_range by (unfold Binary64.in_range; lra).
    rewrite mul_in_range by (unfold Binary64.in_range; lra).
    rewrite div_in_range by (unfold Binary64.in_range; lra).
    rewrite add_in_range by (unfold Binary64.in_range; lra).
    cbn [Binary64.np_sin]. rewrite Rplus_0_r, sin_quarter_turn.
    rewrite mul_in_range by (unfold Binary64.in_range; lra).
    cbn [Binary64.add]. rewrite round_overflow by lra.
    reflexivity. }
  split; [unfold valid_params; simpl; lra|].
  split; [unfold Binary64.in_range; lra|].
  unfold Binary64.generateField, Binary64.soil_temperature,
    Binary64.decay_factor, Binary64.phase_lag.
  cbn [amplitude meanTemperature diffusivity period].
  rewrite mul_in_range by (unfold Binary64.in_range; lra).
  unfold Binary64.py_truediv.
  destruct (Req_dec_T (1e-320 * 24) 0) as [E|_]; [lra|].
  assert (Hq : Binary64.overflow_threshold <= PI / (1e-320 * 24)).
  { assert (Hc : 0 < 1e-320 * 24 < 1) by lra.
    set (c := 1e-320 * 24) in *.
    apply Rmult_le_reg_r with c; [lra|].
    replace (PI / c * c) with PI by (field; lra).
    assert (Binary64.overflow_threshold * c <= 2e308 * 2.4e-319).
    { unfold c. lra. }
    lra. }
  unfold Binary64.div.
  destruct (Req_dec_T (1e-320 * 24) 0) as [E|_]; [lra|].
  rewrite round_overflow by exact Hq.
  unfold ret. cbn [bind Binary64.np_sqrt].
  unfold Binary64.z, Binary64.time_grid, Binary64.depth_grid,
    Binary64.meshgrid, Binary64.amap, Binary64.amap2.
  cbn [fst snd map map2 Binary64.neg Binary64.mul].
  destruct (Req_dec_T (- - 0) 0) as [_|N]; [|lra].
  reflexivity.
Qed.

(** ** C5: attenuation with depth *)

(** C5 (as amended).  For every valid input and depth magnitudes
    [0 <= z1 < z2]: the decay factor is strictly smaller at [z2] than at
    [z1], lies in (0, 1] and is 1 at the surface; the peak-to-trough swing
    of the temperature over all real times at a depth is
    [2 * amplitude * decay], so the swing at [z2] is at most the swing at
    [z1]; the swing of any sampled row of the generated field is at most
    [2 * amplitude * decay] of its depth; and the swing of the sampled row
    at [z2] is at most the swing of the sampled row at [z1] whenever the
    time domain holds a time of maximum and a time of minimum of depth
    [z1].  (Without that, the swings of two sampled rows are not
    ordered.) *)
Theorem attenuation_with_depth (p : ThermalParameters) (z1 z2 : R) :
  valid_params p ->
  0 <= z1 ->
  z1 < z2 ->
  (decay_factor_at (diffusivity p) (period p) z2
   < decay_factor_at (diffusivity p) (period p) z1
   /\ 0 < decay_factor_at (diffusivity p) (period p) z2
   /\ decay_factor_at (diffusivity p) (period p) z1 <= 1
   /\ decay_factor_at (diffusivity p) (period p) 0 = 1)
  /\ (swing_over_time p z1
        (2 * amplitude p * decay_factor_at (diffusivity p) (period p) z1)
      /\ swing_over_time p z2
           (2 * amplitude p * decay_factor_at (diffusivity p) (period p) z2)
      /\ forall s1 s2 : R,
          swing_over_time p z1 s1 -> swing_over_time p z2 s2 -> s2 <= s1)
  /\ (forall (tp dp : list R) (i : nat) (d : R),
         nth_error dp i = Some d ->
         exists field s,
           generateField tp dp p = inr field
           /\ row_swing field i = Some s
           /\ s <= 2 * amplitude p
                   * decay_factor_at (diffusivity p) (period p) (- d))
  /\ forall (tp dp : list R) (i1 i2 : nat) (tmax tmin : R),
      nth_error dp i1 = Some (- z1) ->
      nth_error dp i2 = Some (- z2) ->
      In tmax tp ->
      In tmin tp ->
      time_of_maximum p z1 tmax ->
      time_of_minimum p z1 tmin ->
      exists field s1 s2,
        generateField tp dp p = inr field
        /\ row_swing field i1 = Some s1
        /\ row_swing field i2 = Some s2
        /\ s2 <= s1.
Proof.
  intros (Ha & Hk & HP) Hz1 Hz.
  assert (Hpos : 0 < diffusivity p * period p) by nra.
  pose proof (decay_factor_at_decreasing _ _ Hpos z1 z2 Hz) as Hdec.
  split; [|split; [|split]].
  - split; [exact Hdec|].
    split; [apply decay_factor_at_pos|].
    split; [now apply decay_factor_at_le_1 | apply decay_factor_at_0].
  - split; [now apply swing_over_time_envelope|].
    split; [now apply swing_over_time_envelope|].
    intros s1 s2 H1 H2.
    rewrite (swing_over_time_unique p z1 s1 Ha H1).
    rewrite (swing_over_time_unique p z2 s2 Ha H2).
    nra.
  - intros tp dp i d Hd.
    eexists. eexists.
    split; [now apply generateField_cells|].
    split.
    + apply (row_swing_cells
               (soil_temperature_at (amplitude p) (meanTemperature p)
                  (diffusivity p) (period p)) tp dp i d Hd).
    + now apply row_swing_envelope.
  - intros tp dp i1 i2 tmax tmin H1 H2 Imax Imin Hmax Hmin.
    eexists. eexists. eexists.
    split; [now apply generateField_cells|].
    split; [|split].
    + apply (row_swing_cells
               (soil_temperature_at (amplitude p) (meanTemperature p)
                  (diffusivity p) (period p)) tp dp i1 (- z1) H1).
    + apply (row_swing_cells
               (soil_temperature_at (amplitude p) (meanTemperature p)
                  (diffusivity p) (period p)) tp dp i2 (- z2) H2).
    + pose proof (row_swing_envelope (amplitude p) (meanTemperature p)
                    (diffusivity p) (period p) (- z2) tp Ha) as Hup.
      rewrite Ropp_involutive in Hup.
      assert (Hlow : field_value p z1 tmax - field_value p z1 tmin
                     <= swing (map (soil_temperature_at (amplitude p)
                                      (meanTemperature p) (diffusivity p)
                                      (period p) (- z1)) tp)).
      { apply swing_spread; unfold field_value; now apply in_map. }
      assert (Hs : swing_over_time p z1
                     (field_value p z1 tmax - field_value p z1 tmin)).
      { exists tmax, tmin. repeat split; assumption. }
      apply (swing_over_time_unique p z1 _ Ha) in Hs.
      rewrite Hs in Hlow.
      pose proof (decay_factor_at_pos (diffusivity p) (period p) z2).
      nra.
Qed.

Lemma attenuation_with_depth_witness :
  valid_params script_params
  /\ 0 <= 10
  /\ 10 < 50
  /\ decay_factor_at 18 24 50 < decay_factor_at 18 24 10
  /\ forall s1 s2 : R,
      swing_over_time script_params 10 s1 ->
      swing_over_time script_params 50 s2 -> s2 <= s1.
Proof.
  assert (V : valid_params script_params)
    by (unfold valid_params; simpl; lra).
  assert (H0 : 0 <= 10) by lra.
  assert (H1 : 10 < 50) by lra.
  split; [exact V|]. split; [exact H0|]. split; [exact H1|].
  destruct (attenuation_with_depth script_params 10 50 V H0 H1)
    as ((Hd & _) & (_ & _ & Hs) & _ & _).
  split; [exact Hd | exact Hs].
Defined.

(** C5 as stated fails for the sampled field.  With the scripts'
    parameters, the depth domain [[0; -10]] and the time domain [[8; 20]]
    (two samples half a day apart, one period covered) the input is valid;
    both surface samples are at the mean, so the surface row has swing 0,
    while the row at depth magnitude 10 has a positive swing. *)
Lemma sampled_swing_counterexample :
  valid_params script_params
  /\ valid_time_domain [8; 20]
  /\ valid_depth_domain [0; -10]
  /\ exists field s,
      generateField [8; 20] [0; -10] script_params = inr field
      /\ row_swing field 0 = Some 0
      /\ row_swing field 1 = Some s
      /\ 0 < s.
Proof.
  split; [unfold valid_params; simpl; lra|].
  split.
  { split; [discriminate|].
    repeat constructor. lra. }
  split.
  { split; [reflexivity|].
    repeat constructor. lra. }
  eexists. eexists.
  split; [apply generateField_cells; simpl; lra|].
  split; [|split].
  - unfold row_swing. simpl.
    rewrite !soil_temperature_at_surface. unfold surface_temperature_at.
    replace (PI * (8 - 8) / 12) with 0 by lra.
    replace (PI * (20 - 8) / 12) with PI by lra.
    rewrite sin_0, sin_PI.
    rewrite Rmax_left, Rmin_left by lra. f_equal. lra.
  - apply (row_swing_cells
             (soil_temperature_at 10 25 18 24) [8; 20] [0; -10] 1 (-10)).
    reflexivity.
  - eapply Rlt_le_trans;
      [|apply (swing_spread _ (soil_temperature_at 10 25 18 24 (-10) 20)
                 (soil_temperature_at 10 25 18 24 (-10) 8));
        simpl; tauto].
    unfold soil_temperature_at.
    replace (PI * (8 - 8) / 12 + phase_lag_at 18 24 (- -10))
      with (- (10 * sqrt (PI / (18 * 24))))
      by (unfold phase_lag_at; lra).
    replace (PI * (20 - 8) / 12 + phase_lag_at 18 24 (- -10))
      with (- (10 * sqrt (PI / (18 * 24))) + PI)
      by (unfold phase_lag_at; lra).
    rewrite neg_sin, sin_neg.
    pose proof (decay_factor_at_pos 18 24 (- -10)) as Hd.
    assert (Hs : 0 < sin (10 * sqrt (PI / (18 * 24)))).
    { pose proof damping_rate_lower. pose proof damping_rate_upper.
      pose proof PI_above_3.
      apply sin_gt_0; lra. }
    nra.
Qed.

(** ** C6: the peak arrives later at depth *)

(** C6 (as amended).  The forcing term is written with the literal [12], so
    the times of maximum recur every 24 hours whatever [P] is.  For every
    valid input with period 24 and two depths of the depth domain with
    magnitudes [0 <= z1 < z2]:
    - the array [phase_lag] of the scripts holds 0 in every row of depth 0,
      and in every column a non-positive angle at [z1] and a strictly
      larger one in size at [z2];
    - every cell of the row of the generated field at [z1] (at [z2]) is at
      most the value at hour [peak_time z1] ([peak_time z2]), and with a
      positive amplitude the cell of time [t] reaches it exactly when [t]
      is [peak_time] plus a whole number of periods;
    - [peak_time] is 14 at the surface, comes after the surface peak by
      [12 / PI] times the size of the lag, and is later at [z2] than at
      [z1] by [12 / PI] times the difference of the sizes of the two lags;
    - so any time of the time domain at which the row at [z2] is largest
      is a time at which the row at [z1] is largest plus that positive
      delay, modulo one period; the same holds over all real times. *)
Theorem phase_lag_with_depth (tp dp : list R) (p : ThermalParameters)
  (i1 i2 : nat) (z1 z2 : R) :
  valid_params p ->
  period p = 24 ->
  0 <= z1 ->
  z1 < z2 ->
  nth_error dp i1 = Some (- z1) ->
  nth_error dp i2 = Some (- z2) ->
  exists lag field : ndarray,
    phase_lag tp dp (diffusivity p) (period p) = inr lag
    /\ generateField tp dp p = inr field
    /\ (forall (i j : nat) (t : R),
           nth_error dp i = Some 0 ->
           nth_error tp j = Some t ->
           cell lag i j = Some (Fin 0))
    /\ (forall (j : nat) (t : R),
           nth_error tp j = Some t ->
           exists l1 l2 v1 v2 : R,
             cell lag i1 j = Some (Fin l1)
             /\ cell lag i2 j = Some (Fin l2)
             /\ l2 < l1 <= 0
             /\ Rabs l1 < Rabs l2
             /\ peak_time (diffusivity p) (period p) z2
                - peak_time (diffusivity p) (period p) z1
                = 12 * (Rabs l2 - Rabs l1) / PI
             /\ cell field i1 j = Some (Fin v1)
             /\ cell field i2 j = Some (Fin v2)
             /\ v1 <= field_value p z1
                        (peak_time (diffusivity p) (period p) z1)
             /\ v2 <= field_value p z2
                        (peak_time (diffusivity p) (period p) z2)
             /\ (0 < amplitude p ->
                 (v1 = field_value p z1
                         (peak_time (diffusivity p) (period p) z1)
                  <-> exists n : Z,
                        t = peak_time (diffusivity p) (period p) z1
                            + period p * IZR n)
                 /\ (v2 = field_value p z2
                            (peak_time (diffusivity p) (period p) z2)
                     <-> exists n : Z,
                           t = peak_time (diffusivity p) (period p) z2
                               + period p * IZR n)))
    /\ (0 < amplitude p ->
        forall (j1 j2 : nat) (t1 t2 : R),
          nth_error tp j1 = Some t1 ->
          nth_error tp j2 = Some t2 ->
          cell field i1 j1
          = Some (Fin (field_value p z1
                         (peak_time (diffusivity p) (period p) z1))) ->
          cell field i2 j2
          = Some (Fin (field_value p z2
                         (peak_time (diffusivity p) (period p) z2))) ->
          exists n : Z,
            t2 = t1
                 + (peak_time (diffusivity p) (period p) z2
                    - peak_time (diffusivity p) (period p) z1)
                 + period p * IZR n)
    /\ time_of_maximum p z1 (peak_time (diffusivity p) (period p) z1)
    /\ time_of_maximum p z2 (peak_time (diffusivity p) (period p) z2)
    /\ 0 < peak_time (diffusivity p) (period p) z2
           - peak_time (diffusivity p) (period p) z1
    /\ peak_time (diffusivity p) (period p) 0 = 14
    /\ (forall zz : R,
           0 <= zz ->
           peak_time (diffusivity p) (period p) zz
           - peak_time (diffusivity p) (period p) 0
           = 12 * Rabs (phase_lag_at (diffusivity p) (period p) zz) / PI)
    /\ (forall (zz : R) (n : Z),
           time_of_maximum p zz
             (peak_time (diffusivity p) (period p) zz + period p * IZR n))
    /\ (0 < amplitude p ->
        forall zz t : R,
          time_of_maximum p zz t ->
          exists n : Z,
            t = peak_time (diffusivity p) (period p) zz + period p * IZR n)
    /\ (0 < amplitude p ->
        forall t1 t2 : R,
          time_of_maximum p z1 t1 ->
          time_of_maximum p z2 t2 ->
          exists n : Z,
            t2 = t1
                 + (peak_time (diffusivity p) (period p) z2
                    - peak_time (diffusivity p) (period p) z1)
                 + period p * IZR n).
Proof.
  intros (Ha & Hk & HP') HP Hz1 Hz D1 D2.
  assert (Hpos : 0 < diffusivity p * period p) by nra.
  pose proof (phase_lag_at_decreasing _ _ Hpos z1 z2 Hz) as Hlag.
  pose proof (phase_lag_at_nonpos _ _ Hpos z1 Hz1) as Hn1.
  assert (Hz2 : 0 <= z2) by lra.
  assert (Hturn : forall (zz t : R) (n : Z),
             field_value p zz (t + period p * IZR n) = field_value p zz t).
  { intros zz t n. rewrite HP. apply field_value_day_turns. }
  assert (Hall : 0 < amplitude p ->
                 forall zz t : R,
                   time_of_maximum p zz t ->
                   exists n : Z,
                     t = peak_time (diffusivity p) (period p) zz
                         + period p * IZR n).
  { intros Hap zz t Hmax.
    destruct (maximum_times p zz t Hap Hmax) as [n E].
    exists n. rewrite E, HP. reflexivity. }
  assert (Hcell : 0 < amplitude p ->
                  forall zz t : R,
                    field_value p zz t
                    = field_value p zz
                        (peak_time (diffusivity p) (period p) zz)
                    <-> exists n : Z,
                          t = peak_time (diffusivity p) (period p) zz
                              + period p * IZR n).
  { intros Hap zz t. split.
    - intros E. apply Hall; [exact Hap|].
      intros t'. rewrite E. now apply peak_time_is_maximum.
    - intros [n ->]. apply Hturn. }
  assert (Hdelay : peak_time (diffusivity p) (period p) z2
                   - peak_time (diffusivity p) (period p) z1
                   = 12 * (Rabs (phase_lag_at (diffusivity p) (period p) z2)
                           - Rabs (phase_lag_at (diffusivity p) (period p)
                                     z1)) / PI).
  { rewrite !Rabs_left1 by lra.
    unfold peak_time, phase_lag_at. pose proof PI_neq0. now field. }
  exists (map (fun d =>
                 map (fun _ : R =>
                        Fin (phase_lag_at (diffusivity p) (period p) (- d)))
                     tp) dp).
  exists (map (fun d =>
                 map (fun t =>
                        Fin (soil_temperature_at (amplitude p)
                               (meanTemperature p) (diffusivity p)
                               (period p) d t)) tp) dp).
  split; [now apply phase_lag_cells|].
  split; [now apply generateField_cells|].
  split.
  { intros i j t Hd Ht.
    rewrite (cell_map_map _ _
               (fun d _ => Fin (phase_lag_at _ _ (- d)))
               dp tp i j 0 t Hd Ht).
    do 2 f_equal. unfold phase_lag_at. ring. }
  split.
  { intros j t Ht.
    exists (phase_lag_at (diffusivity p) (period p) z1),
           (phase_lag_at (diffusivity p) (period p) z2),
           (field_value p z1 t), (field_value p z2 t).
    split.
    { rewrite (cell_map_map _ _
                 (fun d _ => Fin (phase_lag_at _ _ (- d)))
                 dp tp i1 j (- z1) t D1 Ht).
      now rewrite Ropp_involutive. }
    split.
    { rewrite (cell_map_map _ _
                 (fun d _ => Fin (phase_lag_at _ _ (- d)))
                 dp tp i2 j (- z2) t D2 Ht).
      now rewrite Ropp_involutive. }
    split; [lra|].
    split; [rewrite !Rabs_left1 by lra; lra|].
    split; [exact Hdelay|].
    split.
    { apply (cell_map_map _ _
               (fun d t => Fin (soil_temperature_at _ _ _ _ d t))
               dp tp i1 j (- z1) t D1 Ht). }
    split.
    { apply (cell_map_map _ _
               (fun d t => Fin (soil_temperature_at _ _ _ _ d t))
               dp tp i2 j (- z2) t D2 Ht). }
    split; [now apply peak_time_is_maximum|].
    split; [now apply peak_time_is_maximum|].
    intros Hap. split; now apply Hcell. }
  split.
  { intros Hap j1 j2 t1 t2 H1 H2 C1 C2.
    rewrite (cell_map_map _ _
               (fun d t => Fin (soil_temperature_at _ _ _ _ d t))
               dp tp i1 j1 (- z1) t1 D1 H1) in C1.
    rewrite (cell_map_map _ _
               (fun d t => Fin (soil_temperature_at _ _ _ _ d t))
               dp tp i2 j2 (- z2) t2 D2 H2) in C2.
    injection C1 as C1. injection C2 as C2.
    fold (field_value p z1 t1) in C1. fold (field_value p z2 t2) in C2.
    apply (Hcell Hap) in C1. apply (Hcell Hap) in C2.
    destruct C1 as [n1 E1]. destruct C2 as [n2 E2].
    exists (n2 - n1)%Z. rewrite minus_IZR. lra. }
  split; [now apply peak_time_is_maximum|].
  split; [now apply peak_time_is_maximum|].
  split; [pose proof (peak_time_increasing _ _ Hpos z1 z2 Hz); lra|].
  split; [apply peak_time_0|].
  split.
  { intros zz Hnn.
    rewrite peak_time_delay.
    rewrite Rabs_left1 by (now apply phase_lag_at_nonpos).
    reflexivity. }
  split.
  { intros zz n t. rewrite Hturn.
    now apply peak_time_is_maximum. }
  split; [exact Hall|].
  intros Hap t1 t2 H1 H2.
  destruct (Hall Hap z1 t1 H1) as [n1 E1].
  destruct (Hall Hap z2 t2 H2) as [n2 E2].
  exists (n2 - n1)%Z. rewrite minus_IZR. lra.
Qed.

Lemma phase_lag_with_depth_witness :
  valid_params script_params
  /\ period script_params = 24
  /\ 0 <= 0
  /\ 0 < 10
  /\ nth_error [0; -10] 0 = Some (- 0)
  /\ nth_error [0; -10] 1 = Some (- 10)
  /\ exists lag field : ndarray,
      phase_lag Depth.time_points [0; -10] 18 24 = inr lag
      /\ generateField Depth.time_points [0; -10] script_params = inr field
      /\ exists l1 l2 v1 v2 : R,
          cell lag 0 56 = Some (Fin l1)
          /\ cell lag 1 56 = Some (Fin l2)
          /\ Rabs l1 < Rabs l2
          /\ cell field 0 56 = Some (Fin v1)
          /\ cell field 1 56 = Some (Fin v2)
          /\ v1 <= field_value script_params 0 (peak_time 18 24 0)
          /\ v2 <= field_value script_params 10 (peak_time 18 24 10)
          /\ 0 < peak_time 18 24 10 - peak_time 18 24 0.
Proof.
  assert (V : valid_params script_params)
    by (unfold valid_params; simpl; lra).
  assert (H0 : 0 <= 0) by lra.
  assert (H1 : 0 < 10) by lra.
  assert (D1 : nth_error [0; -10] 0 = Some (- 0))
    by (simpl; f_equal; lra).
  assert (D2 : nth_error [0; -10] 1 = Some (- 10)) by reflexivity.
  split; [exact V|]. split; [reflexivity|].
  split; [exact H0|]. split; [exact H1|].
  split; [exact D1|]. split; [exact D2|].
  destruct (phase_lag_with_depth Depth.time_points [0; -10] script_params
              0 1 0 10 V eq_refl H0 H1 D1 D2)
    as (lag & field & El & Ef & _ & Hc & _ & _ & _ & Hp & _).
  exists lag, field.
  split; [exact El|]. split; [exact Ef|].
  destruct (Hc 56%nat 14 Depth_hour_14)
    as (l1 & l2 & v1 & v2 & C1 & C2 & _ & Hl & _ & F1 & F2 & B1 & B2 & _).
  exists l1, l2, v1, v2.
  split; [exact C1|]. split; [exact C2|]. split; [exact Hl|].
  split; [exact F1|]. split; [exact F2|]. split; [exact B1|].
  split; [exact B2 | exact Hp].
Defined.

(** C6 as stated fails: with period 48 the input is valid and the surface
    row of the field holds its largest value 35 both at hour 14 and at hour
    38, two times of maximum that are not a whole number of periods apart;
    and at depth magnitude 10 the hour [peak_time + 24] is a time of
    maximum that is not a surface time of maximum plus the delay of that
    depth plus a whole number of periods. *)
Lemma time_of_maximum_counterexample :
  valid_params (mkParams 25 10 18 48 8)
  /\ valid_time_domain [14; 38]
  /\ valid_depth_domain [0]
  /\ generateField [14; 38] [0] (mkParams 25 10 18 48 8)
     = inr [[Fin 35; Fin 35]]
  /\ time_of_maximum (mkParams 25 10 18 48 8) 0 14
  /\ time_of_maximum (mkParams 25 10 18 48 8) 0 38
  /\ (forall n : Z, 38 <> 14 + period (mkParams 25 10 18 48 8) * IZR n)
  /\ time_of_maximum (mkParams 25 10 18 48 8) 10 (peak_time 18 48 10 + 24)
  /\ (forall n : Z,
         peak_time 18 48 10 + 24
         <> 14 + (peak_time 18 48 10 - peak_time 18 48 0)
            + period (mkParams 25 10 18 48 8) * IZR n).
Proof.
  assert (Ha : 0 <= amplitude (mkParams 25 10 18 48 8)) by (simpl; lra).
  assert (Hhalf : forall n : Z, 24 <> 48 * IZR n).
  { intros n E.
    assert (E' : IZR (2 * n) = IZR 1) by (rewrite mult_IZR; lra).
    apply eq_IZR in E'. lia. }
  assert (M14 : time_of_maximum (mkParams 25 10 18 48 8) 0 14).
  { rewrite <- (peak_time_0 18 48).
    exact (peak_time_is_maximum (mkParams 25 10 18 48 8) 0 Ha). }
  split; [unfold valid_params; simpl; lra|].
  split; [split; [discriminate | repeat constructor; lra]|].
  split; [split; [reflexivity | repeat constructor]|].
  split.
  { rewrite generateField_cells by (simpl; lra). simpl.
    rewrite !soil_temperature_at_surface. unfold surface_temperature_at.
    rewrite sin_quarter_turn, sin_five_quarter_turn.
    do 3 f_equal; [f_equal; lra|]. do 2 f_equal. lra. }
  split; [exact M14|].
  split.
  { intros t'. replace 38 with (14 + 24 * IZR 1) by lra.
    rewrite field_value_day_turns. apply M14. }
  split; [intros n E; simpl in E; apply (Hhalf n); lra|].
  split.
  { intros t'. replace 24 with (24 * IZR 1) by lra.
    rewrite field_value_day_turns.
    exact (peak_time_is_maximum (mkParams 25 10 18 48 8) 10 Ha t'). }
  intros n E. simpl in E. rewrite peak_time_0 in E.
  apply (Hhalf n). lra.
Qed.

(** ** C7: a day later *)

(** C7 (as amended).  The forcing term is written with the literal [12], so
    the field repeats every 24 hours whatever [P] is: for every valid input
    with period 24, every row and every two times [t] and [t + period] of
    the time domain, the two cells of the row are equal within
    floating-point tolerance.  In the exact arithmetic of this model they
    hold the same number; in binary64 the two cells are two roundings of
    that number. *)
Theorem field_periodic (tp dp : list R) (p : ThermalParameters)
  (j1 j2 : nat) (t : R) :
  valid_params p ->
  period p = 24 ->
  nth_error tp j1 = Some t ->
  nth_error tp j2 = Some (t + period p) ->
  exists field,
    generateField tp dp p = inr field
    /\ forall i : nat,
        (i < length dp)%nat ->
        exists v,
          cell field i j1 = Some (Fin v) /\ cell field i j2 = Some (Fin v).
Proof.
  intros (_ & Hk & HP') HP H1 H2.
  eexists. split; [apply generateField_cells; nra|].
  intros i Hi.
  destruct (nth_error dp i) as [d|] eqn:Ed;
    [|apply nth_error_None in Ed; lia].
  eexists. split.
  - apply (cell_map_map _ _
             (fun d t => Fin (soil_temperature_at _ _ _ _ d t))
             dp tp i j1 d t Ed H1).
  - rewrite (cell_map_map _ _
               (fun d t => Fin (soil_temperature_at _ _ _ _ d t))
               dp tp i j2 d (t + period p) Ed H2).
    rewrite HP at 2. now rewrite soil_temperature_at_day.
Qed.

Lemma field_periodic_witness :
  valid_params script_params
  /\ period script_params = 24
  /\ nth_error Depth.time_points 56 = Some 14
  /\ nth_error Depth.time_points 152 = Some (14 + period script_params)
  /\ exists field,
      Depth.soil_temperature = inr field
      /\ forall i : nat,
          (i < length Depth.depth_points)%nat ->
          exists v,
            cell field i 56 = Some (Fin v)
            /\ cell field i 152 = Some (Fin v).
Proof.
  assert (V : valid_params script_params)
    by (unfold valid_params; simpl; lra).
  assert (T : nth_error Depth.time_points 152
              = Some (14 + period script_params))
    by (rewrite Depth_hour_38; simpl; f_equal; lra).
  split; [exact V|]. split; [reflexivity|].
  split; [exact Depth_hour_14|]. split; [exact T|].
  rewrite Depth_soil_temperature.
  exact (field_periodic Depth.time_points Depth.depth_points script_params
           56 152 14 V eq_refl Depth_hour_14 T).
Defined.

(** C7 as stated fails: with period 12 the input is valid, hours 14 and
    [14 + 12] are both in the time domain, and the surface row holds 35 at
    the first and 15 at the second. *)
Lemma field_periodic_counterexample :
  valid_params (mkParams 25 10 18 12 8)
  /\ valid_time_domain [14; 26]
  /\ valid_depth_domain [0]
  /\ nth_error [14; 26] 1%nat = Some (14 + period (mkParams 25 10 18 12 8))
  /\ generateField [14; 26] [0] (mkParams 25 10 18 12 8)
     = inr [[Fin 35; Fin 15]]
  /\ Fin 35 <> Fin 15.
Proof.
  split; [unfold valid_params; simpl; lra|].
  split; [split; [discriminate | repeat constructor; lra]|].
  split; [split; [reflexivity | repeat constructor]|].
  split; [simpl; f_equal; lra|].
  split; [|intros E; injection E as E; lra].
  rewrite generateField_cells by (simpl; lra). simpl.
  rewrite !soil_temperature_at_surface. unfold surface_temperature_at.
  rewrite sin_quarter_turn, sin_three_quarter_turn.
  do 3 f_equal; [f_equal; lra|]. do 2 f_equal. lra.
Qed.

(** ** C8: the concrete scenario *)

Lemma scenario_field :
  generateField (arange 0 24 0.25) [0; -10; -50] script_params
  = inr (map (fun d =>
                map (fun t => Fin (soil_temperature_at 10 25 18 24 d t))
                    (arange 0 24 0.25))
             [0; -10; -50]).
Proof. rewrite generateField_cells by (simpl; lra). reflexivity. Qed.

Lemma scenario_peak : soil_temperature_at 10 25 18 24 0 14 = 35.
Proof.
  rewrite soil_temperature_at_surface. unfold surface_temperature_at.
  rewrite sin_quarter_turn. lra.
Qed.

Lemma scenario_trough : soil_temperature_at 10 25 18 24 0 2 = 15.
Proof.
  rewrite soil_temperature_at_surface. unfold surface_temperature_at.
  rewrite sin_minus_quarter_turn. lra.
Qed.

Lemma scenario_surface_swing :
  swing (map (soil_temperature_at 10 25 18 24 0) (arange 0 24 0.25)) = 20.
Proof.
  apply Rle_antisym.
  - pose proof (row_swing_envelope 10 25 18 24 0 (arange 0 24 0.25)) as H.
    replace (- 0) with 0 in H by ring.
    rewrite decay_factor_at_0 in H. lra.
  - replace 20 with (35 - 15) by lra.
    apply swing_spread.
    + rewrite <- scenario_peak. apply in_map.
      apply nth_error_In with 56%nat. exact quarter_hours_14.
    + rewrite <- scenario_trough. apply in_map.
      apply nth_error_In with 8%nat. exact quarter_hours_2.
Qed.

Lemma scenario_deep_swing :
  swing (map (soil_temperature_at 10 25 18 24 (-50)) (arange 0 24 0.25)) < 2.
Proof.
  pose proof (row_swing_envelope 10 25 18 24 (-50) (arange 0 24 0.25)) as H.
  replace (- -50) with 50 in H by ring.
  pose proof decay_factor_at_50. lra.
Qed.

(** C8.  With mean 25, amplitude 10, diffusivity 18, period 24, phase offset
    8, the depth domain [[0; -10; -50]] and the time domain
    [arange 0 24 0.25]: hour 14 is sample 56 of the time domain and the
    surface cell there is 35; the swing of the surface row is 20 and the
    swing of the row at depth -50 is below a tenth of it. *)
Theorem concrete_scenario :
  exists (field : ndarray) (s0 s50 : R),
    generateField (arange 0 24 0.25) [0; -10; -50] script_params = inr field
    /\ nth_error (arange 0 24 0.25) 56 = Some 14
    /\ cell field 0 56 = Some (Fin 35)
    /\ row_swing field 0 = Some s0
    /\ row_swing field 2 = Some s50
    /\ s0 = 20
    /\ s50 < 0.1 * s0.
Proof.
  eexists. eexists. eexists.
  split; [exact scenario_field|].
  split; [exact quarter_hours_14|].
  split.
  { rewrite <- scenario_peak.
    apply (cell_map_map _ _
             (fun d t => Fin (soil_temperature_at 10 25 18 24 d t))
             [0; -10; -50] (arange 0 24 0.25) 0 56 0 14);
      [reflexivity | exact quarter_hours_14]. }
  split.
  { apply (row_swing_cells (soil_temperature_at 10 25 18 24)
             (arange 0 24 0.25) [0; -10; -50] 0 0). reflexivity. }
  split.
  { apply (row_swing_cells (soil_temperature_at 10 25 18 24)
             (arange 0 24 0.25) [0; -10; -50] 2 (-50)). reflexivity. }
  split; [exact scenario_surface_swing|].
  rewrite scenario_surface_swing.
  pose proof scenario_deep_swing. lra.
Qed.

(** ** C9: half a day later *)

(** C9 (as amended).  For every valid input with period 24: at every depth
    magnitude and every real time, the temperature half a period later and
    the temperature now add up to twice the mean, within floating-point
    tolerance; so for every two times [t] and [t + period / 2] of the time
    domain the two cells of every row of the field add up to twice the
    mean, within that tolerance.  In the exact arithmetic of this model the
    sum is exactly twice the mean; in binary64 each cell is a rounding of
    the number added here. *)
Theorem half_period_reflection (tp dp : list R) (p : ThermalParameters)
  (j1 j2 : nat) (t : R) :
  valid_params p ->
  period p = 24 ->
  nth_error tp j1 = Some t ->
  nth_error tp j2 = Some (t + period p / 2) ->
  (forall zz t' : R,
      field_value p zz (t' + period p / 2) + field_value p zz t'
      = 2 * meanTemperature p)
  /\ exists field,
      generateField tp dp p = inr field
      /\ forall i : nat,
          (i < length dp)%nat ->
          exists v1 v2,
            cell field i j1 = Some (Fin v1)
            /\ cell field i j2 = Some (Fin v2)
            /\ v2 + v1 = 2 * meanTemperature p.
Proof.
  intros (_ & Hk & HP') HP H1 H2.
  assert (Hh : period p / 2 = 12) by (rewrite HP; lra).
  split.
  - intros zz t'. unfold field_value. rewrite Hh.
    apply soil_temperature_at_half_day.
  - eexists. split; [apply generateField_cells; nra|].
    intros i Hi.
    destruct (nth_error dp i) as [d|] eqn:Ed;
      [|apply nth_error_None in Ed; lia].
    eexists. eexists. split; [|split].
    + apply (cell_map_map _ _
               (fun d t => Fin (soil_temperature_at _ _ _ _ d t))
               dp tp i j1 d t Ed H1).
    + apply (cell_map_map _ _
               (fun d t => Fin (soil_temperature_at _ _ _ _ d t))
               dp tp i j2 d (t + period p / 2) Ed H2).
    + simpl. rewrite Hh. apply soil_temperature_at_half_day.
Qed.

Lemma half_period_reflection_witness :
  valid_params script_params
  /\ period script_params = 24
  /\ nth_error Depth.time_points 56 = Some 14
  /\ nth_error Depth.time_points 104 = Some (14 + period script_params / 2)
  /\ exists field,
      Depth.soil_temperature = inr field
      /\ forall i : nat,
          (i < length Depth.depth_points)%nat ->
          exists v1 v2,
            cell field i 56 = Some (Fin v1)
            /\ cell field i 104 = Some (Fin v2)
            /\ v2 + v1 = 2 * meanTemperature script_params.
Proof.
  assert (V : valid_params script_params)
    by (unfold valid_params; simpl; lra).
  assert (T : nth_error Depth.time_points 104
              = Some (14 + period script_params / 2))
    by (rewrite Depth_hour_26; simpl; f_equal; lra).
  split; [exact V|]. split; [reflexivity|].
  split; [exact Depth_hour_14|]. split; [exact T|].
  rewrite Depth_soil_temperature.
  exact (proj2 (half_period_reflection Depth.time_points Depth.depth_points
                  script_params 56 104 14 V eq_refl Depth_hour_14 T)).
Defined.

(** C9 as stated fails: with period 48 the input is valid, and the surface
    temperature is 35 both at hour 14 and half a period later, which does
    not add up to twice the mean 25. *)
Lemma half_period_counterexample :
  valid_params (mkParams 25 10 18 48 8)
  /\ valid_time_domain [14; 38]
  /\ valid_depth_domain [0]
  /\ nth_error [14; 38] 1%nat
     = Some (14 + period (mkParams 25 10 18 48 8) / 2)
  /\ generateField [14; 38] [0] (mkParams 25 10 18 48 8)
     = inr [[Fin 35; Fin 35]]
  /\ 35 + 35 <> 2 * meanTemperature (mkParams 25 10 18 48 8).
Proof.
  split; [unfold valid_params; simpl; lra|].
  split; [split; [discriminate | repeat constructor; lra]|].
  split; [split; [reflexivity | repeat constructor]|].
  split; [simpl; f_equal; lra|].
  split; [|simpl; lra].
  rewrite generateField_cells by (simpl; lra). simpl.
  rewrite !soil_temperature_at_surface. unfold surface_temperature_at.
  rewrite sin_quarter_turn, sin_five_quarter_turn.
  do 3 f_equal; [f_equal; lra|]. do 2 f_equal. lra.
Qed.

(** ** C10: zero amplitude *)

(** C10.  For every time domain, every depth domain and valid parameters
    with amplitude 0, the generator returns a field and each of its cells
    is exactly the mean temperature. *)
Theorem zero_amplitude_field (tp dp : list R) (p : ThermalParameters) :
  valid_params p ->
  amplitude p = 0 ->
  generateField tp dp p
  = inr (map (fun _ => map (fun _ => Fin (meanTemperature p)) tp) dp).
Proof.
  intros (_ & Hk & HP) Ha.
  rewrite generateField_cells by nra.
  f_equal. apply map_ext. intros d. apply map_ext. intros t. f_equal.
  unfold soil_temperature_at. rewrite Ha. ring.
Qed.

Lemma zero_amplitude_field_witness :
  valid_params (mkParams 25 0 18 24 8)
  /\ amplitude (mkParams 25 0 18 24 8) = 0
  /\ generateField [2; 14] [0; -10; -50] (mkParams 25 0 18 24 8)
     = inr [[Fin 25; Fin 25]; [Fin 25; Fin 25]; [Fin 25; Fin 25]].
Proof.
  assert (V : valid_params (mkParams 25 0 18 24 8))
    by (unfold valid_params; simpl; lra).
  split; [exact V|]. split; [reflexivity|].
  exact (zero_amplitude_field [2; 14] [0; -10; -50] (mkParams 25 0 18 24 8)
           V eq_refl).
Defined.

(** ** Indices, slices and [argmin] *)

Lemma py_index_in_range (A : Type) (a : list A) (i : nat) (x : A) :
  nth_error a i = Some x -> py_index a (Z.of_nat i) = inr x.
Proof.
  intros H. unfold py_index.
  assert (Hi : (i < length a)%nat) by (apply nth_error_Some; congruence).
  destruct (Z.ltb_spec (Z.of_nat i) 0) as [Hn|_]; [lia|].
  destruct (Z.leb_spec 0 (Z.of_nat i)) as [_|Hn]; [|lia].
  destruct (Z.ltb_spec (Z.of_nat i) (Z.of_nat (length a))) as [_|Hn]; [|lia].
  simpl. now rewrite Nat2Z.id, H.
Qed.

Lemma py_index_wraps (A : Type) (a : list A) (i : Z) :
  (- Z.of_nat (length a) <= i < 0)%Z ->
  py_index a i = py_index a (i + Z.of_nat (length a)).
Proof.
  intros H. unfold py_index.
  destruct (Z.ltb_spec i 0) as [_|Hn]; [|lia].
  destruct (Z.ltb_spec (i + Z.of_nat (length a)) 0) as [Hn|_]; [lia|].
  reflexivity.
Qed.

Lemma py_index_out_of_range (A : Type) (a : list A) (i : Z) :
  (i < - Z.of_nat (length a) \/ Z.of_nat (length a) <= i)%Z ->
  py_index a i = inl IndexError.
Proof.
  intros H. unfold py_index.
  destruct (Z.ltb_spec i 0) as [Hi|Hi].
  - destruct (Z.leb_spec 0 (i + Z.of_nat (length a))) as [Hj|_];
      [lia | reflexivity].
  - destruct (Z.leb_spec 0 i) as [_|Hj]; [|lia].
    destruct (Z.ltb_spec i (Z.of_nat (length a))) as [Hj|_];
      [lia | reflexivity].
Qed.

Lemma py_index_found (A : Type) (a : list A) (i : Z) :
  (- Z.of_nat (length a) <= i < Z.of_nat (length a))%Z ->
  exists x, py_index a i = inr x.
Proof.
  intros H.
  destruct (Z.ltb_spec i 0) as [Hi|Hi].
  - rewrite py_index_wraps by lia.
    destruct (nth_error a (Z.to_nat (i + Z.of_nat (length a)))) as [x|] eqn:E.
    + exists x. rewrite <- (Z2Nat.id (i + Z.of_nat (length a))) by lia.
      now apply py_index_in_range.
    + apply nth_error_None in E. lia.
  - destruct (nth_error a (Z.to_nat i)) as [x|] eqn:E.
    + exists x. rewrite <- (Z2Nat.id i) by lia.
      now apply py_index_in_range.
    + apply nth_error_None in E. lia.
Qed.

Lemma py_slice_to_nat (A : Type) (a : list A) (n : nat) :
  py_slice_to a (Z.of_nat n) = firstn n a.
Proof.
  unfold py_slice_to.
  destruct (Z.ltb_spec (Z.of_nat n) 0) as [H|_]; [lia|].
  now rewrite Nat2Z.id.
Qed.

Lemma argmin_from_spec (l : list R) :
  forall (pre : list R) (best : R) (besti : nat),
    nth_error pre besti = Some best ->
    (forall y, In y pre -> best <= y) ->
    (forall j y, (j < besti)%nat -> nth_error pre j = Some y -> best < y) ->
    exists v,
      nth_error (pre ++ l) (argmin_from best besti (length pre) l) = Some v
      /\ (forall y, In y (pre ++ l) -> v <= y)
      /\ (forall j y,
             (j < argmin_from best besti (length pre) l)%nat ->
             nth_error (pre ++ l) j = Some y -> v < y).
Proof.
  induction l as [|x l IH]; intros pre best besti Hb Hmin Hfirst.
  - simpl. rewrite app_nil_r. exists best. auto.
  - assert (Hlt : (besti < length pre)%nat)
      by (apply nth_error_Some; congruence).
    assert (Hlen : length (pre ++ [x]) = S (length pre))
      by (rewrite length_app; simpl; lia).
    replace (pre ++ x :: l) with ((pre ++ [x]) ++ l)
      by (rewrite <- app_assoc; reflexivity).
    simpl. destruct (Rlt_dec x best) as [Hx|Hx].
    + rewrite <- Hlen. apply IH.
      * rewrite nth_error_app2 by lia.
        now rewrite Nat.sub_diag.
      * intros y Hy. apply in_app_or in Hy. destruct Hy as [Hy|[<-|[]]].
        -- specialize (Hmin y Hy). lra.
        -- lra.
      * intros j y Hj Hy.
        rewrite nth_error_app1 in Hy by lia.
        apply nth_error_In in Hy. specialize (Hmin y Hy). lra.
    + rewrite <- Hlen. apply IH.
      * now rewrite nth_error_app1 by lia.
      * intros y Hy. apply in_app_or in Hy. destruct Hy as [Hy|[<-|[]]].
        -- now apply Hmin.
        -- lra.
      * intros j y Hj Hy. rewrite nth_error_app1 in Hy by lia.
        now apply (Hfirst j).
Qed.

Lemma np_argmin_spec (a : list R) :
  a <> [] ->
  exists i v,
    np_argmin a = inr i
    /\ nth_error a i = Some v
    /\ (forall y, In y a -> v <= y)
    /\ (forall j y, (j < i)%nat -> nth_error a j = Some y -> v < y).
Proof.
  destruct a as [|x l]; [congruence|]. intros _.
  destruct (argmin_from_spec l [x] x 0) as (v & Hv & Hmin & Hfirst).
  - reflexivity.
  - intros y [<-|[]]. lra.
  - intros j y Hj. lia.
  - exists (argmin_from x 0 1 l), v. repeat split; assumption.
Qed.

Lemma depth_index_spec (dp : list R) (d : R) :
  dp <> [] ->
  exists i xi,
    DepthAnimation.depth_index dp d = inr i
    /\ nth_error dp i = Some xi
    /\ (forall x, In x dp -> Rabs (xi - d) <= Rabs (x - d))
    /\ (forall j x,
           (j < i)%nat -> nth_error dp j = Some x ->
           Rabs (xi - d) < Rabs (x - d)).
Proof.
  intros Hne. unfold DepthAnimation.depth_index.
  destruct (np_argmin_spec (map (fun x => Rabs (x - d)) dp))
    as (i & v & E & Hv & Hmin & Hfirst).
  { destruct dp; [congruence | discriminate]. }
  rewrite nth_error_map in Hv.
  destruct (nth_error dp i) as [xi|] eqn:Exi; [|discriminate].
  simpl in Hv. injection Hv as <-.
  exists i, xi. split; [exact E|]. split; [exact Exi|]. split.
  - intros x Hx. apply Hmin.
    apply (in_map (fun x => Rabs (x - d)) dp x Hx).
  - intros j x Hj Hx. apply (Hfirst j); [exact Hj|].
    now rewrite nth_error_map, Hx.
Qed.

(** X1.  [np.abs(depth_points - d).argmin()] on a non-empty array of depths
    returns an index of the array; the depth there is at least as near to
    [d] as every depth of the array, and strictly nearer than every depth
    before it. *)
Theorem depth_index_nearest (dp : list R) (d : R) :
  dp <> [] ->
  exists i xi,
    DepthAnimation.depth_index dp d = inr i
    /\ (i < length dp)%nat
    /\ nth_error dp i = Some xi
    /\ (forall x, In x dp -> Rabs (xi - d) <= Rabs (x - d))
    /\ (forall j x,
           (j < i)%nat -> nth_error dp j = Some x ->
           Rabs (xi - d) < Rabs (x - d)).
Proof.
  intros Hne.
  destruct (depth_index_spec dp d Hne) as (i & xi & E & Hxi & Hmin & Hfirst).
  exists i, xi. split; [exact E|]. split.
  - apply nth_error_Some. congruence.
  - repeat split; assumption.
Qed.

Lemma depth_index_nearest_witness :
  [0; -4; -8] <> []
  /\ exists i xi,
      DepthAnimation.depth_index [0; -4; -8] (-5) = inr i
      /\ (i < 3)%nat
      /\ nth_error [0; -4; -8] i = Some xi
      /\ (forall x, In x [0; -4; -8] -> Rabs (xi - -5) <= Rabs (x - -5))
      /\ (forall j x,
             (j < i)%nat -> nth_error [0; -4; -8] j = Some x ->
             Rabs (xi - -5) < Rabs (x - -5)).
Proof.
  assert (H : [0; -4; -8] <> []) by discriminate.
  split; [exact H|].
  exact (depth_index_nearest [0; -4; -8] (-5) H).
Defined.

(** X2.  When the wanted depth [d] is one of the depths of the array, the
    index [np.abs(depth_points - d).argmin()] returns is the first place
    where the array holds [d]: the row taken from the field is the row of
    exactly that depth. *)
Theorem depth_index_exact (dp : list R) (d : R) :
  In d dp ->
  exists i,
    DepthAnimation.depth_index dp d = inr i
    /\ nth_error dp i = Some d
    /\ forall j, (j < i)%nat -> nth_error dp j <> Some d.
Proof.
  intros Hin.
  assert (Hne : dp <> []) by (destruct dp; [contradiction | discriminate]).
  destruct (depth_index_spec dp d Hne) as (i & xi & E & Hxi & Hmin & Hfirst).
  assert (Hz : Rabs (d - d) = 0)
    by (replace (d - d) with 0 by ring; apply Rabs_R0).
  exists i. split; [exact E|]. split.
  - specialize (Hmin d Hin). rewrite Hz in Hmin.
    pose proof (Rabs_pos (xi - d)) as Hp.
    assert (H0 : Rabs (xi - d) = 0) by lra.
    destruct (Req_dec (xi - d) 0) as [E0|N0].
    + rewrite Hxi. f_equal. lra.
    + apply Rabs_no_R0 in N0. contradiction.
  - intros j Hj Hjd. specialize (Hfirst j d Hj Hjd).
    rewrite Hz in Hfirst. pose proof (Rabs_pos (xi - d)). lra.
Qed.

Lemma Depth_depth_points_nth (i : nat) :
  (i < 51)%nat -> nth_error Depth.depth_points i = Some (- INR i).
Proof.
  intros Hi. unfold Depth.depth_points, linspace.
  rewrite nth_error_map.
  rewrite (nth_error_nth' (seq 0 51) 0%nat) by (rewrite length_seq; exact Hi).
  rewrite seq_nth by exact Hi. cbn [option_map Nat.add]. f_equal.
  assert (E50 : INR (51 - 1) = 50)
    by (rewrite INR_IZR_INZ; reflexivity).
  rewrite E50.
  destruct (Nat.eqb_spec (S i) 51) as [E|N].
  - assert (Ei : i = 50%nat) by lia. subst i.
    replace (INR 50) with 50 by (rewrite INR_IZR_INZ; reflexivity).
    cbn [Nat.ltb Nat.leb]. lra.
  - lra.
Qed.

Lemma Depth_depth_5 : nth_error Depth.depth_points 5 = Some (-5).
Proof.
  rewrite Depth_depth_points_nth by lia. f_equal.
  rewrite INR_IZR_INZ. reflexivity.
Qed.

Lemma depth_index_exact_witness :
  In (-5) Depth.depth_points
  /\ exists i,
      DepthAnimation.depth_index Depth.depth_points (-5) = inr i
      /\ nth_error Depth.depth_points i = Some (-5)
      /\ forall j, (j < i)%nat -> nth_error Depth.depth_points j <> Some (-5).
Proof.
  assert (H : In (-5) Depth.depth_points)
    by (apply nth_error_In with 5%nat; exact Depth_depth_5).
  split; [exact H|].
  exact (depth_index_exact Depth.depth_points (-5) H).
Defined.

(** ** The frames of [soil_temperature_depth.py] *)

Lemma set_lines_all (tp : list R) (frame : Z) :
  forall (ls : list (list R * list float64)) (ds : list (list float64)),
    length ls = length ds ->
    DepthAnimation.set_lines tp frame ls ds
    = map (fun data =>
             (py_slice_to tp (frame + 1), py_slice_to data (frame + 1))) ds.
Proof.
  induction ls as [|l ls IH]; intros [|d ds] H; simpl in *;
    try reflexivity; try discriminate.
  f_equal. apply IH. lia.
Qed.

(** X3.  For a frame inside the time domain, with one series of the length
    of the time domain per curve, [update] succeeds: every curve gets the
    first [frame + 1] times and the first [frame + 1] values of its series
    (as many x as y), the marker stands at the time of the frame, and the
    last frame draws every series whole. *)
Theorem update_draws_prefix (tp : list R) (ds : list (list float64))
  (st : DepthAnimation.artists) (frame : nat) (t : R) :
  nth_error tp frame = Some t ->
  Forall (fun data => length data = length tp) ds ->
  length (DepthAnimation.lines st) = length ds ->
  exists st',
    DepthAnimation.update tp ds st (Z.of_nat frame) = inr st'
    /\ DepthAnimation.time_marker st' = [t; t]
    /\ DepthAnimation.lines st'
       = map (fun data => (firstn (S frame) tp, firstn (S frame) data)) ds
    /\ Forall (fun xy =>
                 length (fst xy) = S frame /\ length (snd xy) = S frame)
              (DepthAnimation.lines st')
    /\ (S frame = length tp ->
        DepthAnimation.lines st' = map (fun data => (tp, data)) ds).
Proof.
  intros Ht Hds Hls.
  assert (Hf : (frame < length tp)%nat)
    by (apply nth_error_Some; congruence).
  unfold DepthAnimation.update.
  rewrite (py_index_in_range _ tp frame t Ht).
  eexists. split; [reflexivity|]. simpl.
  split; [reflexivity|].
  rewrite (set_lines_all tp (Z.of_nat frame) _ ds Hls).
  replace (Z.of_nat frame + 1)%Z with (Z.of_nat (S frame)) by lia.
  assert (E : map (fun data =>
                     (py_slice_to tp (Z.of_nat (S frame)),
                      py_slice_to data (Z.of_nat (S frame)))) ds
              = map (fun data =>
                       (firstn (S frame) tp, firstn (S frame) data)) ds).
  { apply map_ext. intros data. now rewrite !py_slice_to_nat. }
  rewrite E. split; [reflexivity|]. split.
  - apply Forall_forall. intros xy Hxy.
    apply in_map_iff in Hxy. destruct Hxy as (data & <- & Hd).
    rewrite Forall_forall in Hds. specialize (Hds data Hd).
    cbn [fst snd]. rewrite !length_firstn. lia.
  - intros Hlast. apply map_ext_in. intros data Hd.
    rewrite Forall_forall in Hds. specialize (Hds data Hd).
    rewrite Hlast. rewrite firstn_all.
    rewrite <- Hds. now rewrite firstn_all.
Qed.

Lemma update_draws_prefix_witness :
  nth_error [0; 1; 2] 1%nat = Some 1
  /\ Forall (fun data => length data = length [0; 1; 2])
            [[Fin 25; Fin 26; Fin 27]; [Fin 25; Fin 25; Fin 26];
             [Fin 25; Fin 25; Fin 25]; [Fin 24; Fin 24; Fin 24]]
  /\ length (DepthAnimation.lines DepthAnimation.initial) = 4%nat
  /\ exists st',
      DepthAnimation.update [0; 1; 2]
        [[Fin 25; Fin 26; Fin 27]; [Fin 25; Fin 25; Fin 26];
         [Fin 25; Fin 25; Fin 25]; [Fin 24; Fin 24; Fin 24]]
        DepthAnimation.initial 1
      = inr st'
      /\ DepthAnimation.time_marker st' = [1; 1]
      /\ DepthAnimation.lines st'
         = [([0; 1], [Fin 25; Fin 26]); ([0; 1], [Fin 25; Fin 25]);
            ([0; 1], [Fin 25; Fin 25]); ([0; 1], [Fin 24; Fin 24])].
Proof.
  assert (H1 : nth_error [0; 1; 2] 1%nat = Some 1) by reflexivity.
  assert (H2 : Forall (fun data => length data = length [0; 1; 2])
                 [[Fin 25; Fin 26; Fin 27]; [Fin 25; Fin 25; Fin 26];
                  [Fin 25; Fin 25; Fin 25]; [Fin 24; Fin 24; Fin 24]])
    by (repeat constructor).
  assert (H3 : length (DepthAnimation.lines DepthAnimation.initial) = 4%nat)
    by reflexivity.
  split; [exact H1|]. split; [exact H2|]. split; [exact H3|].
  destruct (update_draws_prefix [0; 1; 2]
              [[Fin 25; Fin 26; Fin 27]; [Fin 25; Fin 25; Fin 26];
               [Fin 25; Fin 25; Fin 25]; [Fin 24; Fin 24; Fin 24]]
              DepthAnimation.initial 1 1 H1 H2 H3)
    as (st' & E & Hm & Hl & _).
  exists st'. split; [exact E|]. split; [exact Hm | exact Hl].
Defined.

(** X4.  [update] raises [IndexError] exactly for the frames outside
    [[- n, n)], [n] the number of times: the frames [0 .. n - 1] the
    animation asks for never fail, and a frame past the end draws
    nothing. *)
Theorem update_index_error (tp : list R) (ds : list (list float64))
  (st : DepthAnimation.artists) (frame : Z) :
  DepthAnimation.update tp ds st frame = inl IndexError
  <-> (frame < - Z.of_nat (length tp) \/ Z.of_nat (length tp) <= frame)%Z.
Proof.
  unfold DepthAnimation.update. split.
  - intros H.
    destruct (Z_lt_dec frame (- Z.of_nat (length tp))) as [Hl|Hl];
      [left; exact Hl|].
    destruct (Z_le_dec (Z.of_nat (length tp)) frame) as [Hr|Hr];
      [right; exact Hr|].
    exfalso.
    destruct (py_index_found _ tp frame) as [x Hx]; [lia|].
    rewrite Hx in H. discriminate.
  - intros H. now rewrite py_index_out_of_range.
Qed.

(** ** The clock text *)

Lemma py_int_IZR (n : Z) : py_int (IZR n) = n.
Proof.
  unfold py_int. destruct (Rle_dec 0 (IZR n)) as [_|_].
  - apply ZfloorZ.
  - unfold Zceil. rewrite <- opp_IZR, ZfloorZ. lia.
Qed.

Lemma quarter_hour_minutes (i : nat) :
  py_int (INR i / 4 * 60) = (15 * Z.of_nat i)%Z.
Proof.
  replace (INR i / 4 * 60) with (IZR (15 * Z.of_nat i))
    by (rewrite mult_IZR, <- INR_IZR_INZ; lra).
  apply py_int_IZR.
Qed.

Lemma quarter_hour_text (j : nat) :
  time_str (INR j / 4)
  = strftime_HM (((Z.of_nat j / 4) mod 24)%Z, (15 * (Z.of_nat j mod 4))%Z)
  .
Proof.
  unfold time_str. rewrite quarter_hour_minutes.
  unfold clock. f_equal. f_equal.
  - pose proof (Nat2Z.is_nonneg j).
    Z.to_euclidean_division_equations. lia.
  - pose proof (Nat2Z.is_nonneg j).
    Z.to_euclidean_division_equations. lia.
Qed.

(** X5.  On the quarter-hour grid of the scripts, the text of sample [i]
    shows hour [(i / 4) mod 24] and minute [15 * (i mod 4)], each with two
    digits: the conversion [int(t * 60)] loses nothing there, and the text
    is the same 96 samples (one day) later. *)
Theorem clock_text_quarter_hours (i : nat) :
  time_str (INR i / 4)
  = strftime_HM (((Z.of_nat i / 4) mod 24)%Z, (15 * (Z.of_nat i mod 4))%Z)
  /\ time_str (INR (i + 96) / 4) = time_str (INR i / 4).
Proof.
  assert (E : forall j : nat,
             time_str (INR j / 4)
             = strftime_HM (((Z.of_nat j / 4) mod 24)%Z,
                            (15 * (Z.of_nat j mod 4))%Z)).
  { intros j. apply quarter_hour_text. }
  split; [apply E|].
  rewrite !E. f_equal. f_equal.
  - rewrite Nat2Z.inj_add. Z.to_euclidean_division_equations. lia.
  - rewrite Nat2Z.inj_add. Z.to_euclidean_division_equations. lia.
Qed.

Lemma clock_text_sample_57 : time_str (INR 57 / 4) = "14:15"%string.
Proof. rewrite quarter_hour_text. reflexivity. Qed.

(** ** The temperature axis *)

Lemma np_max_attained (a : list (list R)) (hi : R) :
  (forall v, In v (concat a) -> v <= hi) ->
  In hi (concat a) ->
  np_max a = inr hi.
Proof.
  intros Hle Hin. unfold np_max.
  destruct (concat a) as [|x l]; [contradiction|].
  f_equal. apply Rle_antisym.
  - apply row_max_le; [apply Hle; now left|].
    apply Forall_forall. intros y Hy. apply Hle. now right.
  - destruct Hin as [->|Hin]; [apply row_max_first | now apply row_max_In].
Qed.

Lemma np_min_attained (a : list (list R)) (lo : R) :
  (forall v, In v (concat a) -> lo <= v) ->
  In lo (concat a) ->
  np_min a = inr lo.
Proof.
  intros Hle Hin. unfold np_min.
  destruct (concat a) as [|x l]; [contradiction|].
  f_equal. apply Rle_antisym.
  - destruct Hin as [->|Hin]; [apply row_min_first | now apply row_min_In].
  - apply row_min_ge; [apply Hle; now left|].
    apply Forall_forall. intros y Hy. apply Hle. now right.
Qed.

Lemma soil_temperature_at_hour_14 (a m k P : R) :
  soil_temperature_at a m k P 0 14 = m + a.
Proof.
  rewrite soil_temperature_at_surface. unfold surface_temperature_at.
  rewrite sin_quarter_turn. ring.
Qed.

Lemma soil_temperature_at_hour_2 (a m k P : R) :
  soil_temperature_at a m k P 0 2 = m - a.
Proof.
  rewrite soil_temperature_at_surface. unfold surface_temperature_at.
  rewrite sin_minus_quarter_turn. ring.
Qed.

(** X6.  For valid parameters, depths at or below the surface, a depth
    domain that holds the surface and a time domain that holds the hours 2
    and 14: the smallest and largest value of the whole field are
    [meanTemperature - amplitude] and [meanTemperature + amplitude], so the
    temperature axis runs from one degree below the first to one degree
    above the second and every value of the field lies strictly inside
    it. *)
Theorem temperature_axis_limits (tp dp : list R) (p : ThermalParameters) :
  valid_params p ->
  Forall (fun d => d <= 0) dp ->
  In 0 dp ->
  In 2 tp ->
  In 14 tp ->
  exists vals : list (list R),
    generateField tp dp p = inr (map (map Fin) vals)
    /\ np_min vals = inr (meanTemperature p - amplitude p)
    /\ np_max vals = inr (meanTemperature p + amplitude p)
    /\ ylim vals
       = inr (meanTemperature p - amplitude p - 1,
              meanTemperature p + amplitude p + 1)
    /\ forall row v,
        In row vals -> In v row ->
        meanTemperature p - amplitude p - 1 < v
        < meanTemperature p + amplitude p + 1.
Proof.
  intros (Ha & Hk & HP) Hd H0 H2 H14.
  set (f := soil_temperature_at (amplitude p) (meanTemperature p)
              (diffusivity p) (period p)).
  exists (map (fun d => map (f d) tp) dp).
  assert (Hb : forall v,
             In v (concat (map (fun d => map (f d) tp) dp)) ->
             meanTemperature p - amplitude p <= v
             <= meanTemperature p + amplitude p).
  { intros v Hv. apply in_concat in Hv. destruct Hv as (row & Hrow & Hv).
    apply in_map_iff in Hrow. destruct Hrow as (d & <- & Hdin).
    apply in_map_iff in Hv. destruct Hv as (t & <- & _).
    apply soil_temperature_at_bounds; [exact Ha|].
    rewrite Forall_forall in Hd. now apply Hd. }
  assert (Hmin : np_min (map (fun d => map (f d) tp) dp)
                 = inr (meanTemperature p - amplitude p)).
  { apply np_min_attained; [intros v Hv; now apply Hb|].
    apply in_concat. exists (map (f 0) tp). split.
    - apply (in_map (fun d => map (f d) tp) dp 0 H0).
    - unfold f. rewrite <- (soil_temperature_at_hour_2 _ _
                                (diffusivity p) (period p)).
      now apply in_map. }
  assert (Hmax : np_max (map (fun d => map (f d) tp) dp)
                 = inr (meanTemperature p + amplitude p)).
  { apply np_max_attained; [intros v Hv; now apply Hb|].
    apply in_concat. exists (map (f 0) tp). split.
    - apply (in_map (fun d => map (f d) tp) dp 0 H0).
    - unfold f. rewrite <- (soil_temperature_at_hour_14 _ _
                                (diffusivity p) (period p)).
      now apply in_map. }
  split.
  { rewrite generateField_cells by nra. f_equal.
    rewrite map_map. apply map_ext. intros d. now rewrite map_map. }
  split; [exact Hmin|]. split; [exact Hmax|]. split.
  { unfold ylim. now rewrite Hmin, Hmax. }
  intros row v Hrow Hv.
  assert (Hc : In v (concat (map (fun d => map (f d) tp) dp)))
    by (apply in_concat; exists row; split; assumption).
  specialize (Hb v Hc). lra.
Qed.

Lemma Depth_hour_2 : nth_error Depth.time_points 8 = Some 2.
Proof.
  rewrite Depth_time_points_nth by lia. f_equal.
  replace (INR 8) with 8 by (rewrite INR_IZR_INZ; reflexivity). lra.
Qed.

Lemma Depth_depth_0 : nth_error Depth.depth_points 0 = Some 0.
Proof.
  rewrite Depth_depth_points_nth by lia. f_equal. simpl. lra.
Qed.

Lemma temperature_axis_limits_witness :
  valid_params script_params
  /\ Forall (fun d => d <= 0) Depth.depth_points
  /\ In 0 Depth.depth_points
  /\ In 2 Depth.time_points
  /\ In 14 Depth.time_points
  /\ exists vals : list (list R),
      Depth.soil_temperature = inr (map (map Fin) vals)
      /\ ylim vals = inr (25 - 10 - 1, 25 + 10 + 1).
Proof.
  assert (V : valid_params script_params)
    by (unfold valid_params; simpl; lra).
  assert (H0 : In 0 Depth.depth_points)
    by (apply nth_error_In with 0%nat; exact Depth_depth_0).
  assert (H2 : In 2 Depth.time_points)
    by (apply nth_error_In with 8%nat; exact Depth_hour_2).
  assert (H14 : In 14 Depth.time_points)
    by (apply nth_error_In with 56%nat; exact Depth_hour_14).
  split; [exact V|]. split; [exact Depth_depth_points_nonpositive|].
  split; [exact H0|]. split; [exact H2|]. split; [exact H14|].
  destruct (temperature_axis_limits Depth.time_points Depth.depth_points
              script_params V Depth_depth_points_nonpositive H0 H2 H14)
    as (vals & E & _ & _ & Hy & _).
  exists vals. split; [|exact Hy].
  rewrite Depth_soil_temperature. exact E.
Defined.

(** ** The frames of [Soil temperature profile.py] *)

Lemma np_column_cells (f : R -> R -> R) (tp : list R) (j : nat) (t : R) :
  nth_error tp j = Some t ->
  forall dp : list R,
    ProfileAnimation.np_column
      (map (fun d => map (fun t' => Fin (f d t')) tp) dp) (Z.of_nat j)
    = inr (map (fun d => Fin (f d t)) dp).
Proof.
  intros Ht. induction dp as [|d dp IH]; [reflexivity|].
  simpl.
  rewrite (py_index_in_range _ (map (fun t' => Fin (f d t')) tp) j
             (Fin (f d t)))
    by (rewrite nth_error_map, Ht; reflexivity).
  now rewrite IH.
Qed.

(** X7.  For valid parameters, depths at or below the surface and a frame
    inside the time domain, the first plot and [update] both succeed on the
    generated field; the curve then holds the column of the frame, one
    temperature per depth (as many x as y), each the value of the formula at
    that depth and the time of the frame, a real number between
    [meanTemperature - amplitude] and [meanTemperature + amplitude]; the
    depths of the curve are never changed.  When the time of the frame is
    sample [i] of the quarter-hour grid, the text box shows hour
    [(i / 4) mod 24] and minute [15 * (i mod 4)]. *)
Theorem profile_update_draws_column (tp dp : list R) (p : ThermalParameters)
  (frame : nat) (t : R) :
  valid_params p ->
  Forall (fun d => d <= 0) dp ->
  nth_error tp frame = Some t ->
  exists field st0 st',
    generateField tp dp p = inr field
    /\ ProfileAnimation.initial dp field = inr st0
    /\ ProfileAnimation.update tp field st0 (Z.of_nat frame) = inr st'
    /\ ProfileAnimation.line_ydata st' = dp
    /\ ProfileAnimation.line_xdata st'
       = map (fun d => Fin (field_value p (- d) t)) dp
    /\ length (ProfileAnimation.line_xdata st')
       = length (ProfileAnimation.line_ydata st')
    /\ Forall (fun x =>
                 exists v,
                   x = Fin v
                   /\ meanTemperature p - amplitude p <= v
                      <= meanTemperature p + amplitude p)
              (ProfileAnimation.line_xdata st')
    /\ (forall i : nat,
          t = INR i / 4 ->
          ProfileAnimation.time_text st'
          = ("时间: "
             ++ strftime_HM (((Z.of_nat i / 4) mod 24)%Z,
                             (15 * (Z.of_nat i mod 4))%Z))%string).
Proof.
  intros (Ha & Hk & HP) Hd Ht.
  set (f := soil_temperature_at (amplitude p) (meanTemperature p)
              (diffusivity p) (period p)).
  assert (Hf : (frame < length tp)%nat)
    by (apply nth_error_Some; congruence).
  destruct (nth_error tp 0) as [t0|] eqn:E0;
    [|apply nth_error_None in E0; lia].
  exists (map (fun d => map (fun t' => Fin (f d t')) tp) dp).
  eexists. eexists.
  split; [apply generateField_cells; nra|].
  split.
  { unfold ProfileAnimation.initial.
    pose proof (np_column_cells f tp 0 t0 E0 dp) as Hc.
    cbn [Z.of_nat] in Hc. rewrite Hc. reflexivity. }
  split.
  { unfold ProfileAnimation.update.
    rewrite (np_column_cells f tp frame t Ht dp).
    rewrite (py_index_in_range _ tp frame t Ht). reflexivity. }
  cbn [ProfileAnimation.line_ydata ProfileAnimation.line_xdata
       ProfileAnimation.time_text].
  split; [reflexivity|]. split.
  { apply map_ext. intros d. unfold field_value, f.
    now rewrite Ropp_involutive. }
  split; [now rewrite length_map|].
  split; [|intros i ->; now rewrite quarter_hour_text].
  apply Forall_forall. intros x Hx.
  apply in_map_iff in Hx. destruct Hx as (d & <- & Hdin).
  eexists. split; [reflexivity|].
  apply soil_temperature_at_bounds; [exact Ha|].
  rewrite Forall_forall in Hd. now apply Hd.
Qed.

Lemma Profile_depth_points_nonpositive :
  Forall (fun d => d <= 0) Profile.depth_points.
Proof. apply linspace_down. lra. Qed.

Lemma profile_update_draws_column_witness :
  valid_params script_params
  /\ Forall (fun d => d <= 0) Profile.depth_points
  /\ nth_error Profile.time_points 56 = Some 14
  /\ exists field st0 st',
      Profile.soil_temperature = inr field
      /\ ProfileAnimation.initial Profile.depth_points field = inr st0
      /\ ProfileAnimation.update Profile.time_points field st0 56 = inr st'
      /\ length (ProfileAnimation.line_xdata st')
         = length (ProfileAnimation.line_ydata st')
      /\ Forall (fun x => exists v, x = Fin v /\ 25 - 10 <= v <= 25 + 10)
                (ProfileAnimation.line_xdata st')
      /\ ProfileAnimation.time_text st' = "时间: 14:00"%string.
Proof.
  assert (V : valid_params script_params)
    by (unfold valid_params; simpl; lra).
  split; [exact V|]. split; [exact Profile_depth_points_nonpositive|].
  split; [exact quarter_hours_14|].
  destruct (profile_update_draws_column Profile.time_points
              Profile.depth_points script_params 56 14 V
              Profile_depth_points_nonpositive quarter_hours_14)
    as (field & st0 & st' & E & Hi & Hu & _ & _ & Hl & Hb & Ht).
  exists field, st0, st'.
  split; [rewrite Profile_soil_temperature; exact E|].
  split; [exact Hi|]. split; [exact Hu|]. split; [exact Hl|].
  split; [exact Hb|].
  rewrite (Ht 56%nat); [reflexivity|].
  replace (INR 56) with 56 by (rewrite INR_IZR_INZ; reflexivity). lra.
Defined.

(** ** Masks *)

Lemma compress_map (A B : Type) (m : A -> bool) (f : A -> B) (xs : list A) :
  compress (map m xs) (map f xs) = map f (filter m xs).
Proof.
  induction xs as [|x xs IH]; simpl; [reflexivity|].
  destruct (m x); simpl; now rewrite IH.
Qed.

Lemma mask_set_map (A : Type) (yf : A -> float64) (m : A -> bool)
  (v : float64) (xs : list A) :
  mask_set (map yf xs) (map m xs) v
  = map (fun x => if m x then v else yf x) xs.
Proof. unfold mask_set. apply map2_map. Qed.

Lemma mask_assign_map (A : Type) (yf g : A -> float64) (m : A -> bool)
  (xs : list A) :
  mask_assign (map yf xs) (map m xs) (map g (filter m xs))
  = map (fun x => if m x then g x else yf x) xs.
Proof.
  induction xs as [|x xs IH]; simpl; [reflexivity|].
  destruct (m x); simpl; now rewrite IH.
Qed.

Lemma np_sum_none (A : Type) (m : A -> bool) (xs : list A) :
  (0 <? np_sum (map m xs))%nat = false ->
  forall x, In x xs -> m x = false.
Proof.
  unfold np_sum. intros H x Hx.
  apply Nat.ltb_ge in H.
  destruct (m x) eqn:E; [|reflexivity].
  exfalso.
  assert (Hin : In true (filter (fun b : bool => b) (map m xs))).
  { apply filter_In. split; [|reflexivity].
    rewrite <- E. now apply in_map. }
  destruct (filter (fun b : bool => b) (map m xs)); [contradiction|].
  simpl in H. lia.
Qed.

(** A masked write that is skipped when the mask is empty writes what the
    unguarded write would. *)
Lemma guarded_mask_write (A : Type) (m : A -> bool) (yf g : A -> float64)
  (xs : list A) (written : list float64) :
  written = map (fun x => if m x then g x else yf x) xs ->
  (if (0 <? np_sum (map m xs))%nat then written else map yf xs)
  = map (fun x => if m x then g x else yf x) xs.
Proof.
  intros ->. destruct (0 <? np_sum (map m xs))%nat eqn:E; [reflexivity|].
  apply map_ext_in. intros x Hx.
  now rewrite (np_sum_none A m xs E x Hx).
Qed.

Lemma Rltb_true (x y : R) : Rltb x y = true <-> x < y.
Proof.
  unfold Rltb. destruct (Rlt_dec x y); split; intros; try assumption;
    try reflexivity; try discriminate; contradiction.
Qed.

Lemma Rleb_true (x y : R) : Rleb x y = true <-> x <= y.
Proof.
  unfold Rleb. destruct (Rle_dec x y); split; intros; try assumption;
    try reflexivity; try discriminate; contradiction.
Qed.

Lemma Rltb_false (x y : R) : Rltb x y = false <-> y <= x.
Proof.
  unfold Rltb. destruct (Rlt_dec x y); split; intros; try reflexivity;
    try discriminate; lra.
Qed.

Lemma Rleb_false (x y : R) : Rleb x y = false <-> y < x.
Proof.
  unfold Rleb. destruct (Rle_dec x y); split; intros; try reflexivity;
    try discriminate; lra.
Qed.

(** ** The waveform of [TDR waveform.py] *)

Lemma between_divisor_positive (x1 x2 x : R) :
  (Rltb (x1 + 2) x && Rltb x (x2 - 2))%bool = true ->
  0 < (x2 - 2) - (x1 + 2) /\ 0 < (x - (x1 + 2)) / ((x2 - 2) - (x1 + 2)) < 1.
Proof.
  intros H. apply andb_prop in H. destruct H as [H1 H2].
  apply Rltb_true in H1. apply Rltb_true in H2.
  assert (Hd : 0 < (x2 - 2) - (x1 + 2)) by lra.
  split; [exact Hd|]. split.
  - apply Rdiv_lt_0_compat; lra.
  - apply Rmult_lt_reg_r with ((x2 - 2) - (x1 + 2)); [exact Hd|].
    unfold Rdiv. rewrite Rmult_assoc, Rinv_l by lra. lra.
Qed.

Lemma np_power_positive (b e : R) :
  0 < b -> np_power (Fin b) e = Fin (Rpower b e).
Proof.
  intros Hb. unfold np_power.
  destruct (Rlt_dec b 0); [lra|].
  destruct (Req_dec_T b 0); [lra | reflexivity].
Qed.

Lemma create_realistic_waveform_cells (x_data : list R) (x1 x2 : R) :
  TDR.create_realistic_waveform x_data x1 x2
  = map (fun x => Fin (TDR.waveform_at x1 x2 x)) x_data.
Proof.
  unfold TDR.create_realistic_waveform. cbv zeta.
  rewrite !map_map.
  (* zeros, then the cable mask *)
  rewrite (mask_set_map R (fun _ => Fin 0) (fun x => Rltb x (x1 - 5))
             (Fin 0.0) x_data).
  rewrite map2_map.
  set (y2 := fun x : R => Fin (0 + TDR.gauss x1 x)).
  assert (E2 : map (fun x : R =>
                      fadd (if Rltb x (x1 - 5) then Fin 0.0 else Fin 0)
                        (fmul (Fin 0.12)
                           (np_exp
                              (fmul (Fin (- 0.5))
                                 (fmul (fdiv (fsub (Fin x) (Fin x1)) (Fin 1.5))
                                    (fdiv (fsub (Fin x) (Fin x1))
                                       (Fin 1.5))))))) x_data
               = map y2 x_data).
  { apply map_ext. intros x. unfold y2, TDR.gauss.
    destruct (Rltb x (x1 - 5)); simpl; f_equal; lra. }
  rewrite E2. clear E2.
  (* the ramp between the two reflections *)
  set (mb := fun x : R => (Rltb (x1 + 2) x && Rltb x (x2 - 2))%bool).
  set (y3 := fun x : R => if mb x then Fin (TDR.ramp x1 x2 x) else y2 x).
  rewrite (guarded_mask_write R mb y2 (fun x => Fin (TDR.ramp x1 x2 x)) x_data).
  2:{ rewrite (compress_map R float64 mb Fin x_data), !map_map.
      rewrite <- (mask_assign_map R y2 (fun x => Fin (TDR.ramp x1 x2 x))
                    mb x_data).
      f_equal. apply map_ext_in. intros x Hx.
      apply filter_In in Hx. destruct Hx as [_ Hm].
      destruct (between_divisor_positive x1 x2 x Hm) as [_ [Hn _]].
      unfold fdiv, fsub, lift2.
      rewrite np_power_positive by exact Hn. reflexivity. }
  fold y3.
  (* the second reflection *)
  set (mr := fun x : R => (Rleb (x2 - 2) x && Rleb x (x2 + 5))%bool).
  set (y4 := fun x : R =>
               if mr x then fadd (y3 x) (Fin (TDR.step x2 x)) else y3 x).
  rewrite (guarded_mask_write R mr y3
             (fun x => fadd (y3 x) (Fin (TDR.step x2 x))) x_data).
  2:{ rewrite (compress_map R float64 mr Fin x_data), !map_map.
      rewrite (compress_map R float64 mr y3 x_data).
      rewrite map2_map.
      rewrite <- (mask_assign_map R y3
                    (fun x => fadd (y3 x) (Fin (TDR.step x2 x))) mr x_data).
      reflexivity. }
  fold y4.
  (* the level after the probe *)
  rewrite (guarded_mask_write R (fun x => Rltb (x2 + 5) x) y4
             (fun _ => Fin 0.2) x_data)
    by apply mask_set_map.
  apply map_ext. intros x.
  unfold TDR.waveform_at, y4, y3, y2, mr, mb. cbv zeta.
  destruct (Rltb (x2 + 5) x); [reflexivity|].
  destruct (Rleb (x2 - 2) x && Rleb x (x2 + 5))%bool;
    destruct (Rltb (x1 + 2) x && Rltb x (x2 - 2))%bool; reflexivity.
Qed.

Lemma tanh_bounds (x : R) : -1 < tanh x < 1.
Proof.
  unfold tanh, sinh, cosh.
  pose proof (exp_pos x) as H1. pose proof (exp_pos (- x)) as H2.
  set (a := exp x) in *. set (b := exp (- x)) in *.
  assert (E : (a - b) / 2 / ((a + b) / 2) = (a - b) * / (a + b))
    by (field; lra).
  rewrite E.
  assert (Hi : 0 < / (a + b)) by (apply Rinv_0_lt_compat; lra).
  assert (Hu : (a + b) * / (a + b) = 1) by (apply Rinv_r; lra).
  split; nra.
Qed.

Lemma step_bounds (x2 x : R) : 0 < TDR.step x2 x < 0.25.
Proof.
  unfold TDR.step. pose proof (tanh_bounds ((x - x2) / 2.0 * 3)). lra.
Qed.

Lemma gauss_bounds (x1 x : R) : 0 < TDR.gauss x1 x <= 0.12.
Proof.
  unfold TDR.gauss.
  set (q := (x - x1) / 1.5).
  pose proof (exp_pos (- 0.5 * (q * q))) as Hp.
  assert (Hq : 0 <= q * q) by nra.
  assert (He : exp (- 0.5 * (q * q)) <= 1).
  { rewrite <- exp_0.
    destruct (Req_dec (- 0.5 * (q * q)) 0) as [E|N].
    - rewrite E. apply Rle_refl.
    - left. apply exp_increasing. lra. }
  lra.
Qed.

Lemma gauss_peak (x1 : R) : TDR.gauss x1 x1 = 0.12.
Proof.
  unfold TDR.gauss.
  replace (- 0.5 * ((x1 - x1) / 1.5 * ((x1 - x1) / 1.5))) with 0 by lra.
  rewrite exp_0. lra.
Qed.

Lemma exp_8_9 : 2.4 < exp (8 / 9).
Proof.
  assert (H1 : 1 + 1 / 36 < exp (1 / 36)) by (apply exp_ineq1; lra).
  assert (E2 : exp (1 / 18) = exp (1 / 36) * exp (1 / 36))
    by (rewrite <- exp_plus; f_equal; lra).
  assert (E4 : exp (1 / 9) = exp (1 / 18) * exp (1 / 18))
    by (rewrite <- exp_plus; f_equal; lra).
  assert (E8 : exp (2 / 9) = exp (1 / 9) * exp (1 / 9))
    by (rewrite <- exp_plus; f_equal; lra).
  assert (E16 : exp (4 / 9) = exp (2 / 9) * exp (2 / 9))
    by (rewrite <- exp_plus; f_equal; lra).
  assert (E32 : exp (8 / 9) = exp (4 / 9) * exp (4 / 9))
    by (rewrite <- exp_plus; f_equal; lra).
  assert (H2 : 1.0563 < exp (1 / 18)) by (rewrite E2; nra).
  assert (H4 : 1.1157 < exp (1 / 9)) by (rewrite E4; nra).
  assert (H8 : 1.2447 < exp (2 / 9)) by (rewrite E8; nra).
  assert (H16 : 1.5492 < exp (4 / 9)) by (rewrite E16; nra).
  rewrite E32. nra.
Qed.

Lemma gauss_far (x1 x : R) : x1 + 2 <= x -> TDR.gauss x1 x < 0.05.
Proof.
  intros Hx. unfold TDR.gauss.
  set (q := (x - x1) / 1.5).
  assert (Hq : 16 / 9 <= q * q).
  { assert (4 / 3 <= q) by (unfold q; lra). nra. }
  apply Rle_lt_trans with (0.12 * exp (- (8 / 9))).
  - apply Rmult_le_compat_l; [lra|].
    destruct (Req_dec (- 0.5 * (q * q)) (- (8 / 9))) as [E|N].
    + rewrite E. apply Rle_refl.
    + left. apply exp_increasing. lra.
  - rewrite exp_Ropp. pose proof exp_8_9 as H.
    assert (Hi : / exp (8 / 9) < / 2.4)
      by (apply Rinv_lt_contravar; [nra | exact H]).
    lra.
Qed.

Lemma ramp_bounds (x1 x2 x : R) :
  x1 + 2 < x < x2 - 2 -> -0.05 < TDR.ramp x1 x2 x < 0.05.
Proof.
  intros [H1 H2]. unfold TDR.ramp.
  set (n := (x - (x1 + 2)) / (x2 - 2 - (x1 + 2))).
  assert (Hn : 0 < n < 1).
  { apply (between_divisor_positive x1 x2 x).
    apply andb_true_intro. split; apply Rltb_true; assumption. }
  assert (Hp : 0 < Rpower n 0.8) by (unfold Rpower; apply exp_pos).
  assert (Hl : Rpower n 0.8 < 1).
  { rewrite <- (Rpower_O 1) by lra.
    replace (Rpower 1 0) with (Rpower 1 0.8)
      by (unfold Rpower; rewrite ln_1; f_equal; lra).
    apply Rlt_Rpower_l; lra. }
  lra.
Qed.

Lemma ramp_decreasing (x1 x2 x x' : R) :
  x1 + 2 < x -> x < x' -> x' < x2 - 2 ->
  TDR.ramp x1 x2 x' < TDR.ramp x1 x2 x.
Proof.
  intros H1 H2 H3. unfold TDR.ramp.
  assert (Hd : 0 < x2 - 2 - (x1 + 2)) by lra.
  assert (Hi : 0 < / (x2 - 2 - (x1 + 2))) by (apply Rinv_0_lt_compat; lra).
  assert (Hp : Rpower ((x - (x1 + 2)) / (x2 - 2 - (x1 + 2))) 0.8
               < Rpower ((x' - (x1 + 2)) / (x2 - 2 - (x1 + 2))) 0.8).
  { apply Rlt_Rpower_l; [lra|]. unfold Rdiv. split; nra. }
  lra.
Qed.

Lemma waveform_at_bounds (x1 x2 x : R) :
  x1 + 4 <= x2 -> -0.05 < TDR.waveform_at x1 x2 x < 0.3.
Proof.
  intros H. unfold TDR.waveform_at. cbv zeta.
  pose proof (gauss_bounds x1 x) as Hg.
  pose proof (step_bounds x2 x) as Hs.
  destruct (Rltb (x2 + 5) x) eqn:Ea; [lra|].
  destruct (Rleb (x2 - 2) x && Rleb x (x2 + 5))%bool eqn:Er.
  - apply andb_prop in Er. destruct Er as [Er _].
    apply Rleb_true in Er.
    assert (Eb : (Rltb (x1 + 2) x && Rltb x (x2 - 2))%bool = false).
    { apply andb_false_intro2. apply Rltb_false. exact Er. }
    rewrite Eb.
    assert (Hf : TDR.gauss x1 x < 0.05) by (apply gauss_far; lra).
    lra.
  - destruct (Rltb (x1 + 2) x && Rltb x (x2 - 2))%bool eqn:Eb.
    + apply andb_prop in Eb. destruct Eb as [E1 E2].
      apply Rltb_true in E1. apply Rltb_true in E2.
      pose proof (ramp_bounds x1 x2 x (conj E1 E2)). lra.
    + lra.
Qed.

(** X8.  [create_realistic_waveform] returns one sample per place, and the
    sample at a place [x] depends on [x] alone: the Gaussian peak around
    [x1] where [x <= x1 + 2] (and [x < x2 - 2]); the ramp, which replaces
    the Gaussian, where [x1 + 2 < x < x2 - 2]; the Gaussian plus the rising
    step where [x2 - 2 <= x <= x2 + 5]; and exactly 0.2 beyond
    [x2 + 5]. *)
Theorem waveform_regions (x_data : list R) (x1 x2 : R) (i : nat) (x : R) :
  nth_error x_data i = Some x ->
  length (TDR.create_realistic_waveform x_data x1 x2) = length x_data
  /\ exists y,
      nth_error (TDR.create_realistic_waveform x_data x1 x2) i = Some (Fin y)
      /\ (x <= x1 + 2 -> x < x2 - 2 -> y = 0 + TDR.gauss x1 x)
      /\ (x1 + 2 < x < x2 - 2 -> y = TDR.ramp x1 x2 x)
      /\ (x2 - 2 <= x <= x2 + 5 -> y = 0 + TDR.gauss x1 x + TDR.step x2 x)
      /\ (x2 + 5 < x -> y = 0.2).
Proof.
  intros Hx. rewrite create_realistic_waveform_cells.
  split; [apply length_map|].
  exists (TDR.waveform_at x1 x2 x).
  split; [rewrite nth_error_map, Hx; reflexivity|].
  unfold TDR.waveform_at. cbv zeta.
  split; [|split; [|split]].
  - intros H1 H2.
    assert (Ea : Rltb (x2 + 5) x = false) by (apply Rltb_false; lra).
    assert (Er : (Rleb (x2 - 2) x && Rleb x (x2 + 5))%bool = false)
      by (apply andb_false_intro1; apply Rleb_false; lra).
    assert (Eb : (Rltb (x1 + 2) x && Rltb x (x2 - 2))%bool = false)
      by (apply andb_false_intro1; apply Rltb_false; lra).
    now rewrite Ea, Er, Eb.
  - intros [H1 H2].
    assert (Ea : Rltb (x2 + 5) x = false) by (apply Rltb_false; lra).
    assert (Er : (Rleb (x2 - 2) x && Rleb x (x2 + 5))%bool = false)
      by (apply andb_false_intro1; apply Rleb_false; lra).
    assert (Eb : (Rltb (x1 + 2) x && Rltb x (x2 - 2))%bool = true)
      by (apply andb_true_intro; split; apply Rltb_true; lra).
    now rewrite Ea, Er, Eb.
  - intros [H1 H2].
    assert (Ea : Rltb (x2 + 5) x = false) by (apply Rltb_false; lra).
    assert (Er : (Rleb (x2 - 2) x && Rleb x (x2 + 5))%bool = true)
      by (apply andb_true_intro; split; apply Rleb_true; lra).
    assert (Eb : (Rltb (x1 + 2) x && Rltb x (x2 - 2))%bool = false)
      by (apply andb_false_intro2; apply Rltb_false; lra).
    now rewrite Ea, Er, Eb.
  - intros H1.
    assert (Ea : Rltb (x2 + 5) x = true) by (apply Rltb_true; lra).
    now rewrite Ea.
Qed.

Lemma waveform_regions_witness :
  nth_error [70; 75; 100; 150; 160] 1%nat = Some 75
  /\ exists y,
      nth_error (TDR.create_realistic_waveform [70; 75; 100; 150; 160]
                   TDR.cable_apparent_length TDR.total_apparent_length) 1
      = Some (Fin y)
      /\ (75 <= TDR.cable_apparent_length + 2 ->
          75 < TDR.total_apparent_length - 2 ->
          y = 0 + TDR.gauss TDR.cable_apparent_length 75).
Proof.
  assert (H : nth_error [70; 75; 100; 150; 160] 1%nat = Some 75)
    by reflexivity.
  split; [exact H|].
  destruct (waveform_regions [70; 75; 100; 150; 160]
              TDR.cable_apparent_length TDR.total_apparent_length 1 75 H)
    as (_ & y & Hy & Hg & _).
  exists y. split; [exact Hy | exact Hg].
Defined.

(** X9.  When the second reflection lies at least 4 beyond the first
    ([x1 + 4 <= x2]), every sample of the waveform is a real number strictly
    between -0.05 and 0.3, so the trace stays inside the plotted range
    [(-0.1, 0.3)]. *)
Theorem waveform_within_axes (x_data : list R) (x1 x2 : R) :
  x1 + 4 <= x2 ->
  Forall (fun v => exists y, v = Fin y /\ -0.05 < y < 0.3)
         (TDR.create_realistic_waveform x_data x1 x2).
Proof.
  intros H. rewrite create_realistic_waveform_cells.
  apply Forall_forall. intros v Hv.
  apply in_map_iff in Hv. destruct Hv as (x & <- & _).
  eexists. split; [reflexivity|]. now apply waveform_at_bounds.
Qed.

Lemma waveform_within_axes_witness :
  TDR.cable_apparent_length + 4 <= TDR.total_apparent_length
  /\ Forall (fun v => exists y, v = Fin y /\ -0.05 < y < 0.3) TDR.y_waveform.
Proof.
  assert (H : TDR.cable_apparent_length + 4 <= TDR.total_apparent_length).
  { unfold TDR.total_apparent_length, TDR.cable_apparent_length,
      TDR.probe_apparent_length, TDR.plot_start_position, TDR.cable_length,
      TDR.sensor_body_length. lra. }
  split; [exact H|].
  exact (waveform_within_axes TDR.x_waveform TDR.cable_apparent_length
           TDR.total_apparent_length H).
Defined.

(** X10.  Between the two reflections the trace falls: of two places
    [x < x'] strictly inside [(x1 + 2, x2 - 2)], the sample at [x'] is
    strictly below the sample at [x], and both are below the start value
    0.05 and above the end value -0.05. *)
Theorem waveform_falls_between (x_data : list R) (x1 x2 : R) (i j : nat)
  (x x' : R) :
  nth_error x_data i = Some x ->
  nth_error x_data j = Some x' ->
  x1 + 2 < x ->
  x < x' ->
  x' < x2 - 2 ->
  exists y y',
    nth_error (TDR.create_realistic_waveform x_data x1 x2) i = Some (Fin y)
    /\ nth_error (TDR.create_realistic_waveform x_data x1 x2) j
       = Some (Fin y')
    /\ -0.05 < y' /\ y' < y /\ y < 0.05.
Proof.
  intros Hi Hj H1 H2 H3. rewrite create_realistic_waveform_cells.
  assert (E : forall u, x1 + 2 < u < x2 - 2 ->
                        TDR.waveform_at x1 x2 u = TDR.ramp x1 x2 u).
  { intros u [Hu1 Hu2]. unfold TDR.waveform_at. cbv zeta.
    assert (Ea : Rltb (x2 + 5) u = false) by (apply Rltb_false; lra).
    assert (Er : (Rleb (x2 - 2) u && Rleb u (x2 + 5))%bool = false)
      by (apply andb_false_intro1; apply Rleb_false; lra).
    assert (Eb : (Rltb (x1 + 2) u && Rltb u (x2 - 2))%bool = true)
      by (apply andb_true_intro; split; apply Rltb_true; lra).
    now rewrite Ea, Er, Eb. }
  exists (TDR.waveform_at x1 x2 x), (TDR.waveform_at x1 x2 x').
  split; [rewrite nth_error_map, Hi; reflexivity|].
  split; [rewrite nth_error_map, Hj; reflexivity|].
  rewrite !E by lra.
  pose proof (ramp_bounds x1 x2 x) as Bx.
  pose proof (ramp_bounds x1 x2 x') as Bx'.
  pose proof (ramp_decreasing x1 x2 x x' H1 H2 H3).
  lra.
Qed.

Lemma waveform_falls_between_witness :
  nth_error [80; 100] 0%nat = Some 80
  /\ nth_error [80; 100] 1%nat = Some 100
  /\ 75 + 2 < 80
  /\ 80 < 100
  /\ 100 < 145 - 2
  /\ exists y y',
      nth_error (TDR.create_realistic_waveform [80; 100] 75 145) 0
      = Some (Fin y)
      /\ nth_error (TDR.create_realistic_waveform [80; 100] 75 145) 1
         = Some (Fin y')
      /\ -0.05 < y' /\ y' < y /\ y < 0.05.
Proof.
  assert (H1 : 75 + 2 < 80) by lra.
  assert (H2 : 80 < 100) by lra.
  assert (H3 : 100 < 145 - 2) by lra.
  split; [reflexivity|]. split; [reflexivity|].
  split; [exact H1|]. split; [exact H2|]. split; [exact H3|].
  exact (waveform_falls_between [80; 100] 75 145 0 1 80 100
           eq_refl eq_refl H1 H2 H3).
Defined.

(** ** The frames of [TDR waveform.py] *)

Lemma compress_filter (A : Type) (m : A -> bool) (xs : list A) :
  compress (map m xs) xs = filter m xs.
Proof.
  induction xs as [|x xs IH]; simpl; [reflexivity|].
  destruct (m x); simpl; now rewrite IH.
Qed.

Lemma current_dist_value (frame : Z) :
  TDR.current_dist frame = 30 + IZR frame * 0.68.
Proof.
  unfold TDR.current_dist, TDR.plot_start_position, TDR.plot_end_distance,
    TDR.num_frames. lra.
Qed.

Lemma first_reflection_passed (frame : Z) :
  TDR.cable_apparent_length + 2 < TDR.current_dist frame <-> (70 <= frame)%Z.
Proof.
  rewrite current_dist_value.
  unfold TDR.cable_apparent_length, TDR.plot_start_position,
    TDR.cable_length, TDR.sensor_body_length.
  split.
  - intros H. assert (Hf : IZR 69 < IZR frame) by lra.
    apply lt_IZR in Hf. lia.
  - intros H. apply IZR_le in H. lra.
Qed.

Lemma second_reflection_passed (frame : Z) :
  TDR.total_apparent_length + 2 < TDR.current_dist frame <-> (173 <= frame)%Z.
Proof.
  rewrite current_dist_value.
  unfold TDR.total_apparent_length, TDR.cable_apparent_length,
    TDR.probe_apparent_length, TDR.plot_start_position,
    TDR.cable_length, TDR.sensor_body_length.
  split.
  - intros H. assert (Hf : IZR 172 < IZR frame) by lra.
    apply lt_IZR in Hf. lia.
  - intros H. apply IZR_le in H. lra.
Qed.

Lemma update_annotations (st : TDR.artists) (frame : Z) :
  TDR.an_x1 (TDR.update st frame) = (TDR.an_x1 st || (70 <=? frame)%Z)%bool
  /\ TDR.an_x1_text (TDR.update st frame)
     = (TDR.an_x1_text st || (70 <=? frame)%Z)%bool
  /\ TDR.an_x2 (TDR.update st frame)
     = (TDR.an_x2 st || (173 <=? frame)%Z)%bool
  /\ TDR.an_x2_text (TDR.update st frame)
     = (TDR.an_x2_text st || (173 <=? frame)%Z)%bool
  /\ TDR.an_La (TDR.update st frame)
     = (TDR.an_La st || (173 <=? frame)%Z)%bool
  /\ TDR.an_La_text (TDR.update st frame)
     = (TDR.an_La_text st || (173 <=? frame)%Z)%bool.
Proof.
  unfold TDR.update. cbv zeta.
  destruct (Rlt_dec (TDR.cable_apparent_length + 2) (TDR.current_dist frame))
    as [H1|H1];
    destruct (Rlt_dec (TDR.total_apparent_length + 2)
                (TDR.current_dist frame)) as [H2|H2];
    rewrite first_reflection_passed in H1;
    rewrite second_reflection_passed in H2;
    destruct (Z.leb_spec 70 frame); destruct (Z.leb_spec 173 frame);
    try lia; cbn; rewrite ?orb_true_r, ?orb_false_r; repeat split.
Qed.

(** X11.  Whatever frames are played, in whatever order, from the first
    figure: each text is visible exactly when its line is, the span arrow
    and its text are visible exactly when the [x2] line is, and the [x2]
    annotations are never visible without the [x1] annotations. *)
Theorem annotations_consistent (frames : list Z) :
  let st := fold_left TDR.update frames TDR.initial in
  TDR.an_x1_text st = TDR.an_x1 st
  /\ TDR.an_x2_text st = TDR.an_x2 st
  /\ TDR.an_La st = TDR.an_x2 st
  /\ TDR.an_La_text st = TDR.an_x2 st
  /\ (TDR.an_x2 st = true -> TDR.an_x1 st = true).
Proof.
  cbv zeta.
  assert (G : forall (fs : list Z) (st : TDR.artists),
             (TDR.an_x1_text st = TDR.an_x1 st
              /\ TDR.an_x2_text st = TDR.an_x2 st
              /\ TDR.an_La st = TDR.an_x2 st
              /\ TDR.an_La_text st = TDR.an_x2 st
              /\ (TDR.an_x2 st = true -> TDR.an_x1 st = true)) ->
             TDR.an_x1_text (fold_left TDR.update fs st)
             = TDR.an_x1 (fold_left TDR.update fs st)
             /\ TDR.an_x2_text (fold_left TDR.update fs st)
                = TDR.an_x2 (fold_left TDR.update fs st)
             /\ TDR.an_La (fold_left TDR.update fs st)
                = TDR.an_x2 (fold_left TDR.update fs st)
             /\ TDR.an_La_text (fold_left TDR.update fs st)
                = TDR.an_x2 (fold_left TDR.update fs st)
             /\ (TDR.an_x2 (fold_left TDR.update fs st) = true ->
                 TDR.an_x1 (fold_left TDR.update fs st) = true)).
  { induction fs as [|f fs IH]; intros st Hst; [exact Hst|].
    simpl. apply IH.
    destruct Hst as (A1 & A2 & A3 & A4 & A5).
    destruct (update_annotations st f) as (U1 & U2 & U3 & U4 & U5 & U6).
    rewrite U1, U2, U3, U4, U5, U6, A1, A2, A3, A4.
    repeat split.
    intros H. apply orb_prop in H. apply orb_true_intro.
    destruct H as [H|H]; [left; now apply A5|].
    right. apply Z.leb_le in H. apply Z.leb_le. lia. }
  apply G. cbn. repeat split. discriminate.
Qed.

(** X12.  A frame never hides an annotation, and it shows the [x1]
    annotations exactly from frame 70 on and the [x2] annotations exactly
    from frame 173 on; so, played in order from frame 0, after frame [f]
    the [x1] line is visible exactly when [70 <= f] and the [x2] line
    exactly when [173 <= f]. *)
Theorem annotation_thresholds (st : TDR.artists) (frame : Z) (f : nat) :
  TDR.an_x1 (TDR.update st frame) = (TDR.an_x1 st || (70 <=? frame)%Z)%bool
  /\ TDR.an_x2 (TDR.update st frame)
     = (TDR.an_x2 st || (173 <=? frame)%Z)%bool
  /\ TDR.an_x1 (fold_left TDR.update (map Z.of_nat (seq 0 (S f))) TDR.initial)
     = (70 <=? f)%nat
  /\ TDR.an_x2 (fold_left TDR.update (map Z.of_nat (seq 0 (S f))) TDR.initial)
     = (173 <=? f)%nat.
Proof.
  destruct (update_annotations st frame) as (U1 & _ & U3 & _).
  split; [exact U1|]. split; [exact U3|].
  induction f as [|f [IH1 IH2]].
  - cbn [seq map fold_left Z.of_nat].
    destruct (update_annotations TDR.initial 0) as (V1 & _ & V3 & _).
    rewrite V1, V3. split; reflexivity.
  - rewrite seq_S, map_app, fold_left_app. cbn [map fold_left Nat.add].
    destruct (update_annotations
                (fold_left TDR.update (map Z.of_nat (seq 0 (S f)))
                   TDR.initial) (Z.of_nat (S f))) as (V1 & _ & V3 & _).
    rewrite V1, V3, IH1, IH2. split.
    + destruct (Nat.leb_spec 70 f); destruct (Nat.leb_spec 70 (S f));
        destruct (Z.leb_spec 70 (Z.of_nat (S f))); try lia; reflexivity.
    + destruct (Nat.leb_spec 173 f); destruct (Nat.leb_spec 173 (S f));
        destruct (Z.leb_spec 173 (Z.of_nat (S f))); try lia; reflexivity.
Qed.

Lemma linspace_up (stop : R) (num : nat) :
  0 <= stop -> Forall (fun x => 0 <= x <= stop) (linspace 0 stop num).
Proof.
  intros Hs. apply Forall_forall. intros x Hx.
  unfold linspace in Hx. apply in_map_iff in Hx.
  destruct Hx as (i & <- & Hi). apply in_seq in Hi.
  pose proof (pos_INR i) as Hpos.
  destruct (Nat.eqb_spec (S i) num) as [E|N].
  - destruct (Nat.ltb_spec 1 num) as [H1|H1]; [lra|].
    assert (i = 0%nat) by lia. subst i. simpl. lra.
  - assert (Hd : 0 < INR (num - 1)) by (apply lt_0_INR; lia).
    assert (Hle : INR i <= INR (num - 1)) by (apply le_INR; lia).
    assert (Hi' : 0 < / INR (num - 1)) by (apply Rinv_0_lt_compat; lra).
    assert (Hq : 0 <= INR i * / INR (num - 1) <= 1).
    { split; [nra|].
      apply Rmult_le_reg_r with (INR (num - 1)); [exact Hd|].
      rewrite Rmult_assoc, Rinv_l by lra. lra. }
    replace (0 + INR i * ((stop - 0) / INR (num - 1)))
      with (stop * (INR i * / INR (num - 1))) by (unfold Rdiv; ring).
    nra.
Qed.

Lemma y_waveform_cells :
  TDR.y_waveform
  = map (fun x =>
           Fin (TDR.waveform_at TDR.cable_apparent_length
                  TDR.total_apparent_length x)) TDR.x_waveform.
Proof. apply create_realistic_waveform_cells. Qed.

(** X13.  A frame draws exactly the samples whose place is at most
    [current_dist], each with its own value (as many x as y), and puts the
    signal arrow at [current_dist]; [current_dist] grows with the frame, and
    from frame 250 on (where it reaches 200) the whole waveform is
    drawn. *)
Theorem frame_draws_up_to_current_dist (st : TDR.artists) (frame : Z) :
  TDR.signal_arrow (TDR.update st frame) = TDR.current_dist frame
  /\ fst (TDR.waveform_line (TDR.update st frame))
     = filter (fun x => Rleb x (TDR.current_dist frame)) TDR.x_waveform
  /\ snd (TDR.waveform_line (TDR.update st frame))
     = map (fun x =>
              Fin (TDR.waveform_at TDR.cable_apparent_length
                     TDR.total_apparent_length x))
           (filter (fun x => Rleb x (TDR.current_dist frame)) TDR.x_waveform)
  /\ length (fst (TDR.waveform_line (TDR.update st frame)))
     = length (snd (TDR.waveform_line (TDR.update st frame)))
  /\ (forall frame' : Z,
         (frame <= frame')%Z ->
         TDR.current_dist frame <= TDR.current_dist frame')
  /\ ((250 <= frame)%Z ->
      TDR.waveform_line (TDR.update st frame)
      = (TDR.x_waveform, TDR.y_waveform)).
Proof.
  assert (E1 : fst (TDR.waveform_line (TDR.update st frame))
               = filter (fun x => Rleb x (TDR.current_dist frame))
                   TDR.x_waveform).
  { unfold TDR.update. cbv zeta.
    destruct (Rlt_dec _ _); destruct (Rlt_dec _ _); cbn [TDR.waveform_line fst];
      apply compress_filter. }
  assert (E2 : snd (TDR.waveform_line (TDR.update st frame))
               = map (fun x =>
                        Fin (TDR.waveform_at TDR.cable_apparent_length
                               TDR.total_apparent_length x))
                   (filter (fun x => Rleb x (TDR.current_dist frame))
                      TDR.x_waveform)).
  { unfold TDR.update. cbv zeta.
    destruct (Rlt_dec _ _); destruct (Rlt_dec _ _); cbn [TDR.waveform_line snd];
      rewrite y_waveform_cells; apply compress_map. }
  split.
  { unfold TDR.update. cbv zeta.
    destruct (Rlt_dec _ _); destruct (Rlt_dec _ _); reflexivity. }
  split; [exact E1|]. split; [exact E2|]. split.
  { rewrite E1, E2. now rewrite length_map. }
  split.
  { intros frame' Hle. rewrite !current_dist_value.
    apply IZR_le in Hle. lra. }
  intros H250.
  assert (Hall : filter (fun x => Rleb x (TDR.current_dist frame))
                   TDR.x_waveform = TDR.x_waveform).
  { apply forallb_filter_id. apply forallb_forall. intros x Hx.
    apply Rleb_true. rewrite current_dist_value.
    pose proof (linspace_up TDR.plot_end_distance 800) as Hb.
    unfold TDR.plot_end_distance in Hb.
    rewrite Forall_forall in Hb.
    assert (H200 : 0 <= 200.0) by lra.
    specialize (Hb H200 x Hx).
    apply IZR_le in H250. lra. }
  rewrite (surjective_pairing (TDR.waveform_line (TDR.update st frame))).
  rewrite E1, E2, Hall. now rewrite y_waveform_cells.
Qed.

(** ** The curves of [soil thermal properties.py] *)

Lemma Rpower_1_base (e : R) : Rpower 1 e = 1.
Proof. unfold Rpower. rewrite ln_1, Rmult_0_r. apply exp_0. Qed.

Lemma Rpower_pos (b e : R) : 0 < Rpower b e.
Proof. unfold Rpower. apply exp_pos. Qed.

Lemma Rpower_neg_exponent_decreasing (b b' e : R) :
  e < 0 -> 0 < b -> b < b' -> Rpower b' e < Rpower b e.
Proof.
  intros He Hb Hlt.
  assert (E : forall x, Rpower x e = / Rpower x (- e))
    by (intros x; rewrite <- Rpower_Ropp; f_equal; ring).
  rewrite (E b), (E b').
  apply Rinv_lt_contravar.
  - apply Rmult_lt_0_compat; apply Rpower_pos.
  - apply Rlt_Rpower_l; lra.
Qed.

Lemma van_genuchten_exponent : 0 < 1 / (1 - 0.29).
Proof. apply Rdiv_lt_0_compat; lra. Qed.

Lemma shape_0 : Thermal.shape 0 = 0.
Proof.
  unfold Thermal.shape.
  destruct (Req_dec_T 0 0) as [_|N]; [|contradiction].
  rewrite Rplus_0_r, Rpower_1_base. ring.
Qed.

Lemma shape_increasing (s s' : R) :
  0 <= s -> s < s' -> Thermal.shape s < Thermal.shape s'.
Proof.
  intros Hs Hlt. unfold Thermal.shape.
  pose proof van_genuchten_exponent as He.
  destruct (Req_dec_T s' 0) as [E'|N']; [lra|].
  assert (Hw' : 0 < Rpower (s' / 0.14) (1 / (1 - 0.29))) by apply Rpower_pos.
  assert (Hn : - 0.29 < 0) by lra.
  destruct (Req_dec_T s 0) as [E|N].
  - rewrite Rplus_0_r.
    pose proof (Rpower_neg_exponent_decreasing 1
                  (1 + Rpower (s' / 0.14) (1 / (1 - 0.29))) (- 0.29) Hn)
      as H.
    assert (H2 : 0 < 1) by lra.
    assert (H3 : 1 < 1 + Rpower (s' / 0.14) (1 / (1 - 0.29))) by lra.
    specialize (H H2 H3). lra.
  - assert (Hw : 0 < Rpower (s / 0.14) (1 / (1 - 0.29))) by apply Rpower_pos.
    assert (Hlt' : Rpower (s / 0.14) (1 / (1 - 0.29))
                   < Rpower (s' / 0.14) (1 / (1 - 0.29))).
    { apply Rlt_Rpower_l; [exact He|]. lra. }
    pose proof (Rpower_neg_exponent_decreasing
                  (1 + Rpower (s / 0.14) (1 / (1 - 0.29)))
                  (1 + Rpower (s' / 0.14) (1 / (1 - 0.29))) (- 0.29) Hn)
      as H.
    assert (H2 : 0 < 1 + Rpower (s / 0.14) (1 / (1 - 0.29))) by lra.
    assert (H3 : 1 + Rpower (s / 0.14) (1 / (1 - 0.29))
                 < 1 + Rpower (s' / 0.14) (1 / (1 - 0.29))) by lra.
    specialize (H H2 H3). lra.
Qed.

Lemma shape_1_pos : 0 < Thermal.shape 1.
Proof.
  rewrite <- shape_0. apply shape_increasing; lra.
Qed.

Lemma shape_1_value :
  Thermal.shape 1
  = 1 - Rpower (1 + Rpower (1 / 0.14) (1 / (1 - 0.29))) (- 0.29).
Proof.
  unfold Thermal.shape.
  destruct (Req_dec_T 1 0) as [E|_]; [lra | reflexivity].
Qed.

Lemma lambda_at_dry (phi d s : R) : Thermal.lambda_at phi d s 0 = d.
Proof.
  unfold Thermal.lambda_at.
  replace (0 / phi) with 0 by (unfold Rdiv; ring).
  rewrite shape_0. unfold Rdiv. ring.
Qed.

Lemma lambda_at_saturated (phi d s : R) :
  phi <> 0 -> Thermal.lambda_at phi d s phi = s.
Proof.
  intros Hp. unfold Thermal.lambda_at.
  replace (phi / phi) with 1 by (field; exact Hp).
  pose proof shape_1_pos. field. lra.
Qed.

Lemma lambda_at_increasing (phi d s t t' : R) :
  0 < phi -> d < s -> 0 <= t -> t < t' ->
  Thermal.lambda_at phi d s t < Thermal.lambda_at phi d s t'.
Proof.
  intros Hp Hds Ht Hlt. unfold Thermal.lambda_at.
  pose proof shape_1_pos as H1.
  assert (Hi : 0 < / phi) by (apply Rinv_0_lt_compat; exact Hp).
  assert (Hs : Thermal.shape (t / phi) < Thermal.shape (t' / phi)).
  { apply shape_increasing; unfold Rdiv; nra. }
  assert (Hi1 : 0 < / Thermal.shape 1) by (apply Rinv_0_lt_compat; exact H1).
  unfold Rdiv at 1 3. 
  assert (Hm : (s - d) * Thermal.shape (t / phi)
               < (s - d) * Thermal.shape (t' / phi)) by nra.
  nra.
Qed.

Lemma lambda_val_cells (phi d s : R) (theta : list R) :
  0 < phi ->
  Forall (fun t => 0 <= t) theta ->
  Thermal.lambda_val phi d s theta
  = map (fun t => Fin (Thermal.lambda_at phi d s t)) theta.
Proof.
  intros Hp Hth. unfold Thermal.lambda_val, Thermal.Se.
  rewrite !map_map. apply map_ext_in. intros t Ht.
  rewrite Forall_forall in Hth. specialize (Hth t Ht).
  pose proof van_genuchten_exponent as He.
  assert (Hi : 0 < / phi) by (apply Rinv_0_lt_compat; exact Hp).
  unfold np_divide at 3.
  destruct (Req_dec_T phi 0) as [E|_]; [lra|].
  unfold np_divide at 2.
  destruct (Req_dec_T 0.14 0) as [E|_]; [lra|].
  unfold Thermal.lambda_at. rewrite shape_1_value.
  pose proof shape_1_pos as HD. rewrite shape_1_value in HD.
  unfold Thermal.shape.
  assert (Hs : 0 <= t / phi) by (unfold Rdiv; nra).
  unfold np_power at 2.
  destruct (Rlt_dec (t / phi / 0.14) 0) as [Hneg|_].
  { exfalso. unfold Rdiv in Hneg. unfold Rdiv in Hs. nra. }
  destruct (Req_dec_T (t / phi / 0.14) 0) as [Ez|Nz].
  - assert (Ez' : t / phi = 0) by (unfold Rdiv in *; nra).
    destruct (Req_dec_T (t / phi) 0) as [_|N]; [|contradiction].
    destruct (Rlt_dec 0 (1 / (1 - 0.29))) as [_|N]; [|contradiction].
    cbn [fadd lift2]. unfold fadd, lift2.
    rewrite np_power_positive by lra.
    unfold fsub, fmul, lift2, np_divide.
    destruct (Req_dec_T _ 0) as [E|_]; [lra | reflexivity].
  - destruct (Req_dec_T (t / phi) 0) as [E|_].
    { exfalso. apply Nz. rewrite E. unfold Rdiv. ring. }
    unfold fadd at 2. unfold lift2.
    rewrite np_power_positive
      by (pose proof (Rpower_pos (t / phi / 0.14) (1 / (1 - 0.29))); lra).
    unfold fsub, fmul, fadd, lift2, np_divide.
    destruct (Req_dec_T _ 0) as [E|_]; [lra | reflexivity].
Qed.

Lemma finite_Fin (vals : list R) : finite (map Fin vals) = Some vals.
Proof.
  induction vals as [|x vals IH]; simpl; [reflexivity|].
  now rewrite IH.
Qed.

Lemma np_amin_attained (vals : list R) (lo : R) :
  (forall v, In v vals -> lo <= v) ->
  In lo vals ->
  np_amin (map Fin vals) = inr (Fin lo).
Proof.
  intros Hle Hin. unfold np_amin.
  destruct vals as [|x l]; [contradiction|].
  cbn [map]. change (Fin x :: map Fin l) with (map Fin (x :: l)).
  rewrite finite_Fin. do 2 f_equal. apply Rle_antisym.
  - destruct Hin as [->|Hin]; [apply row_min_first | now apply row_min_In].
  - apply row_min_ge; [apply Hle; now left|].
    apply Forall_forall. intros y Hy. apply Hle. now right.
Qed.

Lemma np_amax_attained (vals : list R) (hi : R) :
  (forall v, In v vals -> v <= hi) ->
  In hi vals ->
  np_amax (map Fin vals) = inr (Fin hi).
Proof.
  intros Hle Hin. unfold np_amax.
  destruct vals as [|x l]; [contradiction|].
  cbn [map]. change (Fin x :: map Fin l) with (map Fin (x :: l)).
  rewrite finite_Fin. do 2 f_equal. apply Rle_antisym.
  - apply row_max_le; [apply Hle; now left|].
    apply Forall_forall. intros y Hy. apply Hle. now right.
  - destruct Hin as [->|Hin]; [apply row_max_first | now apply row_max_In].
Qed.

Lemma row_min_in (l : list R) : forall x, In (row_min x l) (x :: l).
Proof.
  induction l as [|y l IH]; intros x; simpl; [now left|].
  unfold Rmin. destruct (Rle_dec x (row_min y l)); [now left|].
  right. apply IH.
Qed.

Lemma row_max_in (l : list R) : forall x, In (row_max x l) (x :: l).
Proof.
  induction l as [|y l IH]; intros x; simpl; [now left|].
  unfold Rmax. destruct (Rle_dec x (row_max y l)); [|now left].
  right. apply IH.
Qed.

Lemma extremes_exist (vals : list R) :
  vals <> [] ->
  exists lo hi,
    In lo vals /\ In hi vals
    /\ forall v, In v vals -> lo <= v <= hi.
Proof.
  destruct vals as [|x l]; [congruence|]. intros _.
  exists (row_min x l), (row_max x l).
  split; [apply row_min_in|]. split; [apply row_max_in|].
  intros v Hv. split.
  - destruct Hv as [->|Hv]; [apply row_min_first | now apply row_min_In].
  - destruct Hv as [->|Hv]; [apply row_max_first | now apply row_max_In].
Qed.

Lemma normalized_between (vals : list R) (lo hi : R) :
  In lo vals ->
  In hi vals ->
  (forall v, In v vals -> lo <= v <= hi) ->
  lo < hi ->
  Thermal.normalized (map Fin vals)
  = inr (map (fun v => Fin ((v - lo) / (hi - lo))) vals).
Proof.
  intros Hlo Hhi Hb Hlt. unfold Thermal.normalized.
  rewrite (np_amin_attained vals lo)
    by first [assumption | intros v Hv; now apply Hb].
  rewrite (np_amax_attained vals hi)
    by first [assumption | intros v Hv; now apply Hb].
  f_equal. rewrite map_map. apply map_ext. intros v.
  unfold fsub, lift2, np_divide.
  destruct (Req_dec_T (hi - lo) 0) as [E|_]; [lra | reflexivity].
Qed.

(** X14.  The normalisation [(v - np.min(v)) / (np.max(v) - np.min(v))] of
    an array of real numbers that holds two different values returns real
    numbers between 0 and 1; an entry is 0 exactly where the array is
    smallest and 1 exactly where it is largest, and the order of the
    entries is kept. *)
Theorem normalized_unit_range (vals : list R) (a b : R) :
  In a vals ->
  In b vals ->
  a < b ->
  exists lo hi,
    In lo vals /\ In hi vals /\ lo < hi
    /\ (forall v, In v vals -> lo <= v <= hi)
    /\ Thermal.normalized (map Fin vals)
       = inr (map (fun v => Fin ((v - lo) / (hi - lo))) vals)
    /\ (forall v, In v vals -> 0 <= (v - lo) / (hi - lo) <= 1)
    /\ (forall v, In v vals -> ((v - lo) / (hi - lo) = 0 <-> v = lo))
    /\ (forall v, In v vals -> ((v - lo) / (hi - lo) = 1 <-> v = hi))
    /\ (forall v w,
           v < w -> (v - lo) / (hi - lo) < (w - lo) / (hi - lo)).
Proof.
  intros Ha Hb Hab.
  destruct (extremes_exist vals) as (lo & hi & Hlo & Hhi & Hbd).
  { destruct vals; [contradiction | discriminate]. }
  assert (Hlt : lo < hi).
  { pose proof (Hbd a Ha). pose proof (Hbd b Hb). lra. }
  assert (Hi : 0 < / (hi - lo)) by (apply Rinv_0_lt_compat; lra).
  assert (Hu : (hi - lo) * / (hi - lo) = 1) by (apply Rinv_r; lra).
  exists lo, hi.
  split; [exact Hlo|]. split; [exact Hhi|]. split; [exact Hlt|].
  split; [exact Hbd|].
  split; [now apply normalized_between|].
  split.
  { intros v Hv. specialize (Hbd v Hv). unfold Rdiv. split; nra. }
  split.
  { intros v Hv. unfold Rdiv. split; intros H; [nra | subst; ring]. }
  split.
  { intros v Hv. unfold Rdiv. split; intros H; [nra | subst; lra]. }
  intros v w Hvw. unfold Rdiv. nra.
Qed.

Lemma normalized_unit_range_witness :
  In 3 [3; 5; 4]
  /\ In 5 [3; 5; 4]
  /\ 3 < 5
  /\ exists lo hi,
      Thermal.normalized (map Fin [3; 5; 4])
      = inr (map (fun v => Fin ((v - lo) / (hi - lo))) [3; 5; 4])
      /\ (forall v, In v [3; 5; 4] -> 0 <= (v - lo) / (hi - lo) <= 1).
Proof.
  assert (Ha : In 3 [3; 5; 4]) by (simpl; tauto).
  assert (Hb : In 5 [3; 5; 4]) by (simpl; tauto).
  assert (Hab : 3 < 5) by lra.
  split; [exact Ha|]. split; [exact Hb|]. split; [exact Hab|].
  destruct (normalized_unit_range [3; 5; 4] 3 5 Ha Hb Hab)
    as (lo & hi & _ & _ & _ & _ & E & Hr & _).
  exists lo, hi. split; [exact E | exact Hr].
Defined.

(** X15.  The normalisation of an empty array raises [ValueError] (from
    [np.min]); the normalisation of an array whose entries are all the same
    number divides zero by zero and returns [nan] in every place. *)
Theorem normalized_degenerate (x : R) (l : list R) :
  Thermal.normalized [] = inl ValueError
  /\ ((forall v, In v l -> v = x) ->
      Thermal.normalized (map Fin (x :: l))
      = inr (map (fun _ => NaN) (x :: l))).
Proof.
  split; [reflexivity|].
  intros Hc. unfold Thermal.normalized.
  assert (Hall : forall v, In v (x :: l) -> v = x)
    by (intros v [<-|Hv]; [reflexivity | now apply Hc]).
  rewrite (np_amin_attained (x :: l) x)
    by first [now left | intros v Hv; rewrite (Hall v Hv); lra].
  rewrite (np_amax_attained (x :: l) x)
    by first [now left | intros v Hv; rewrite (Hall v Hv); lra].
  f_equal. rewrite map_map. apply map_ext. intros v.
  unfold fsub, lift2, np_divide.
  destruct (Req_dec_T (x - x) 0) as [_|N]; [reflexivity | lra].
Qed.

Lemma linspace_ends (stop : R) (num : nat) :
  (2 <= num)%nat ->
  In 0 (linspace 0 stop num) /\ In stop (linspace 0 stop num).
Proof.
  intros Hn. unfold linspace. split.
  - apply in_map_iff. exists 0%nat. split; [|apply in_seq; lia].
    destruct (Nat.eqb_spec 1 num) as [E|_]; [lia|]. simpl. lra.
  - apply in_map_iff. exists (num - 1)%nat. split; [|apply in_seq; lia].
    destruct (Nat.eqb_spec (S (num - 1)) num) as [_|N]; [|lia].
    destruct (Nat.ltb_spec 1 num) as [_|H]; [reflexivity | lia].
Qed.

Lemma C_cells (phi C_s C_w : R) (theta : list R) :
  Thermal.C phi C_s C_w theta
  = map Fin (map (fun t => (1 - phi) * C_s + t * C_w) theta).
Proof. unfold Thermal.C. rewrite !map_map. reflexivity. Qed.

Lemma Se_cells (phi : R) (theta : list R) :
  phi <> 0 ->
  Thermal.Se phi theta = map (fun t => Fin (t / phi)) theta.
Proof.
  intros Hp. unfold Thermal.Se. rewrite map_map.
  apply map_ext. intros t. unfold np_divide.
  destruct (Req_dec_T phi 0) as [E|_]; [contradiction | reflexivity].
Qed.

(** X16.  For a porosity [phi > 0], a heat capacity of water [C_w > 0] and
    water contents between 0 and [phi] that include both ends, the
    normalised heat capacity [C_norm] is, entry by entry, the degree of
    saturation [Se = theta / phi]: the dashed line of the figure is the
    straight line from 0 to 1, whatever [C_s] is. *)
Theorem heat_capacity_normalized (phi C_s C_w : R) (theta : list R) :
  0 < phi ->
  0 < C_w ->
  Forall (fun t => 0 <= t <= phi) theta ->
  In 0 theta ->
  In phi theta ->
  Thermal.normalized (Thermal.C phi C_s C_w theta)
  = inr (Thermal.Se phi theta)
  /\ Thermal.Se phi theta = map (fun t => Fin (t / phi)) theta.
Proof.
  intros Hp Hw Hth H0 Hphi.
  rewrite Forall_forall in Hth.
  split; [|apply Se_cells; lra].
  rewrite C_cells, Se_cells by lra.
  set (c := fun t : R => (1 - phi) * C_s + t * C_w).
  rewrite (normalized_between (map c theta) (c 0) (c phi)).
  - f_equal. rewrite map_map. apply map_ext. intros t. f_equal.
    replace (c t - c 0) with (t * C_w) by (unfold c; ring).
    replace (c phi - c 0) with (phi * C_w) by (unfold c; ring).
    field. split; lra.
  - now apply in_map.
  - now apply in_map.
  - intros v Hv. apply in_map_iff in Hv. destruct Hv as (t & <- & Ht).
    specialize (Hth t Ht). unfold c. split; nra.
  - unfold c. nra.
Qed.

Lemma theta_range :
  Forall (fun t => 0 <= t <= ThermalScript.phi) ThermalScript.theta.
Proof.
  unfold ThermalScript.theta. apply linspace_up.
  unfold ThermalScript.phi. lra.
Qed.

Lemma theta_nonnegative : Forall (fun t => 0 <= t) ThermalScript.theta.
Proof.
  eapply Forall_impl; [|exact theta_range]. simpl. intros t [H _]. exact H.
Qed.

Lemma theta_ends :
  In 0 ThermalScript.theta /\ In ThermalScript.phi ThermalScript.theta.
Proof. unfold ThermalScript.theta. apply linspace_ends. lia. Qed.

Lemma script_porosity : 0 < ThermalScript.phi.
Proof. unfold ThermalScript.phi. lra. Qed.

Lemma heat_capacity_normalized_witness :
  0 < ThermalScript.phi
  /\ 0 < ThermalScript.C_w
  /\ Forall (fun t => 0 <= t <= ThermalScript.phi) ThermalScript.theta
  /\ In 0 ThermalScript.theta
  /\ In ThermalScript.phi ThermalScript.theta
  /\ ThermalScript.C_norm = inr ThermalScript.Se.
Proof.
  assert (Hw : 0 < ThermalScript.C_w) by (unfold ThermalScript.C_w; lra).
  split; [exact script_porosity|]. split; [exact Hw|].
  split; [exact theta_range|].
  split; [exact (proj1 theta_ends)|]. split; [exact (proj2 theta_ends)|].
  exact (proj1 (heat_capacity_normalized ThermalScript.phi ThermalScript.C_s
                  ThermalScript.C_w ThermalScript.theta script_porosity Hw
                  theta_range (proj1 theta_ends) (proj2 theta_ends))).
Defined.

Lemma lambda_at_range (phi d s t : R) :
  0 < phi -> d <= s -> 0 <= t <= phi ->
  d <= Thermal.lambda_at phi d s t <= s.
Proof.
  intros Hp Hds Hr. unfold Thermal.lambda_at.
  pose proof shape_1_pos as H1.
  assert (Hi : 0 < / phi) by (apply Rinv_0_lt_compat; exact Hp).
  assert (Hs0 : 0 <= Thermal.shape (t / phi)).
  { rewrite <- shape_0. destruct (Req_dec t 0) as [->|N].
    - replace (0 / phi) with 0 by (unfold Rdiv; ring). apply Rle_refl.
    - left. apply shape_increasing; [lra|]. unfold Rdiv. nra. }
  assert (Hs1 : Thermal.shape (t / phi) <= Thermal.shape 1).
  { destruct (Req_dec t phi) as [->|N].
    - replace (phi / phi) with 1 by (field; lra). apply Rle_refl.
    - left. apply shape_increasing; [unfold Rdiv; nra|].
      apply Rmult_lt_reg_r with phi; [exact Hp|].
      unfold Rdiv. rewrite Rmult_assoc, Rinv_l by lra. lra. }
  assert (Hi1 : 0 < / Thermal.shape 1)
    by (apply Rinv_0_lt_compat; exact H1).
  assert (Hq : 0 <= Thermal.shape (t / phi) * / Thermal.shape 1 <= 1).
  { split; [nra|].
    apply Rmult_le_reg_r with (Thermal.shape 1); [exact H1|].
    rewrite Rmult_assoc, Rinv_l by lra. lra. }
  unfold Rdiv at 1 3. rewrite Rmult_assoc.
  set (q := Thermal.shape (t / phi) * / Thermal.shape 1) in *.
  split; nra.
Qed.

(** X17.  For a porosity [phi > 0], [lambda_dry <= lambda_sat] and water
    contents between 0 and [phi], every entry of [lambda_val] is a real
    number between [lambda_dry] and [lambda_sat]; the entry of a dry soil
    ([theta = 0]) is exactly [lambda_dry] and the entry of a saturated soil
    ([theta = phi]) exactly [lambda_sat]. *)
Theorem conductivity_range (phi lambda_dry lambda_sat : R)
  (theta : list R) (i : nat) (t : R) :
  0 < phi ->
  lambda_dry <= lambda_sat ->
  Forall (fun t => 0 <= t <= phi) theta ->
  nth_error theta i = Some t ->
  exists v,
    nth_error (Thermal.lambda_val phi lambda_dry lambda_sat theta) i
    = Some (Fin v)
    /\ lambda_dry <= v <= lambda_sat
    /\ (t = 0 -> v = lambda_dry)
    /\ (t = phi -> v = lambda_sat).
Proof.
  intros Hp Hds Hth Ht.
  assert (Hnn : Forall (fun t => 0 <= t) theta).
  { eapply Forall_impl; [|exact Hth]. simpl. intros u [H _]. exact H. }
  rewrite lambda_val_cells by assumption.
  exists (Thermal.lambda_at phi lambda_dry lambda_sat t).
  split; [rewrite nth_error_map, Ht; reflexivity|].
  rewrite Forall_forall in Hth.
  assert (Hr : 0 <= t <= phi) by (apply Hth; now apply nth_error_In with i).
  split.
  - now apply lambda_at_range.
  - split.
    + intros ->. apply lambda_at_dry.
    + intros ->. apply lambda_at_saturated. lra.
Qed.

Lemma conductivity_range_witness :
  0 < ThermalScript.phi
  /\ ThermalScript.lambda_dry <= ThermalScript.lambda_sat
  /\ Forall (fun t => 0 <= t <= ThermalScript.phi) ThermalScript.theta
  /\ nth_error ThermalScript.theta 0 = Some 0
  /\ exists v,
      nth_error ThermalScript.lambda_val 0 = Some (Fin v)
      /\ ThermalScript.lambda_dry <= v <= ThermalScript.lambda_sat
      /\ (0 = 0 -> v = ThermalScript.lambda_dry).
Proof.
  assert (Hds : ThermalScript.lambda_dry <= ThermalScript.lambda_sat)
    by (unfold ThermalScript.lambda_dry, ThermalScript.lambda_sat; lra).
  assert (H0 : nth_error ThermalScript.theta 0 = Some 0).
  { unfold ThermalScript.theta, linspace. simpl. f_equal.
    unfold Rdiv. ring. }
  split; [exact script_porosity|]. split; [exact Hds|].
  split; [exact theta_range|]. split; [exact H0|].
  destruct (conductivity_range ThermalScript.phi ThermalScript.lambda_dry
              ThermalScript.lambda_sat ThermalScript.theta 0 0
              script_porosity Hds theta_range H0)
    as (v & Hv & Hb & Hd & _).
  exists v. split; [exact Hv|]. split; [exact Hb | exact Hd].
Defined.

(** X18.  For a porosity [phi > 0] and [lambda_dry < lambda_sat], the
    thermal conductivity grows strictly with the water content: of two
    entries of [lambda_val] at water contents [0 <= t < t'], the second is
    strictly larger. *)
Theorem conductivity_increasing (phi lambda_dry lambda_sat : R)
  (theta : list R) (i j : nat) (t t' : R) :
  0 < phi ->
  lambda_dry < lambda_sat ->
  Forall (fun t => 0 <= t) theta ->
  nth_error theta i = Some t ->
  nth_error theta j = Some t' ->
  t < t' ->
  exists v v',
    nth_error (Thermal.lambda_val phi lambda_dry lambda_sat theta) i
    = Some (Fin v)
    /\ nth_error (Thermal.lambda_val phi lambda_dry lambda_sat theta) j
       = Some (Fin v')
    /\ v < v'.
Proof.
  intros Hp Hds Hth Hi Hj Hlt.
  rewrite lambda_val_cells by assumption.
  exists (Thermal.lambda_at phi lambda_dry lambda_sat t),
         (Thermal.lambda_at phi lambda_dry lambda_sat t').
  split; [rewrite nth_error_map, Hi; reflexivity|].
  split; [rewrite nth_error_map, Hj; reflexivity|].
  apply lambda_at_increasing; try assumption.
  rewrite Forall_forall in Hth. apply Hth. now apply nth_error_In with i.
Qed.

Lemma conductivity_increasing_witness :
  0 < 0.45
  /\ 0.3 < 2.2
  /\ Forall (fun t => 0 <= t) [0; 0.2; 0.45]
  /\ nth_error [0; 0.2; 0.45] 1%nat = Some 0.2
  /\ nth_error [0; 0.2; 0.45] 2%nat = Some 0.45
  /\ 0.2 < 0.45
  /\ exists v v',
      nth_error (Thermal.lambda_val 0.45 0.3 2.2 [0; 0.2; 0.45]) 1
      = Some (Fin v)
      /\ nth_error (Thermal.lambda_val 0.45 0.3 2.2 [0; 0.2; 0.45]) 2
         = Some (Fin v')
      /\ v < v'.
Proof.
  assert (H1 : 0 < 0.45) by lra.
  assert (H2 : 0.3 < 2.2) by lra.
  assert (H3 : Forall (fun t => 0 <= t) [0; 0.2; 0.45])
    by (repeat constructor; lra).
  assert (H4 : 0.2 < 0.45) by lra.
  split; [exact H1|]. split; [exact H2|]. split; [exact H3|].
  split; [reflexivity|]. split; [reflexivity|]. split; [exact H4|].
  exact (conductivity_increasing 0.45 0.3 2.2 [0; 0.2; 0.45] 1 2 0.2 0.45
           H1 H2 H3 eq_refl eq_refl H4).
Defined.

(** X19.  For a porosity [phi > 0], [lambda_dry < lambda_sat] and water
    contents between 0 and [phi] that include both ends, the normalised
    conductivity [lambda_norm] does not depend on [lambda_dry] and
    [lambda_sat]: its entry at the water content [t] is the shape function
    at [t / phi] over the shape function at 1. *)
Theorem conductivity_normalized (phi lambda_dry lambda_sat : R)
  (theta : list R) :
  0 < phi ->
  lambda_dry < lambda_sat ->
  Forall (fun t => 0 <= t <= phi) theta ->
  In 0 theta ->
  In phi theta ->
  Thermal.normalized (Thermal.lambda_val phi lambda_dry lambda_sat theta)
  = inr (map (fun t => Fin (Thermal.shape (t / phi) / Thermal.shape 1))
             theta).
Proof.
  intros Hp Hds Hth H0 Hphi.
  assert (Hnn : Forall (fun t => 0 <= t) theta).
  { eapply Forall_impl; [|exact Hth]. simpl. intros u [H _]. exact H. }
  rewrite lambda_val_cells by assumption.
  rewrite <- (map_map (Thermal.lambda_at phi lambda_dry lambda_sat) Fin).
  rewrite Forall_forall in Hth.
  rewrite (normalized_between _ lambda_dry lambda_sat).
  - f_equal. rewrite map_map. apply map_ext. intros t. f_equal.
    unfold Thermal.lambda_at. pose proof shape_1_pos. field. lra.
  - pose proof (in_map (Thermal.lambda_at phi lambda_dry lambda_sat)
                  theta 0 H0) as E0.
    now rewrite lambda_at_dry in E0.
  - pose proof (in_map (Thermal.lambda_at phi lambda_dry lambda_sat)
                  theta phi Hphi) as E1.
    now rewrite lambda_at_saturated in E1 by lra.
  - intros v Hv. apply in_map_iff in Hv. destruct Hv as (t & <- & Ht).
    apply lambda_at_range; [exact Hp | lra | now apply Hth].
  - exact Hds.
Qed.

Lemma conductivity_normalized_witness :
  0 < ThermalScript.phi
  /\ ThermalScript.lambda_dry < ThermalScript.lambda_sat
  /\ Forall (fun t => 0 <= t <= ThermalScript.phi) ThermalScript.theta
  /\ In 0 ThermalScript.theta
  /\ In ThermalScript.phi ThermalScript.theta
  /\ ThermalScript.lambda_norm
     = inr (map (fun t =>
                   Fin (Thermal.shape (t / ThermalScript.phi)
                        / Thermal.shape 1)) ThermalScript.theta).
Proof.
  assert (Hds : ThermalScript.lambda_dry < ThermalScript.lambda_sat)
    by (unfold ThermalScript.lambda_dry, ThermalScript.lambda_sat; lra).
  split; [exact script_porosity|]. split; [exact Hds|].
  split; [exact theta_range|].
  split; [exact (proj1 theta_ends)|]. split; [exact (proj2 theta_ends)|].
  exact (conductivity_normalized ThermalScript.phi ThermalScript.lambda_dry
           ThermalScript.lambda_sat ThermalScript.theta script_porosity Hds
           theta_range (proj1 theta_ends) (proj2 theta_ends)).
Defined.

(** X20.  For a porosity [0 < phi < 1], heat capacities [C_s > 0] and
    [C_w >= 0], conductivities [0 < lambda_dry <= lambda_sat] and water
    contents between 0 and [phi], the division [lambda_val / C] never meets
    a zero: every entry of [kappa] is a positive real number, the
    conductivity over the heat capacity times [1e6]. *)
Theorem diffusivity_positive (phi C_s C_w lambda_dry lambda_sat : R)
  (theta : list R) (i : nat) (t : R) :
  0 < phi < 1 ->
  0 < C_s ->
  0 <= C_w ->
  0 < lambda_dry ->
  lambda_dry <= lambda_sat ->
  Forall (fun t => 0 <= t <= phi) theta ->
  nth_error theta i = Some t ->
  length (Thermal.kappa phi C_s C_w lambda_dry lambda_sat theta)
  = length theta
  /\ exists v,
      nth_error (Thermal.kappa phi C_s C_w lambda_dry lambda_sat theta) i
      = Some (Fin v)
      /\ v = Thermal.lambda_at phi lambda_dry lambda_sat t
             / ((1 - phi) * C_s + t * C_w) * 1e6
      /\ 0 < v.
Proof.
  intros [Hp Hp1] Hcs Hcw Hd Hds Hth Ht.
  assert (Hnn : Forall (fun t => 0 <= t) theta).
  { eapply Forall_impl; [|exact Hth]. simpl. intros u [H _]. exact H. }
  rewrite Forall_forall in Hth.
  assert (E : Thermal.kappa phi C_s C_w lambda_dry lambda_sat theta
              = map (fun t =>
                       Fin (Thermal.lambda_at phi lambda_dry lambda_sat t
                            / ((1 - phi) * C_s + t * C_w) * 1e6)) theta).
  { unfold Thermal.kappa.
    rewrite lambda_val_cells by assumption. rewrite C_cells, map_map.
    rewrite map2_map. apply map_ext_in. intros u Hu.
    specialize (Hth u Hu). unfold np_divide.
    destruct (Req_dec_T ((1 - phi) * C_s + u * C_w) 0) as [Z|_];
      [nra | reflexivity]. }
  rewrite E. split; [apply length_map|].
  eexists. split; [rewrite nth_error_map, Ht; reflexivity|].
  split; [reflexivity|].
  assert (Hr : 0 <= t <= phi) by (apply Hth; now apply nth_error_In with i).
  pose proof (lambda_at_range phi lambda_dry lambda_sat t Hp Hds Hr) as Hl.
  assert (Hc : 0 < (1 - phi) * C_s + t * C_w) by nra.
  assert (Hq : 0 < Thermal.lambda_at phi lambda_dry lambda_sat t
                   / ((1 - phi) * C_s + t * C_w))
    by (apply Rdiv_lt_0_compat; lra).
  nra.
Qed.

Lemma diffusivity_positive_witness :
  0 < ThermalScript.phi < 1
  /\ 0 < ThermalScript.C_s
  /\ 0 <= ThermalScript.C_w
  /\ 0 < ThermalScript.lambda_dry
  /\ ThermalScript.lambda_dry <= ThermalScript.lambda_sat
  /\ Forall (fun t => 0 <= t <= ThermalScript.phi) ThermalScript.theta
  /\ nth_error ThermalScript.theta 0 = Some 0
  /\ length ThermalScript.kappa = length ThermalScript.theta
  /\ exists v, nth_error ThermalScript.kappa 0 = Some (Fin v) /\ 0 < v.
Proof.
  assert (H1 : 0 < ThermalScript.phi < 1)
    by (unfold ThermalScript.phi; lra).
  assert (H2 : 0 < ThermalScript.C_s) by (unfold ThermalScript.C_s; lra).
  assert (H3 : 0 <= ThermalScript.C_w) by (unfold ThermalScript.C_w; lra).
  assert (H4 : 0 < ThermalScript.lambda_dry)
    by (unfold ThermalScript.lambda_dry; lra).
  assert (H5 : ThermalScript.lambda_dry <= ThermalScript.lambda_sat)
    by (unfold ThermalScript.lambda_dry, ThermalScript.lambda_sat; lra).
  assert (H0 : nth_error ThermalScript.theta 0 = Some 0).
  { unfold ThermalScript.theta, linspace. simpl. f_equal.
    unfold Rdiv. ring. }
  split; [exact H1|]. split; [exact H2|]. split; [exact H3|].
  split; [exact H4|]. split; [exact H5|]. split; [exact theta_range|].
  split; [exact H0|].
  destruct (diffusivity_positive ThermalScript.phi ThermalScript.C_s
              ThermalScript.C_w ThermalScript.lambda_dry
              ThermalScript.lambda_sat ThermalScript.theta 0 0
              H1 H2 H3 H4 H5 theta_range H0) as (Hl & v & Hv & _ & Hp).
  split; [exact Hl|]. exists v. split; [exact Hv | exact Hp].
Defined.
